(** * Poker_RoR: estimation, Monte Carlo simulation and recommendation

    A shallow embedding of [src/estimate.py] and [src/simulate.py], and of
    [generate_stake_recommendations] of [src/recommend.py].

    - Python floats and NumPy [float64] values are IEEE 754 binary64 numbers:
      they are modelled by the Standard Library's executable specification
      [spec_float] at precision 53 and maximal exponent 1024, so every
      definition below evaluates to the very double the program computes.
    - The sums behind pandas' [sum], [mean], [var] and [std] are NumPy's:
      taken in its order, left to right for fewer than eight values and
      pairwise from eight values on (see [Np.add_reduce]).
    - NumPy's global generator is explicit state: [np.random.seed] replaces
      it and every normal draw advances it.
    - Python exceptions are the [Raise] outcome of an error monad.
    - The quotient [count / len(paths)] of two integers is kept as the exact
      rational it denotes (see [Prob]). *)

From Stdlib Require Import ZArith String List Bool Lia QArith Qreduction.
From Stdlib Require Import Permutation.
From Stdlib Require Import Floats.SpecFloat.
Import ListNotations.

Local Open Scope Z_scope.

(* ================================================================== *)
(** * Binary64 arithmetic *)
(* ================================================================== *)

Module F64.

Definition prec : Z := 53.
Definition emax : Z := 1024.

Definition float := spec_float.

Definition add : float -> float -> float := SFadd prec emax.
Definition sub : float -> float -> float := SFsub prec emax.
Definition mul : float -> float -> float := SFmul prec emax.
Definition div : float -> float -> float := SFdiv prec emax.
Definition sqrt : float -> float := SFsqrt prec emax.

(** Conversion of a Python [int] to [float] (round to nearest even). *)
Definition of_Z (z : Z) : float := binary_normalize prec emax z 0 false.

(** The double nearest to the decimal fraction [n / d]: [dec 1 10] is the
    literal [0.1]. *)
Definition dec (n d : Z) : float := div (of_Z n) (of_Z d).

Definition zero : float := S754_zero false.
Definition one : float := of_Z 1.
Definition nan : float := S754_nan.
Definition inf : float := S754_infinity false.

(** Python's comparison operators on floats; every one of them is false
    when an operand is NaN. *)
Definition leb (x y : float) : bool := SFleb x y.
Definition ltb (x y : float) : bool := SFltb x y.
Definition eqb (x y : float) : bool := SFeqb x y.
Definition geb (x y : float) : bool := leb y x.
Definition gtb (x y : float) : bool := ltb y x.

Definition is_nan (x : float) : bool :=
  match x with S754_nan => true | _ => false end.

(** [np.isfinite]: neither NaN nor an infinity. *)
Definition is_finite (x : float) : bool :=
  match x with S754_zero _ | S754_finite _ _ _ => true | _ => false end.

(** [np.signbit]. *)
Definition signbit (x : float) : bool :=
  match x with
  | S754_zero s | S754_infinity s | S754_finite s _ _ => s
  | S754_nan => false
  end.

(** The data really is a double: mantissa and exponent are in range. *)
Definition valid (x : float) : bool := valid_binary prec emax x.

(** The part of validity the sign arguments below rest on: the exponent of
    a finite number is at least [emin = -1074]. *)
Definition exp_ok (x : float) : Prop :=
  match x with
  | S754_finite _ _ e => emin prec emax <= e
  | _ => True
  end.

(** Position of a number in the order of the extended real line, as a
    lexicographic key: class, then exponent, then mantissa (both negated for
    negative numbers). The two zeros share a key. *)
Definition key (x : float) : Z * Z * Z :=
  match x with
  | S754_nan => (0, 0, 0)
  | S754_zero _ => (0, 0, 0)
  | S754_infinity true => (-2, 0, 0)
  | S754_infinity false => (2, 0, 0)
  | S754_finite true m e => (-1, - e, - Zpos m)
  | S754_finite false m e => (1, e, Zpos m)
  end.

Definition lex_le (a b : Z * Z * Z) : Prop :=
  let '(a1, a2, a3) := a in
  let '(b1, b2, b3) := b in
  a1 < b1 \/ (a1 = b1 /\ (a2 < b2 \/ (a2 = b2 /\ a3 <= b3))).

Definition lex_lt (a b : Z * Z * Z) : Prop :=
  let '(a1, a2, a3) := a in
  let '(b1, b2, b3) := b in
  a1 < b1 \/ (a1 = b1 /\ (a2 < b2 \/ (a2 = b2 /\ a3 < b3))).

(** Strictly positive: a positive finite number or [+inf]. *)
Definition pos (x : float) : Prop :=
  match x with
  | S754_finite false _ _ | S754_infinity false => True
  | _ => False
  end.

(** Strictly negative: a negative finite number or [-inf]. *)
Definition neg (x : float) : Prop :=
  match x with
  | S754_finite true _ _ | S754_infinity true => True
  | _ => False
  end.

(** ** The order *)

Lemma compare_cont_spec (m1 m2 : positive) :
  CompareSpec (Zpos m1 = Zpos m2) (Zpos m1 < Zpos m2) (Zpos m2 < Zpos m1)
              (Pos.compare_cont Eq m1 m2).
Proof.
  change (Pos.compare_cont Eq m1 m2) with (Pos.compare m1 m2).
  destruct (Pos.compare_spec m1 m2); constructor; subst; auto; lia.
Qed.

Ltac order_case :=
  split;
  [ let H := fresh in
    intro H; try discriminate H; repeat split; try reflexivity; lia
  | let H := fresh in
    intro H; destruct H as (? & ? & ?);
    try discriminate; try reflexivity; lia ].

Lemma leb_spec (x y : float) :
  leb x y = true <->
  is_nan x = false /\ is_nan y = false /\ lex_le (key x) (key y).
Proof.
  unfold leb, SFleb, SFcompare.
  destruct x as [[|]|[|]| |[|] m1 e1], y as [[|]|[|]| |[|] m2 e2];
    cbn -[Z.compare Pos.compare_cont]; try solve [order_case].
  all: destruct (Z.compare_spec e1 e2) as [He|He|He];
    cbn -[Pos.compare_cont]; try solve [order_case].
  all: destruct (compare_cont_spec m1 m2) as [Hm|Hm|Hm]; cbn;
    solve [order_case].
Qed.

Lemma ltb_spec (x y : float) :
  ltb x y = true <->
  is_nan x = false /\ is_nan y = false /\ lex_lt (key x) (key y).
Proof.
  unfold ltb, SFltb, SFcompare.
  destruct x as [[|]|[|]| |[|] m1 e1], y as [[|]|[|]| |[|] m2 e2];
    cbn -[Z.compare Pos.compare_cont]; try solve [order_case].
  all: destruct (Z.compare_spec e1 e2) as [He|He|He];
    cbn -[Pos.compare_cont]; try solve [order_case].
  all: destruct (compare_cont_spec m1 m2) as [Hm|Hm|Hm]; cbn;
    solve [order_case].
Qed.

Lemma eqb_spec (x y : float) :
  eqb x y = true <->
  is_nan x = false /\ is_nan y = false /\ key x = key y.
Proof.
  unfold eqb, SFeqb, SFcompare.
  destruct x as [[|]|[|]| |[|] m1 e1], y as [[|]|[|]| |[|] m2 e2];
    cbn -[Z.compare Pos.compare_cont];
    try (split; [ try discriminate; intros _; repeat split; reflexivity
                | intros (? & ? & ?); try discriminate; reflexivity ]).
  all: destruct (Z.compare_spec e1 e2) as [He|He|He];
    cbn -[Pos.compare_cont];
    try (split; [ discriminate | intros (_ & _ & [= ? ?]); lia ]).
  all: destruct (compare_cont_spec m1 m2) as [Hm|Hm|Hm]; cbn;
    (split; [ try discriminate; intros _; repeat split; congruence
            | intros (_ & _ & [= ? ?]); try reflexivity; lia ]).
Qed.

Lemma lex_le_trans a b c : lex_le a b -> lex_le b c -> lex_le a c.
Proof.
  destruct a as [[a1 a2] a3], b as [[b1 b2] b3], c as [[c1 c2] c3].
  unfold lex_le. lia.
Qed.

Lemma lex_lt_le_trans a b c : lex_lt a b -> lex_le b c -> lex_lt a c.
Proof.
  destruct a as [[a1 a2] a3], b as [[b1 b2] b3], c as [[c1 c2] c3].
  unfold lex_le, lex_lt. lia.
Qed.

Lemma lex_lt_le a b : lex_lt a b -> lex_le a b.
Proof.
  destruct a as [[a1 a2] a3], b as [[b1 b2] b3]. unfold lex_le, lex_lt. lia.
Qed.

Lemma lex_le_total a b : lex_le a b \/ lex_lt b a.
Proof.
  destruct a as [[a1 a2] a3], b as [[b1 b2] b3]. unfold lex_le, lex_lt. lia.
Qed.

Lemma lex_le_refl a : lex_le a a.
Proof. destruct a as [[a1 a2] a3]. unfold lex_le. lia. Qed.

Lemma leb_trans x y z : leb x y = true -> leb y z = true -> leb x z = true.
Proof.
  rewrite !leb_spec. intros (? & ? & ?) (? & ? & ?).
  eauto using lex_le_trans.
Qed.

Lemma ltb_leb x y : ltb x y = true -> leb x y = true.
Proof.
  rewrite ltb_spec, leb_spec. intros (? & ? & ?). eauto using lex_lt_le.
Qed.

Lemma leb_refl x : is_nan x = false -> leb x x = true.
Proof. rewrite leb_spec. eauto using lex_le_refl. Qed.

Lemma leb_false_nan_or_gt x y :
  leb x y = false -> is_nan x = true \/ is_nan y = true \/ ltb y x = true.
Proof.
  intros H. destruct (is_nan x) eqn:Hx; [now left|].
  destruct (is_nan y) eqn:Hy; [now right; left|].
  right; right. apply ltb_spec. repeat split; auto.
  destruct (lex_le_total (key x) (key y)) as [Hle|Hlt]; [|exact Hlt].
  assert (leb x y = true) by (apply leb_spec; auto). congruence.
Qed.

Lemma leb_total x y :
  is_nan x = false -> is_nan y = false -> leb x y = true \/ leb y x = true.
Proof.
  intros Hx Hy. destruct (leb x y) eqn:H; [now left|].
  apply leb_false_nan_or_gt in H. destruct H as [H|[H|H]]; try congruence.
  right. now apply ltb_leb.
Qed.

Lemma leb_not_nan_l x y : leb x y = true -> is_nan x = false.
Proof. rewrite leb_spec. tauto. Qed.

Lemma leb_not_nan_r x y : leb x y = true -> is_nan y = false.
Proof. rewrite leb_spec. tauto. Qed.

(** [==] between floats is a congruence for the comparisons. *)
Lemma leb_eqb_r x y z : eqb y z = true -> leb x y = leb x z.
Proof.
  rewrite eqb_spec. intros (Hy & Hz & Hk).
  apply eq_true_iff_eq. rewrite !leb_spec, Hy, Hz, Hk. tauto.
Qed.

Lemma leb_eqb_l x y z : eqb x y = true -> leb x z = leb y z.
Proof.
  rewrite eqb_spec. intros (Hy & Hz & Hk).
  apply eq_true_iff_eq. rewrite !leb_spec, Hy, Hz, Hk. tauto.
Qed.

Lemma eqb_leb x y : eqb x y = true -> leb x y = true.
Proof.
  rewrite eqb_spec, leb_spec. intros (? & ? & Hk). rewrite Hk.
  eauto using lex_le_refl.
Qed.

Lemma eqb_sym x y : eqb x y = eqb y x.
Proof.
  apply eq_true_iff_eq. rewrite !eqb_spec. intuition congruence.
Qed.

Lemma eqb_trans x y z : eqb x y = true -> eqb y z = true -> eqb x z = true.
Proof. rewrite !eqb_spec. intuition congruence. Qed.

(** ** Rounding: sign, exponent range, absence of NaN *)

Lemma digits2_pos_bounds (p : positive) :
  2 ^ (Zpos (digits2_pos p) - 1) <= Zpos p < 2 ^ Zpos (digits2_pos p).
Proof.
  induction p as [p IH|p IH|]; cbn [digits2_pos].
  - rewrite Pos2Z.inj_succ.
    replace (Z.succ (Zpos (digits2_pos p)) - 1)
      with (Z.succ (Zpos (digits2_pos p) - 1)) by lia.
    rewrite !Z.pow_succ_r by lia. lia.
  - rewrite Pos2Z.inj_succ.
    replace (Z.succ (Zpos (digits2_pos p)) - 1)
      with (Z.succ (Zpos (digits2_pos p) - 1)) by lia.
    rewrite !Z.pow_succ_r by lia. lia.
  - cbn. lia.
Qed.

Lemma shr_1_m (mrs : shr_record) :
  0 <= shr_m mrs -> shr_m (shr_1 mrs) = shr_m mrs / 2.
Proof.
  destruct mrs as [m r s]. cbn [shr_m]. intros Hm.
  rewrite <- Z.div2_div.
  destruct m as [|[p|p|]|p]; try reflexivity; lia.
Qed.

Lemma iter_pos_shr_m (p : positive) :
  forall mrs, 0 <= shr_m mrs ->
    shr_m (iter_pos shr_1 p mrs) = shr_m mrs / 2 ^ Zpos p.
Proof.
  induction p as [p IH|p IH|]; intros mrs Hm; cbn [iter_pos].
  - assert (H1 : 0 <= shr_m (shr_1 mrs))
      by (rewrite shr_1_m by auto; apply Z.div_pos; lia).
    assert (H2 : 0 <= shr_m (iter_pos shr_1 p (shr_1 mrs)))
      by (rewrite IH by auto; apply Z.div_pos; lia).
    rewrite IH, IH, shr_1_m by auto.
    replace (Zpos p~1) with (1 + Zpos p + Zpos p) by lia.
    rewrite !Z.pow_add_r by lia. change (2 ^ 1) with 2.
    rewrite !Z.div_div by lia. f_equal; ring.
  - assert (H2 : 0 <= shr_m (iter_pos shr_1 p mrs))
      by (rewrite IH by auto; apply Z.div_pos; lia).
    rewrite IH, IH by auto.
    replace (Zpos p~0) with (Zpos p + Zpos p) by lia.
    rewrite !Z.pow_add_r by lia.
    rewrite !Z.div_div by lia. f_equal; ring.
  - rewrite shr_1_m by auto. reflexivity.
Qed.

Lemma shr_record_of_loc_m m l : shr_m (shr_record_of_loc m l) = m.
Proof. destruct l as [|[ | | ]]; reflexivity. Qed.

Lemma round_nearest_even_bounds m l :
  m <= round_nearest_even m l <= m + 1.
Proof.
  destruct l as [|[ | | ]]; cbn; try destruct (Z.even m); lia.
Qed.

(** Shifting to the format's exponent keeps a non-negative mantissa
    non-negative, whatever the exponent. *)
Lemma shr_fexp_nonneg m e l mrs e' :
  0 <= m -> shr_fexp prec emax m e l = (mrs, e') -> 0 <= shr_m mrs.
Proof.
  unfold shr_fexp, shr. intros Hm.
  destruct (fexp prec emax (Zdigits2 m + e) - e) as [|p|p];
    intros [= <- <-]; rewrite ?iter_pos_shr_m;
    rewrite ?shr_record_of_loc_m; auto.
  apply Z.div_pos; lia.
Qed.

(** From the subnormal range upwards, it keeps a positive mantissa
    positive: at most [digits - 53] bits are dropped. *)
Lemma shr_fexp_pos m e l mrs e' :
  0 < m -> emin prec emax <= e ->
  shr_fexp prec emax m e l = (mrs, e') ->
  0 < shr_m mrs /\ emin prec emax <= e'.
Proof.
  unfold shr_fexp, shr. intros Hm He.
  destruct m as [|q|q]; try lia. cbn [Zdigits2].
  pose proof (digits2_pos_bounds q) as [Hlo _].
  set (d := Zpos (digits2_pos q)) in *.
  assert (Hd : 1 <= d) by (subst d; lia).
  destruct (fexp prec emax (d + e) - e) as [|p|p] eqn:Hk;
    intros [= <- <-]; rewrite ?iter_pos_shr_m;
    rewrite ?shr_record_of_loc_m; try lia.
  unfold fexp, emin, prec, emax in *.
  assert (Hp : Zpos p = d - 53) by lia.
  split; [|lia].
  apply Z.div_str_pos. split; [lia|].
  apply Z.le_trans with (2 ^ (d - 1)); [|exact Hlo].
  apply Z.pow_le_mono_r; lia.
Qed.

Lemma binary_round_aux_not_nan sx m e l :
  0 <= m -> is_nan (binary_round_aux prec emax sx m e l) = false.
Proof.
  intros Hm. unfold binary_round_aux.
  destruct (shr_fexp prec emax m e l) as [mrs1 e1] eqn:H1.
  apply shr_fexp_nonneg in H1; auto.
  destruct (shr_fexp prec emax _ e1 loc_Exact) as [mrs2 e2] eqn:H2.
  apply shr_fexp_nonneg in H2;
    [|pose proof (round_nearest_even_bounds (shr_m mrs1)
                    (loc_of_shr_record mrs1)); lia].
  destruct (shr_m mrs2); try lia; [reflexivity|].
  destruct (e2 <=? emax - prec); reflexivity.
Qed.

Lemma binary_round_aux_pos sx m e l :
  0 < m -> emin prec emax <= e ->
  (exists m' e', binary_round_aux prec emax sx m e l = S754_finite sx m' e'
                 /\ emin prec emax <= e')
  \/ binary_round_aux prec emax sx m e l = S754_infinity sx.
Proof.
  intros Hm He. unfold binary_round_aux.
  destruct (shr_fexp prec emax m e l) as [mrs1 e1] eqn:H1.
  apply shr_fexp_pos in H1; auto. destruct H1 as [H1 He1].
  destruct (shr_fexp prec emax _ e1 loc_Exact) as [mrs2 e2] eqn:H2.
  apply shr_fexp_pos in H2; auto;
    [|pose proof (round_nearest_even_bounds (shr_m mrs1)
                    (loc_of_shr_record mrs1)); lia].
  destruct H2 as [H2 He2].
  destruct (shr_m mrs2) as [|q|q]; try lia.
  destruct (e2 <=? emax - prec); [left; eauto | right; reflexivity].
Qed.

Lemma shl_align_exp mx ex ex' :
  Z.min ex ex' <= snd (shl_align mx ex ex').
Proof. unfold shl_align. destruct (ex' - ex) eqn:H; cbn; lia. Qed.

Lemma fexp_ge_emin e : emin prec emax <= fexp prec emax e.
Proof. unfold fexp. lia. Qed.

Lemma binary_round_not_nan sx mx ex :
  is_nan (binary_round prec emax sx mx ex) = false.
Proof.
  unfold binary_round. destruct (shl_align _ _ _) as [mz ez].
  apply binary_round_aux_not_nan. lia.
Qed.

Lemma binary_round_pos sx mx ex :
  emin prec emax <= ex ->
  (exists m' e', binary_round prec emax sx mx ex = S754_finite sx m' e'
                 /\ emin prec emax <= e')
  \/ binary_round prec emax sx mx ex = S754_infinity sx.
Proof.
  intros He. unfold binary_round.
  pose proof (shl_align_exp mx ex
                (fexp prec emax (Zpos (digits2_pos mx) + ex))) as Hs.
  pose proof (fexp_ge_emin (Zpos (digits2_pos mx) + ex)).
  destruct (shl_align _ _ _) as [mz ez]. cbn [snd] in Hs.
  apply binary_round_aux_pos; lia.
Qed.

Lemma binary_normalize_not_nan z e :
  is_nan (binary_normalize prec emax z e false) = false.
Proof.
  destruct z; cbn [binary_normalize]; auto using binary_round_not_nan.
Qed.

(** ** Signs *)

Lemma pos_iff x : pos x <-> ltb zero x = true.
Proof.
  destruct x as [[|]|[|]| |[|] m e]; cbn; split; intros H;
    try exact I; try reflexivity; try discriminate; try contradiction.
Qed.

Lemma neg_iff x : neg x <-> ltb x zero = true.
Proof.
  destruct x as [[|]|[|]| |[|] m e]; cbn; split; intros H;
    try exact I; try reflexivity; try discriminate; try contradiction.
Qed.

Lemma pos_not_le_zero x : pos x -> leb x zero = false.
Proof.
  destruct x as [[|]|[|]| |[|] m e]; cbn; intros H;
    try contradiction; reflexivity.
Qed.

Lemma binary_normalize_pos z e :
  0 < z -> emin prec emax <= e ->
  pos (binary_normalize prec emax z e false) /\
  exp_ok (binary_normalize prec emax z e false).
Proof.
  intros Hz He. destruct z as [|p|p]; try lia. cbn [binary_normalize].
  destruct (binary_round_pos false p e He) as [(m' & e' & -> & He')| ->];
    cbn; auto.
Qed.

Lemma binary_normalize_neg z e :
  z < 0 -> emin prec emax <= e ->
  neg (binary_normalize prec emax z e false) /\
  exp_ok (binary_normalize prec emax z e false).
Proof.
  intros Hz He. destruct z as [|p|p]; try lia. cbn [binary_normalize].
  destruct (binary_round_pos true p e He) as [(m' & e' & -> & He')| ->];
    cbn; auto.
Qed.

Lemma valid_exp_ok x : valid x = true -> exp_ok x.
Proof.
  destruct x as [s|s| |s m e]; unfold valid; cbn [valid_binary exp_ok]; auto.
  unfold bounded, canonical_mantissa. intros H.
  apply andb_prop in H. destruct H as [H _]. apply Z.eqb_eq in H.
  pose proof (fexp_ge_emin (Zpos (digits2_pos m) + e)). lia.
Qed.

(** The sum of two positive numbers is positive: it neither cancels nor
    rounds to zero. *)
Lemma add_pos x y :
  pos x -> pos y -> exp_ok x -> exp_ok y ->
  pos (add x y) /\ exp_ok (add x y).
Proof.
  destruct x as [[|]|[|]| |[|] mx ex], y as [[|]|[|]| |[|] my ey];
    cbn [pos]; try contradiction; intros _ _ Hx Hy; cbn [exp_ok] in Hx, Hy;
    try (cbn; tauto).
  unfold add, SFadd. cbn [cond_Zopp].
  apply binary_normalize_pos; lia.
Qed.

Lemma add_neg x y :
  neg x -> neg y -> exp_ok x -> exp_ok y ->
  neg (add x y) /\ exp_ok (add x y).
Proof.
  destruct x as [[|]|[|]| |[|] mx ex], y as [[|]|[|]| |[|] my ey];
    cbn [neg]; try contradiction; intros _ _ Hx Hy; cbn [exp_ok] in Hx, Hy;
    try (cbn; tauto).
  unfold add, SFadd. cbn [cond_Zopp].
  apply binary_normalize_neg; lia.
Qed.

(** Finite operands never add or subtract to NaN (they may overflow to an
    infinity). *)
Lemma add_finite_not_nan x y :
  is_finite x = true -> is_finite y = true -> is_nan (add x y) = false.
Proof.
  destruct x as [[|]|[|]| |sx mx ex], y as [[|]|[|]| |sy my ey];
    cbn; try discriminate; intros _ _; try reflexivity.
  apply binary_normalize_not_nan.
Qed.

Lemma sub_finite_not_nan x y :
  is_finite x = true -> is_finite y = true -> is_nan (sub x y) = false.
Proof.
  destruct x as [[|]|[|]| |sx mx ex], y as [[|]|[|]| |sy my ey];
    cbn; try discriminate; intros _ _; try reflexivity.
  apply binary_normalize_not_nan.
Qed.

(** [x - x] is [+0.0] for every finite [x]. *)
Lemma sub_self x : is_finite x = true -> sub x x = zero.
Proof.
  destruct x as [[|]|[|]| |sx mx ex]; cbn; try discriminate;
    intros _; try reflexivity.
  unfold sub, SFsub. rewrite Z.sub_diag. reflexivity.
Qed.

(** A zero scale annihilates a finite draw. *)
Lemma mul_zero_l s z :
  is_finite z = true -> mul (S754_zero s) z = S754_zero (xorb s (signbit z)).
Proof. destruct z; cbn; try discriminate; reflexivity. Qed.

Lemma mul_zero_r s z :
  is_finite z = true -> mul z (S754_zero s) = S754_zero (xorb (signbit z) s).
Proof. destruct z; cbn; try discriminate; reflexivity. Qed.

(** Adding a zero of either sign to a non-zero number gives it back. *)
Lemma add_zero_r x s : pos x \/ neg x -> add x (S754_zero s) = x.
Proof.
  destruct x as [[|]|[|]| |[|] mx ex]; cbn; intros [H|H];
    try contradiction; reflexivity.
Qed.

Lemma sub_zero_r x s : pos x \/ neg x -> sub x (S754_zero s) = x.
Proof.
  destruct x as [[|]|[|]| |[|] mx ex]; cbn; intros [H|H];
    try contradiction; reflexivity.
Qed.

(** Integers convert to numbers of their sign. *)
Lemma of_Z_pos z : 0 < z -> pos (of_Z z) /\ exp_ok (of_Z z).
Proof.
  intros Hz. apply binary_normalize_pos; auto. unfold emin, prec, emax. lia.
Qed.

Lemma div_zero_pos y : pos y -> div zero y = zero.
Proof.
  destruct y as [[|]|[|]| |[|] my ey]; cbn; intros H;
    try contradiction; reflexivity.
Qed.

Lemma sqrt_zero s : sqrt (S754_zero s) = S754_zero s.
Proof. reflexivity. Qed.

(** The square root of a positive number is positive. *)
Lemma sqrt_pos x : pos x -> exp_ok x -> pos (sqrt x).
Proof.
  destruct x as [[|]|[|]| |[|] mx ex]; cbn [pos exp_ok];
    try contradiction; intros _ He; [exact I|].
  unfold sqrt, SFsqrt, SFsqrt_core_binary.
  set (d := Zdigits2 (Zpos mx)).
  set (e' := Z.min (fexp prec emax (Z.div2 (d + ex + 1))) (Z.div2 ex)).
  assert (He' : emin prec emax <= e' /\ 2 * e' <= ex).
  { subst e'. pose proof (fexp_ge_emin (Z.div2 (d + ex + 1))).
    rewrite Z.div2_div in *.
    assert (emin prec emax <= ex / 2).
    { apply Z.div_le_lower_bound; [lia|].
      unfold emin, prec, emax in *. lia. }
    pose proof (Z.mul_div_le ex 2). lia. }
  set (s := ex - 2 * e').
  set (m' := match s with
             | Z0 => Zpos mx
             | Zpos _ => Z.shiftl (Zpos mx) s
             | Zneg _ => 0
             end).
  assert (Hm' : 0 < m').
  { subst m'. destruct s eqn:Hs; try lia.
    rewrite Z.shiftl_mul_pow2 by lia.
    apply Z.mul_pos_pos; [lia|]. apply Z.pow_pos_nonneg; lia. }
  pose proof (Z.sqrtrem_spec m' ltac:(lia)) as Hsq.
  destruct (Z.sqrtrem m') as [q r].
  assert (Hq : 0 < q) by nia.
  destruct (binary_round_aux_pos false q e'
              (if r =? 0 then loc_Exact
               else loc_Inexact (if r <=? q then Lt else Gt)) Hq (proj1 He'))
    as [(m2 & e2 & -> & _)| ->]; exact I.
Qed.

(** ** Equal numbers, zeros *)

Lemma eqb_refl x : is_nan x = false -> eqb x x = true.
Proof. rewrite eqb_spec. auto. Qed.

Lemma eqb_finite a x :
  eqb a x = true -> is_finite x = true -> is_finite a = true.
Proof.
  rewrite eqb_spec. intros (Ha & _ & Hk).
  destruct a as [[|]|[|]| |[|] ma ea], x as [[|]|[|]| |[|] mx ex];
    cbn in *; congruence.
Qed.

(** Equal finite numbers subtract to a zero. *)
Lemma eqb_sub_zero a x :
  is_finite x = true -> eqb a x = true -> exists s, sub a x = S754_zero s.
Proof.
  intros Hx H. apply eqb_spec in H. destruct H as (Ha & _ & Hk).
  destruct a as [sa|[|]| |[|] ma ea], x as [sx|[|]| |[|] mx ex];
    cbn in Hx, Ha, Hk; try discriminate.
  - destruct sa, sx; cbn; eauto.
  - injection Hk as He Hm.
    assert (ea = ex) by lia. assert (ma = mx) by lia. subst. exists false.
    apply (sub_self (S754_finite true mx ex)). reflexivity.
  - injection Hk as He Hm.
    assert (ea = ex) by lia. assert (ma = mx) by lia. subst. exists false.
    apply (sub_self (S754_finite false mx ex)). reflexivity.
Qed.

Lemma sub_zero_eqb a s : is_finite a = true -> eqb (sub a (S754_zero s)) a = true.
Proof.
  destruct a as [[|]|[|]| |sa ma ea]; cbn [is_finite]; try discriminate;
    intros _; try (destruct s; reflexivity).
  change (sub (S754_finite sa ma ea) (S754_zero s))
    with (S754_finite sa ma ea).
  now apply eqb_refl.
Qed.

Lemma add_zero_eqb a s : is_finite a = true -> eqb (add a (S754_zero s)) a = true.
Proof.
  destruct a as [[|]|[|]| |sa ma ea]; cbn [is_finite]; try discriminate;
    intros _; try (destruct s; reflexivity).
  change (add (S754_finite sa ma ea) (S754_zero s))
    with (S754_finite sa ma ea).
  now apply eqb_refl.
Qed.

Lemma mul_zero_zero s : mul (S754_zero s) (S754_zero s) = zero.
Proof. destruct s; reflexivity. Qed.

(** Adding a finite number to a number gives a number. *)
Lemma add_finite_l_not_nan a c :
  is_finite a = true -> is_nan c = false -> is_nan (add a c) = false.
Proof.
  destruct a as [[|]|[|]| |sa ma ea], c as [[|]|[|]| |sc mc ec];
    cbn; try discriminate; intros _ _; try reflexivity.
  apply binary_normalize_not_nan.
Qed.

Lemma add_finite_r_not_nan c a :
  is_nan c = false -> is_finite a = true -> is_nan (add c a) = false.
Proof.
  destruct a as [[|]|[|]| |sa ma ea], c as [[|]|[|]| |sc mc ec];
    cbn; try discriminate; intros _ _; try reflexivity.
  apply binary_normalize_not_nan.
Qed.

Lemma pos_not_nan x : pos x -> is_nan x = false.
Proof. destruct x as [[|]|[|]| |[|] m e]; cbn; tauto. Qed.

Lemma is_finite_not_nan (x : float) : is_finite x = true -> is_nan x = false.
Proof. destruct x; cbn; congruence. Qed.

(** ** More on the order *)

Lemma lex_le_antisym a b : lex_le a b -> lex_le b a -> a = b.
Proof.
  destruct a as [[a1 a2] a3], b as [[b1 b2] b3]. cbn. intros H1 H2.
  assert (a1 = b1) by lia. assert (a2 = b2) by lia. assert (a3 = b3) by lia.
  congruence.
Qed.

Lemma leb_antisym x y : leb x y = true -> leb y x = true -> eqb x y = true.
Proof.
  rewrite !leb_spec, eqb_spec. intros (Hx & Hy & H1) (_ & _ & H2).
  auto using lex_le_antisym.
Qed.

Lemma ltb_not_leb x y : ltb x y = true -> leb y x = false.
Proof.
  rewrite ltb_spec. intros (Hx & Hy & Hlt).
  destruct (leb y x) eqn:H; [|reflexivity].
  apply leb_spec in H. destruct H as (_ & _ & Hle).
  destruct (key x) as [[a1 a2] a3], (key y) as [[b1 b2] b3].
  cbn in Hlt, Hle. lia.
Qed.

Lemma leb_ltb_trans x y z : leb x y = true -> ltb y z = true -> ltb x z = true.
Proof.
  rewrite leb_spec, !ltb_spec. intros (Hx & Hy & H1) (_ & Hz & H2).
  repeat split; auto.
  destruct (key x) as [[a1 a2] a3], (key y) as [[b1 b2] b3],
    (key z) as [[c1 c2] c3].
  cbn in *. lia.
Qed.

Lemma ltb_leb_trans x y z : ltb x y = true -> leb y z = true -> ltb x z = true.
Proof.
  rewrite leb_spec, !ltb_spec. intros (Hx & Hy & H1) (_ & Hz & H2).
  repeat split; auto.
  destruct (key x) as [[a1 a2] a3], (key y) as [[b1 b2] b3],
    (key z) as [[c1 c2] c3].
  cbn in *. lia.
Qed.

Lemma ltb_false_nan_or_ge x y :
  ltb x y = false -> is_nan x = true \/ is_nan y = true \/ leb y x = true.
Proof.
  intros H. destruct (is_nan x) eqn:Hx; [now left|].
  destruct (is_nan y) eqn:Hy; [now right; left|].
  right; right. destruct (leb y x) eqn:Hle; [reflexivity|].
  apply leb_false_nan_or_gt in Hle. destruct Hle as [?|[?|?]]; congruence.
Qed.

(** ** Signs of sums, squares and quotients *)

Lemma binary_round_aux_signbit m e l :
  signbit (binary_round_aux prec emax false m e l) = false.
Proof.
  unfold binary_round_aux.
  destruct (shr_fexp prec emax m e l) as [mrs1 e1].
  destruct (shr_fexp prec emax _ e1 loc_Exact) as [mrs2 e2].
  destruct (shr_m mrs2); try reflexivity.
  destruct (e2 <=? emax - prec); reflexivity.
Qed.

Lemma binary_normalize_signbit z e :
  0 <= z -> signbit (binary_normalize prec emax z e false) = false.
Proof.
  intros Hz. destruct z as [|p|p]; [reflexivity| |lia].
  cbn [binary_normalize]. unfold binary_round.
  destruct (shl_align _ _ _) as [mz ez].
  apply binary_round_aux_signbit.
Qed.

Lemma add_signbit x y :
  signbit x = false -> signbit y = false -> signbit (add x y) = false.
Proof.
  destruct x as [sx|sx| |sx mx ex], y as [sy|sy| |sy my ey];
    cbn [signbit]; intros Hx Hy; subst; try reflexivity.
  unfold add, SFadd. cbn [cond_Zopp]. apply binary_normalize_signbit. lia.
Qed.

Lemma mul_self_signbit d : signbit (mul d d) = false.
Proof.
  destruct d as [s|s| |s m e]; try reflexivity;
    try (destruct s; reflexivity).
  destruct s; unfold mul, SFmul; cbn [xorb]; apply binary_round_aux_signbit.
Qed.

Lemma div_signbit x y :
  signbit x = false -> pos y -> signbit (div x y) = false.
Proof.
  destruct x as [sx|sx| |sx mx ex], y as [[|]|[|]| |[|] my ey];
    cbn [signbit pos]; try contradiction; intros Hx _; subst;
    try reflexivity.
  unfold div, SFdiv. cbn [xorb].
  destruct (SFdiv_core_binary prec emax (Zpos mx) ex (Zpos my) ey)
    as [[mz ez] lz].
  apply binary_round_aux_signbit.
Qed.

Lemma signbit_not_negative_zero x : signbit x = false -> x <> S754_zero true.
Proof. intros H ->. discriminate. Qed.

(** ** Zeros at the start of a sum, and squares of differences *)

Lemma add_zero_l_signbit s x :
  signbit x = false -> signbit (add (S754_zero s) x) = false.
Proof.
  destruct x as [[|]|[|]| |[|] m e], s; cbn; intros H;
    try reflexivity; try discriminate.
Qed.

Lemma add_zero_l_zero s : add (S754_zero s) zero = zero.
Proof. destruct s; reflexivity. Qed.

(** Two numbers that differ at most in their sign. *)
Definition same_magnitude (x y : float) : Prop :=
  match x, y with
  | S754_zero _, S754_zero _ => True
  | S754_infinity _, S754_infinity _ => True
  | S754_nan, S754_nan => True
  | S754_finite _ m e, S754_finite _ m' e' => m = m' /\ e = e'
  | _, _ => False
  end.

Lemma mul_self_same_magnitude x y :
  same_magnitude x y -> mul x x = mul y y.
Proof.
  destruct x as [[|]|[|]| |[|] m e], y as [[|]|[|]| |[|] m' e'];
    cbn [same_magnitude]; intros H; try contradiction; try reflexivity;
    destruct H as [-> ->]; reflexivity.
Qed.

Lemma binary_round_aux_same_magnitude m e l :
  same_magnitude (binary_round_aux prec emax false m e l)
                 (binary_round_aux prec emax true m e l).
Proof.
  unfold binary_round_aux.
  destruct (shr_fexp prec emax m e l) as [mrs' e'].
  destruct (shr_fexp prec emax _ e' loc_Exact) as [mrs'' e''].
  destruct (shr_m mrs''); cbn; auto.
  destruct (e'' <=? 971); cbn; auto.
Qed.

Lemma same_magnitude_sym x y : same_magnitude x y -> same_magnitude y x.
Proof.
  destruct x as [[|]|[|]| |[|] m e], y as [[|]|[|]| |[|] m' e'];
    cbn; intuition congruence.
Qed.

Lemma binary_normalize_opp_same_magnitude z e :
  same_magnitude (binary_normalize prec emax z e false)
                 (binary_normalize prec emax (- z) e false).
Proof.
  destruct z as [|p|p]; cbn [Z.opp]; unfold binary_normalize, binary_round.
  - exact I.
  - destruct (shl_align _ _ _). apply binary_round_aux_same_magnitude.
  - destruct (shl_align _ _ _).
    apply same_magnitude_sym, binary_round_aux_same_magnitude.
Qed.

(** A difference taken the other way round has the same square. *)
Lemma sub_same_magnitude x y : same_magnitude (sub x y) (sub y x).
Proof.
  destruct x as [[|]|[|]| |sx mx ex], y as [[|]|[|]| |sy my ey];
    try (cbn; auto; fail);
    try (destruct sx; cbn; auto; fail);
    try (destruct sy; cbn; auto; fail).
  unfold sub, SFsub. rewrite (Z.min_comm ey ex).
  match goal with
  | |- same_magnitude (binary_normalize _ _ (?a - ?b) _ _) _ =>
      replace (b - a) with (- (a - b)) by lia
  end.
  apply binary_normalize_opp_same_magnitude.
Qed.

Lemma square_sub_sym x y : mul (sub x y) (sub x y) = mul (sub y x) (sub y x).
Proof. apply mul_self_same_magnitude, sub_same_magnitude. Qed.

End F64.

(* ================================================================== *)
(** * Python and NumPy values *)
(* ================================================================== *)

(** Exceptions the embedded code can raise. *)
Inductive exn : Type :=
| KeyError (key : string)
| ValueError (msg : string).

Inductive outcome (A : Type) : Type :=
| Ok (a : A)
| Raise (e : exn).

Arguments Ok {A} a.
Arguments Raise {A} e.

Definition is_ok {A : Type} (o : outcome A) : bool :=
  match o with Ok _ => true | Raise _ => false end.

Definition obind {A B : Type} (o : outcome A) (k : A -> outcome B)
  : outcome B :=
  match o with Ok a => k a | Raise e => Raise e end.

(** Exceptions of the interpreter itself, met by the functions that work
    on plain Python values: an unbound name, a float division by zero, a
    float result out of range. *)
Inductive fault : Type :=
| NameError (name : string)
| ZeroDivisionError (msg : string)
| OverflowError (msg : string).

Inductive attempt (A : Type) : Type :=
| Returns (a : A)
| Raises (e : fault).

Arguments Returns {A} a.
Arguments Raises {A} e.

Definition abind {A B : Type} (o : attempt A) (k : A -> attempt B)
  : attempt B :=
  match o with Returns a => k a | Raises e => Raises e end.

(** ** Quotients of counts

    [np.sum(mask) / len(paths)] divides a NumPy integer by a Python int:
    the result is the double nearest to the quotient, [nan] for [0 / 0]
    and [inf] for a positive count over zero, without an exception. Both
    operands are array sizes, far below [2^53], so the rounding of the
    quotient moves neither [0] nor [1] nor the order of two quotients; the
    model keeps the quotient itself, in lowest terms. *)
Module Prob.

Inductive prob : Type :=
| PNaN
| PInf
| PVal (q : Q).

Definition true_divide (count total : nat) : prob :=
  match total, count with
  | O, O => PNaN
  | O, S _ => PInf
  | S _, _ => PVal (Qred (Z.of_nat count # Pos.of_nat total))
  end.

(** Python's [>=] on two such results: false as soon as one is NaN. *)
Definition pgeb (p q : prob) : bool :=
  match p, q with
  | PVal a, PVal b => Qle_bool b a
  | PInf, PVal _ | PInf, PInf => true
  | _, _ => false
  end.

Definition in_unit_interval (p : prob) : Prop :=
  match p with
  | PVal q => (0 <= q /\ q <= 1)%Q
  | _ => False
  end.

Lemma true_divide_bounds (count total : nat) :
  (count <= total)%nat -> (1 <= total)%nat ->
  in_unit_interval (true_divide count total).
Proof.
  intros Hc Ht. destruct total as [|t]; [lia|].
  cbn [true_divide in_unit_interval].
  rewrite Qred_correct. unfold Qle; cbn [Qnum Qden].
  lia.
Qed.

Lemma true_divide_zero (total : nat) :
  (1 <= total)%nat -> true_divide 0 total = PVal 0.
Proof.
  intros Ht. destruct total as [|t]; [lia|]. reflexivity.
Qed.

Lemma true_divide_all (total : nat) :
  (1 <= total)%nat -> true_divide total total = PVal 1.
Proof.
  intros Ht. destruct total as [|t]; [lia|]. cbn [true_divide].
  f_equal. change 1%Q with (Qred 1). apply Qred_complete.
  unfold Qeq; cbn [Qnum Qden]. lia.
Qed.

Lemma true_divide_mono (c1 c2 total : nat) :
  (c2 <= c1)%nat -> (1 <= total)%nat ->
  pgeb (true_divide c1 total) (true_divide c2 total) = true.
Proof.
  intros Hc Ht. destruct total as [|t]; [lia|].
  cbn [true_divide pgeb]. apply Qle_bool_iff.
  rewrite !Qred_correct. unfold Qle; cbn [Qnum Qden].
  apply Z.mul_le_mono_nonneg_r; lia.
Qed.

End Prob.

(** ** Dictionaries

    A Python [dict] keeps its keys in insertion order; assigning to a key
    that is present overwrites the value and keeps the first key object. *)
Section Dict.

Context {K V : Type}.
Variable keq : K -> K -> bool.

Fixpoint dict_set (k : K) (v : V) (d : list (K * V)) : list (K * V) :=
  match d with
  | [] => [(k, v)]
  | (k', v') :: t =>
      if keq k' k then (k', v) :: t else (k', v') :: dict_set k v t
  end.

Fixpoint dict_get (k : K) (d : list (K * V)) : option V :=
  match d with
  | [] => None
  | (k', v') :: t => if keq k' k then Some v' else dict_get k t
  end.

End Dict.

(** ** NumPy arrays *)
Module Np.
Import F64.

(** A two-dimensional [float64] array: its shape and its rows. *)
Record ndarray : Type := mk_ndarray {
  nrows : nat;
  ncols : nat;
  rows : list (list float)
}.

Definition well_shaped (a : ndarray) : Prop :=
  length (rows a) = nrows a /\
  Forall (fun r => length r = ncols a) (rows a).

(** The scalar kernels of [np.minimum] and [np.maximum]: a NaN on either
    side comes out. *)
Definition minimum (a b : float) : float :=
  if leb a b || is_nan a then a else b.

Definition maximum (a b : float) : float :=
  if geb a b || is_nan a then a else b.

(** [ufunc.reduce] along a row: the first element, then the kernel with
    each following element. *)
Definition reduce (f : float -> float -> float) (r : list float) : float :=
  match r with
  | [] => nan
  | x :: t => fold_left f t x
  end.

(** [ufunc.accumulate] along a row: [out[0] = a[0]],
    [out[i] = f(out[i-1], a[i])]. *)
Fixpoint accumulate_from (f : float -> float -> float) (acc : float)
  (r : list float) : list float :=
  match r with
  | [] => []
  | x :: t => let acc' := f acc x in acc' :: accumulate_from f acc' t
  end.

Definition accumulate (f : float -> float -> float) (r : list float)
  : list float :=
  match r with
  | [] => []
  | x :: t => x :: accumulate_from f x t
  end.

Definition map_rows (g : list float -> list float) (cols : nat)
  (a : ndarray) : ndarray :=
  mk_ndarray (nrows a) cols (map g (rows a)).

(** [np.cumsum(a, axis=1)] and [np.maximum.accumulate(a, axis=1)]. *)
Definition cumsum_axis1 (a : ndarray) : ndarray :=
  map_rows (accumulate add) (ncols a) a.

Definition maximum_accumulate_axis1 (a : ndarray) : ndarray :=
  map_rows (accumulate maximum) (ncols a) a.

(** A reduction over an axis of length zero has no value: the message
    names the kernel. *)
Definition zero_size (ufunc : string) : exn :=
  ValueError ("zero-size array to reduction operation " ++ ufunc ++
              " which has no identity").

(** [np.min(a, axis=1)] and [np.max(a, axis=1)]. *)
Definition amin_axis1 (a : ndarray) : outcome (list float) :=
  if Nat.eqb (ncols a) 0 then Raise (zero_size "minimum")
  else Ok (map (reduce minimum) (rows a)).

Definition amax_axis1 (a : ndarray) : outcome (list float) :=
  if Nat.eqb (ncols a) 0 then Raise (zero_size "maximum")
  else Ok (map (reduce maximum) (rows a)).

Fixpoint zip_with {A B C : Type} (f : A -> B -> C) (l : list A)
  (l' : list B) : list C :=
  match l, l' with
  | x :: t, y :: t' => f x y :: zip_with f t t'
  | _, _ => []
  end.

(** [a - b] for two arrays of one shape. *)
Definition subtract (a b : ndarray) : ndarray :=
  mk_ndarray (nrows a) (ncols a) (zip_with (zip_with sub) (rows a) (rows b)).

(** [x + a] for a scalar [x]. *)
Definition scalar_add (x : float) (a : ndarray) : ndarray :=
  map_rows (map (add x)) (ncols a) a.

(** [np.full(n, x)]. *)
Definition full (n : nat) (x : float) : list float := repeat x n.

(** [np.column_stack([col, a])] for a one-dimensional [col] as long as [a]
    has rows. *)
Definition column_stack (col : list float) (a : ndarray) : ndarray :=
  mk_ndarray (nrows a) (S (ncols a)) (zip_with cons col (rows a)).

(** [np.sum(mask)] for a boolean array: the number of [True]. *)
Definition count_true (mask : list bool) : nat :=
  length (filter (fun b => b) mask).

(** [a[:, -1]]: the last column. *)
Definition last_column (a : ndarray) : outcome (list float) :=
  if Nat.eqb (ncols a) 0
  then Raise (ValueError "index -1 is out of bounds for axis 1 with size 0")
  else Ok (map (fun r => last r nan) (rows a)).

(** ** Sums

    [a.sum()] of a one-dimensional [float64] array is [np.add.reduce]: the
    start value plus the pairwise sum of the array. The pairwise sum adds
    fewer than eight values from left to right; up to 128 values it keeps
    eight running sums, one per position modulo eight, adds them as
    [((r0 + r1) + (r2 + r3)) + ((r4 + r5) + (r6 + r7))] and then the values
    left over one by one; a longer array is cut in two at a multiple of
    eight and the sums of the halves are added.

    The start value is a zero, and so is the value the loop over fewer
    than eight values begins with: [+0.0] in older releases of NumPy,
    [-0.0] in newer ones, where a sum of negative zeros keeps its sign. The
    sign is a parameter of the model. An empty array sums to [+0.0]. *)
Section Sum.

Variable start_sign : bool.

Definition sum_start : float := S754_zero start_sign.

(** The eight running sums [r[0]], ..., [r[7]]. *)
Definition acc8 : Type :=
  (float * float * float * float * float * float * float * float)%type.

(** The unrolled loop: eight values at a time while eight are left. *)
Fixpoint unrolled_loop (r : acc8) (a : list float) : acc8 * list float :=
  match a with
  | a0 :: a1 :: a2 :: a3 :: a4 :: a5 :: a6 :: a7 :: rest =>
      let '(r0, r1, r2, r3, r4, r5, r6, r7) := r in
      unrolled_loop (add r0 a0, add r1 a1, add r2 a2, add r3 a3,
                     add r4 a4, add r5 a5, add r6 a6, add r7 a7) rest
  | _ => (r, a)
  end.

(** An array of at most 128 values. *)
Definition pairwise_block (a : list float) : float :=
  match a with
  | a0 :: a1 :: a2 :: a3 :: a4 :: a5 :: a6 :: a7 :: rest =>
      let '((r0, r1, r2, r3, r4, r5, r6, r7), rest') :=
        unrolled_loop (a0, a1, a2, a3, a4, a5, a6, a7) rest in
      fold_left add rest'
        (add (add (add r0 r1) (add r2 r3)) (add (add r4 r5) (add r6 r7)))
  | _ => fold_left add a sum_start
  end.

(** Where an array of [n] values is cut: [n / 2] rounded down to a
    multiple of eight. *)
Definition split_point (n : nat) : nat := (n / 2 - (n / 2) mod 8)%nat.

(** The recursion carries fuel; the length of the array is enough
    ([pairwise_sum_fuel]), since both halves are shorter. *)
Fixpoint pairwise_sum (fuel : nat) (a : list float) : float :=
  match fuel with
  | S fuel' =>
      if (128 <? length a)%nat then
        let n2 := split_point (length a) in
        add (pairwise_sum fuel' (firstn n2 a))
            (pairwise_sum fuel' (skipn n2 a))
      else pairwise_block a
  | O => pairwise_block a
  end.

Definition pairwise (a : list float) : float := pairwise_sum (length a) a.

Definition add_reduce (a : list float) : float :=
  match a with
  | [] => zero
  | _ => add sum_start (pairwise a)
  end.

Lemma split_point_bounds (n : nat) :
  (128 < n)%nat -> (0 < split_point n < n)%nat.
Proof.
  intros Hn. unfold split_point.
  pose proof (Nat.div_mod_eq n 2) as H2.
  pose proof (Nat.mod_upper_bound n 2) as Hm2.
  pose proof (Nat.mod_upper_bound (n / 2) 8) as Hm8.
  lia.
Qed.

Lemma pairwise_sum_fuel :
  forall f1 f2 a, (length a <= f1)%nat -> (length a <= f2)%nat ->
    pairwise_sum f1 a = pairwise_sum f2 a.
Proof.
  induction f1 as [|f1 IH]; intros f2 a H1 H2.
  - destruct a; [|cbn in H1; lia]. destruct f2; reflexivity.
  - destruct f2 as [|f2].
    + destruct a; [|cbn in H2; lia]. reflexivity.
    + cbn [pairwise_sum].
      destruct (Nat.ltb_spec 128 (length a)) as [Hn|]; [|reflexivity].
      pose proof (split_point_bounds _ Hn).
      f_equal; apply IH; rewrite ?length_firstn, ?length_skipn; lia.
Qed.

(** The recursion of the library's routine. *)
Lemma pairwise_unfold (a : list float) :
  pairwise a =
  if (128 <? length a)%nat then
    add (pairwise (firstn (split_point (length a)) a))
        (pairwise (skipn (split_point (length a)) a))
  else pairwise_block a.
Proof.
  unfold pairwise. destruct a as [|x t] eqn:Ha; [reflexivity|].
  rewrite <- Ha. assert (Hl : length a = S (length t)) by now subst.
  rewrite Hl at 1. cbn [pairwise_sum].
  destruct (Nat.ltb_spec 128 (length a)) as [Hn|]; [|reflexivity].
  pose proof (split_point_bounds _ Hn).
  f_equal; apply pairwise_sum_fuel;
    rewrite ?length_firstn, ?length_skipn; lia.
Qed.

(** Fewer than eight values are added from left to right. *)
Lemma add_reduce_short (a : list float) :
  (1 <= length a < 8)%nat ->
  add_reduce a = add sum_start (fold_left add a sum_start).
Proof.
  intros Hn. unfold add_reduce. rewrite pairwise_unfold.
  destruct (Nat.ltb_spec 128 (length a)); [lia|].
  destruct a as [|x a]; [cbn in Hn; lia|]. f_equal.
  do 7 (destruct a as [|? a]; [reflexivity|]). cbn in Hn. lia.
Qed.

(** *** What every term has, the sum has

    for a property that sums keep and that the start value does not
    disturb. *)
Section Closed.

Variable P : float -> Prop.
Hypothesis P_add : forall x y, P x -> P y -> P (add x y).
Hypothesis P_start : forall x, P x -> P (add sum_start x).

Definition all8 (r : acc8) : Prop :=
  let '(r0, r1, r2, r3, r4, r5, r6, r7) := r in
  P r0 /\ P r1 /\ P r2 /\ P r3 /\ P r4 /\ P r5 /\ P r6 /\ P r7.

Lemma fold_add_closed (l : list float) :
  forall acc, P acc -> Forall P l -> P (fold_left add l acc).
Proof.
  induction l as [|x t IH]; intros acc Hacc Hl; [exact Hacc|].
  inversion_clear Hl. cbn [fold_left]. auto.
Qed.

Lemma unrolled_loop_closed :
  forall n a r, (length a <= n)%nat -> all8 r -> Forall P a ->
    all8 (fst (unrolled_loop r a)) /\ Forall P (snd (unrolled_loop r a)).
Proof.
  induction n as [|n IH]; intros a r Hn Hr Ha.
  - destruct a; [|cbn in Hn; lia]. cbn. auto.
  - do 8 (destruct a as [|? a]; [cbn; auto|]).
    destruct r as [[[[[[[r0 r1] r2] r3] r4] r5] r6] r7].
    cbn [unrolled_loop].
    destruct Hr as (Hr0 & Hr1 & Hr2 & Hr3 & Hr4 & Hr5 & Hr6 & Hr7).
    repeat match goal with
           | H : Forall P (_ :: _) |- _ => inversion_clear H
           end.
    apply IH; [cbn in Hn; lia| |assumption].
    cbn [all8]. repeat split; auto.
Qed.

Lemma pairwise_block_closed (a : list float) :
  a <> [] -> Forall P a -> P (pairwise_block a).
Proof.
  intros Hne Ha. destruct a as [|x t]; [congruence|].
  assert (Hshort : P (fold_left add (x :: t) sum_start)).
  { inversion_clear Ha. cbn [fold_left]. apply fold_add_closed; auto. }
  clear Hne. unfold pairwise_block.
  destruct t as [|a1 t]; [exact Hshort|].
  destruct t as [|a2 t]; [exact Hshort|].
  destruct t as [|a3 t]; [exact Hshort|].
  destruct t as [|a4 t]; [exact Hshort|].
  destruct t as [|a5 t]; [exact Hshort|].
  destruct t as [|a6 t]; [exact Hshort|].
  destruct t as [|a7 t]; [exact Hshort|].
  clear Hshort.
  repeat match goal with
         | H : Forall P (_ :: _) |- _ => inversion_clear H
         end.
  destruct (unrolled_loop_closed (length t) t
              (x, a1, a2, a3, a4, a5, a6, a7)) as [Hr Hrest];
    [lia|cbn [all8]; repeat split; assumption|assumption|].
  destruct (unrolled_loop (x, a1, a2, a3, a4, a5, a6, a7) t)
    as [[[[[[[[r0 r1] r2] r3] r4] r5] r6] r7] rest'].
  cbn [fst snd all8] in Hr, Hrest.
  destruct Hr as (Hr0 & Hr1 & Hr2 & Hr3 & Hr4 & Hr5 & Hr6 & Hr7).
  apply fold_add_closed; auto.
Qed.

Lemma pairwise_sum_closed :
  forall f a, a <> [] -> Forall P a -> P (pairwise_sum f a).
Proof.
  induction f as [|f IH]; intros a Hne Ha; cbn [pairwise_sum];
    [now apply pairwise_block_closed|].
  destruct (Nat.ltb_spec 128 (length a)) as [Hn|];
    [|now apply pairwise_block_closed].
  pose proof (split_point_bounds _ Hn) as Hs.
  rewrite <- (firstn_skipn (split_point (length a)) a) in Ha.
  apply Forall_app in Ha. destruct Ha as [Hfirst Hrest].
  apply P_add; apply IH.
  - intros H. apply (f_equal (@length float)) in H.
    rewrite length_firstn in H. cbn [length] in H. lia.
  - exact Hfirst.
  - intros H. apply (f_equal (@length float)) in H.
    rewrite length_skipn in H. cbn [length] in H. lia.
  - exact Hrest.
Qed.

Lemma add_reduce_closed (a : list float) :
  a <> [] -> Forall P a -> P (add_reduce a).
Proof.
  intros Hne Ha. unfold add_reduce. destruct a as [|x t]; [congruence|].
  apply P_start. now apply pairwise_sum_closed.
Qed.

End Closed.

(** A sum of positive zeros is the positive zero. *)
Lemma add_reduce_zeros (a : list float) :
  a <> [] -> Forall (eq zero) a -> add_reduce a = zero.
Proof.
  intros Hne Ha. symmetry.
  apply (add_reduce_closed (eq zero)); auto.
  - intros x y <- <-. reflexivity.
  - intros x <-. symmetry. apply add_zero_l_zero.
Qed.

(** A sum of terms without a sign bit has none. *)
Lemma add_reduce_signbit (a : list float) :
  a <> [] -> Forall (fun x => signbit x = false) a ->
  signbit (add_reduce a) = false.
Proof.
  intros Hne Ha.
  apply (add_reduce_closed (fun x => signbit x = false)); auto.
  - intros x y. apply add_signbit.
  - intros x. apply add_zero_l_signbit.
Qed.

End Sum.

End Np.

(* ================================================================== *)
(** * estimate.py *)
(* ================================================================== *)

Module Estimate.
Import F64.

(** One row of the enriched session table: the columns the estimator
    reads. [hands_played] is an integer column. *)
Record session : Type := mk_session {
  stake_text : string;
  hands_played : Z;
  hours_played : float;
  hands_per_hour : float;
  net_result : float;
  bb_per_session : float;
  bb_per_hand : float;
  usd_per_hand : float
}.

(** One row of the estimator's output, field for field. *)
Record estimate : Type := mk_estimate {
  e_stake_text : string;
  n_sessions : nat;
  total_hands : Z;
  total_hours : float;
  avg_session_hours : float;
  mu_bb_per_hand : float;
  mu_bb_ci_lower : float;
  mu_bb_ci_upper : float;
  mu_usd_per_hand : float;
  mu_usd_ci_lower : float;
  mu_usd_ci_upper : float;
  sigma2_bb_per_hand : float;
  sigma2_usd_per_hand : float;
  bb_per_hour : float;
  hourly_rate_usd : float;
  total_bb_won : float;
  total_usd_won : float
}.

(** ** pandas reductions of a float column

    A missing value is NaN. The count leaves the missing values out; the
    sums are taken over the whole column with every missing value replaced
    by [0.0], so a missing value keeps its place in the order of the
    additions. *)
Definition dropna (xs : list float) : list float :=
  filter (fun x => negb (is_nan x)) xs.

Definition series_count (xs : list float) : nat := length (dropna xs).

(** [np.putmask(values, mask, 0)] for the mask of the missing values. *)
Definition fill_zero (xs : list float) : list float :=
  map (fun x => if is_nan x then zero else x) xs.

(** [Series.sum()] of an [int64] column: the sum wraps around. *)
Definition wrap_int64 (z : Z) : Z := (z + 2 ^ 63) mod 2 ^ 64 - 2 ^ 63.

Definition int_sum (xs : list Z) : Z := wrap_int64 (fold_left Z.add xs 0).

(** [Series.unique()]: the distinct values in order of first occurrence. *)
Fixpoint unique (l : list string) : list string :=
  match l with
  | [] => []
  | x :: t => x :: filter (fun y => negb (String.eqb y x)) (unique t)
  end.

(** [df[df["stake_text"] == stake]]. *)
Definition select_stake (df : list session) (stake : string)
  : list session :=
  filter (fun r => String.eqb (stake_text r) stake) df.

(** ** [calculate_sharpe_ratios] *)

(** A row of the table with the two columns the function adds. *)
Record sharpe_row : Type := mk_sharpe_row {
  estimate_of : estimate;
  sigma_bb_per_hand : float;
  sharpe_ratio : float
}.

(** [Series.replace([np.inf, -np.inf], np.nan)] on one value. *)
Definition replace_inf (x : float) : float :=
  match x with
  | S754_infinity _ => nan
  | _ => x
  end.

(** A table of estimates as a pandas frame: its rows, and whether it has
    its columns. A frame with rows has them; a frame without rows may
    (a table emptied by a filter) or may not. *)
Record frame : Type := mk_frame {
  has_columns : bool;
  frame_rows : list estimate
}.

(** [pd.DataFrame(rows)] for a list of row dictionaries, as the estimator
    returns it: the columns are the keys of the rows, so an empty list
    gives a frame without columns. *)
Definition DataFrame (rows : list estimate) : frame :=
  {| has_columns := match rows with [] => false | _ => true end;
     frame_rows := rows |}.

(** Reading a column the frame does not have raises [KeyError]. Roots and
    quotients are taken element by element by the IEEE rules: a division
    by zero gives an infinity or NaN, never an exception. *)
Definition calculate_sharpe_ratios (estimates_df : frame)
  : outcome (list sharpe_row) :=
  if has_columns estimates_df
  then
    Ok (map (fun e =>
               let sigma := sqrt (sigma2_bb_per_hand e) in
               {| estimate_of := e;
                  sigma_bb_per_hand := sigma;
                  sharpe_ratio :=
                    replace_inf (div (mu_bb_per_hand e) sigma) |})
            (frame_rows estimates_df))
  else Raise (KeyError "sigma2_bb_per_hand").

(** ** [estimate_kelly_criterion] *)

(** Python's [min] and [max] of two arguments: the second replaces the
    first only when it compares strictly below (above) it, so a NaN in
    either place leaves the first argument. *)
Definition py_min (a b : float) : float := if ltb b a then b else a.

Definition py_max (a b : float) : float := if gtb b a then b else a.

(** [a / b] on Python floats: a zero divisor raises. *)
Definition float_truediv (a b : float) : attempt float :=
  if eqb b zero then Raises (ZeroDivisionError "float division by zero")
  else Returns (div a b).

Section Kelly.

(** [x ** y] on Python floats: the C library's [pow], with
    [OverflowError] for a result out of range. How [pow] rounds is the
    library's affair. *)
Variable float_pow : float -> float -> attempt float.

Definition estimate_kelly_criterion (mu sigma bankroll : float)
  : attempt (float * float) :=
  if eqb sigma zero then Returns (zero, zero)
  else
    abind (float_pow sigma (of_Z 2)) (fun sigma_squared =>
    abind (float_truediv mu sigma_squared) (fun kelly_fraction =>
    let kelly_fraction := py_min kelly_fraction (dec 25 100) in
    let kelly_fraction := py_max kelly_fraction zero in
    let optimal_bet_size := mul kelly_fraction bankroll in
    Returns (kelly_fraction, optimal_bet_size))).

End Kelly.

(** ** [bootstrap_confidence_intervals] *)

(** The entry of one stake in the dictionary returned. *)
Record bootstrap_result : Type := mk_bootstrap_result {
  b_mean : float;
  b_std : float;
  ci_lower : float;
  ci_upper : float;
  ci_10_90 : float * float
}.

Section Bootstrap.

(** NumPy's global generator, the state [np.random.seed] installs, and
    [np.random.choice(a, size=n, replace=True)], which returns the next
    state; [np.mean], [np.std] and [np.percentile] of an array of bootstrap
    means (an array that is not empty: [n_bootstrap] is at least 1 in every
    statement below). *)
Variable rng : Type.
Variable seed_state : Z -> rng.
Variable random_choice : list float -> nat -> rng -> list float * rng.
Variable np_mean : list float -> float.
Variable np_std : list float -> float.
Variable np_percentile : list float -> float -> float.

(** The inner loop: one resample and its mean per round. *)
Fixpoint bootstrap_means (stake_data : list float) (n : nat) (s : rng)
  : list float * rng :=
  match n with
  | O => ([], s)
  | S n' =>
      let (bootstrap_sample, s1) :=
        random_choice stake_data (length stake_data) s in
      let (means, s2) := bootstrap_means stake_data n' s1 in
      (np_mean bootstrap_sample :: means, s2)
  end.

(** The loop over the distinct stakes: a stake with fewer than five
    sessions is skipped. *)
Fixpoint bootstrap_loop (df : list session) (n_bootstrap : Z)
  (stakes : list string) (bootstrap_results : list (string * bootstrap_result))
  (s : rng) : list (string * bootstrap_result) * rng :=
  match stakes with
  | [] => (bootstrap_results, s)
  | stake :: rest =>
      let stake_data := map bb_per_hand (select_stake df stake) in
      if (length stake_data <? 5)%nat
      then bootstrap_loop df n_bootstrap rest bootstrap_results s
      else
        let (bootstrap_means, s1) :=
          bootstrap_means stake_data (Z.to_nat n_bootstrap) s in
        let result :=
          {| b_mean := np_mean bootstrap_means;
             b_std := np_std bootstrap_means;
             ci_lower := np_percentile bootstrap_means (dec 25 10);
             ci_upper := np_percentile bootstrap_means (dec 975 10);
             ci_10_90 := (np_percentile bootstrap_means (of_Z 10),
                          np_percentile bootstrap_means (of_Z 90)) |} in
        bootstrap_loop df n_bootstrap rest
          (dict_set String.eqb stake result bootstrap_results) s1
  end.

Definition bootstrap_confidence_intervals (df : list session)
  (n_bootstrap : Z) (s : rng) : list (string * bootstrap_result) * rng :=
  bootstrap_loop df n_bootstrap (unique (map stake_text df)) []
                 (seed_state 42).

End Bootstrap.


Section Estimator.

(** The sign of the zero NumPy starts a sum from (see [Np.add_reduce]). *)
Variable start_sign : bool.

(** [Series.sum()]: NumPy's sum of the column with its gaps filled. *)
Definition series_sum (xs : list float) : float :=
  Np.add_reduce start_sign (fill_zero xs).

(** [Series.mean()]: the sum over the count, NaN for a column without
    values. *)
Definition series_mean (xs : list float) : float :=
  if (0 <? series_count xs)%nat
  then div (series_sum xs) (of_Z (Z.of_nat (series_count xs)))
  else nan.

(** [Series.var()], [ddof = 1], as pandas computes it itself, in two
    passes: the sum over the count first, then the squared deviations from
    it, with [0.0] in the place of a missing value, summed and divided by
    [count - 1]; NaN when there are fewer than two values. (With the
    optional package bottleneck installed pandas leaves the variance to
    it; the model is pandas without it.) *)
Definition series_var (xs : list float) : float :=
  let count := series_count xs in
  if (count <=? 1)%nat then nan
  else
    let avg := div (series_sum xs) (of_Z (Z.of_nat count)) in
    let sqr :=
      map (fun x => if is_nan x then zero
                    else let d := sub avg x in mul d d) xs in
    div (Np.add_reduce start_sign sqr) (of_Z (Z.of_nat count - 1)).

(** [Series.std()]: the square root of [Series.var()]. *)
Definition series_std (xs : list float) : float := sqrt (series_var xs).

(** [scipy.stats.t.ppf(q, df)]: the quantile function of Student's t. *)
Variable t_ppf : float -> Z -> float.

Definition confidence_level : float := dec 95 100.

(** The body of the loop for one stake with enough sessions. *)
Definition estimate_stake (stake : string) (stake_data : list session)
  : estimate :=
  let n_sessions := length stake_data in
  let total_hands := int_sum (map hands_played stake_data) in
  let mu_bb_per_hand := series_mean (map bb_per_hand stake_data) in
  let mu_usd_per_hand := series_mean (map usd_per_hand stake_data) in
  let session_bb_variance := series_var (map bb_per_hand stake_data) in
  let session_usd_variance := series_var (map usd_per_hand stake_data) in
  let t_critical :=
    t_ppf (div (add (of_Z 1) confidence_level) (of_Z 2))
          (Z.of_nat n_sessions - 1) in
  let mu_bb_se :=
    div (series_std (map bb_per_hand stake_data))
        (sqrt (of_Z (Z.of_nat n_sessions))) in
  let mu_bb_ci_lower := sub mu_bb_per_hand (mul t_critical mu_bb_se) in
  let mu_bb_ci_upper := add mu_bb_per_hand (mul t_critical mu_bb_se) in
  let mu_usd_se :=
    div (series_std (map usd_per_hand stake_data))
        (sqrt (of_Z (Z.of_nat n_sessions))) in
  let mu_usd_ci_lower := sub mu_usd_per_hand (mul t_critical mu_usd_se) in
  let mu_usd_ci_upper := add mu_usd_per_hand (mul t_critical mu_usd_se) in
  let total_bb_won := series_sum (map bb_per_session stake_data) in
  let total_usd_won := series_sum (map net_result stake_data) in
  let avg_hours := series_mean (map hours_played stake_data) in
  {| e_stake_text := stake;
     n_sessions := n_sessions;
     total_hands := total_hands;
     total_hours := series_sum (map hours_played stake_data);
     avg_session_hours := avg_hours;
     mu_bb_per_hand := mu_bb_per_hand;
     mu_bb_ci_lower := mu_bb_ci_lower;
     mu_bb_ci_upper := mu_bb_ci_upper;
     mu_usd_per_hand := mu_usd_per_hand;
     mu_usd_ci_lower := mu_usd_ci_lower;
     mu_usd_ci_upper := mu_usd_ci_upper;
     sigma2_bb_per_hand := session_bb_variance;
     sigma2_usd_per_hand := session_usd_variance;
     bb_per_hour :=
       mul mu_bb_per_hand (series_mean (map hands_per_hour stake_data));
     hourly_rate_usd :=
       mul mu_usd_per_hand (series_mean (map hands_per_hour stake_data));
     total_bb_won := total_bb_won;
     total_usd_won := total_usd_won |}.

(** The loop over the distinct stakes: a stake with fewer than three
    sessions is skipped ([continue]), any other appends one row. *)
Fixpoint estimate_loop (df : list session) (stakes : list string)
  : list estimate :=
  match stakes with
  | [] => []
  | stake :: rest =>
      let stake_data := select_stake df stake in
      if (length stake_data <? 3)%nat then estimate_loop df rest
      else estimate_stake stake stake_data :: estimate_loop df rest
  end.

Definition estimate_mu_sigma_by_stake (df : list session) : list estimate :=
  estimate_loop df (unique (map stake_text df)).

(** The output row is the one of [stake]. *)
Definition has_stake (stake : string) (e : estimate) : bool :=
  String.eqb (e_stake_text e) stake.

(** The quantile the estimator multiplies the standard error with. *)
Definition t_critical (n : nat) : float :=
  t_ppf (div (add (of_Z 1) confidence_level) (of_Z 2)) (Z.of_nat n - 1).

(** The confidence bounds: the mean minus and plus the quantile times the
    standard error of the mean, [n] being the number of sessions. *)
Definition ci_bounds (xs : list float) (n : nat) : float * float :=
  let se := div (series_std xs) (sqrt (of_Z (Z.of_nat n))) in
  (sub (series_mean xs) (mul (t_critical n) se),
   add (series_mean xs) (mul (t_critical n) se)).

(** ** The rows of the estimator's output *)

Lemma unique_In (x : string) (l : list string) : In x (unique l) <-> In x l.
Proof.
  induction l as [|y t IH]; cbn [unique]; [tauto|].
  cbn [In]. rewrite filter_In, IH.
  destruct (String.eqb_spec x y) as [->|Hne]; cbn.
  - split; auto.
  - split; [intros [?|[? _]]; auto | intros [?|?]; auto].
Qed.

Lemma unique_NoDup (l : list string) : NoDup (unique l).
Proof.
  induction l as [|y t IH]; cbn [unique]; constructor.
  - rewrite filter_In. intros [_ H]. rewrite String.eqb_refl in H.
    discriminate.
  - now apply NoDup_filter.
Qed.

Lemma select_stake_In (df : list session) (stake : string) :
  select_stake df stake <> [] -> In stake (map stake_text df).
Proof.
  unfold select_stake. induction df as [|r t IH]; cbn; [congruence|].
  destruct (String.eqb_spec (stake_text r) stake); auto.
Qed.

Lemma estimate_loop_absent (df : list session) (stake : string)
  (stakes : list string) :
  ~ In stake stakes ->
  filter (has_stake stake) (estimate_loop df stakes) = [].
Proof.
  induction stakes as [|s rest IH]; cbn [estimate_loop]; auto.
  intros Hn. cbn [In] in Hn.
  destruct (length (select_stake df s) <? 3)%nat; [apply IH; tauto|].
  cbn [filter]. unfold has_stake at 1. cbn [estimate_stake e_stake_text].
  destruct (String.eqb_spec s stake); [tauto|]. apply IH; tauto.
Qed.

Lemma estimate_loop_present (df : list session) (stake : string)
  (stakes : list string) :
  NoDup stakes -> In stake stakes ->
  filter (has_stake stake) (estimate_loop df stakes) =
  if (length (select_stake df stake) <? 3)%nat then []
  else [estimate_stake stake (select_stake df stake)].
Proof.
  induction stakes as [|s rest IH]; cbn [estimate_loop In]; [tauto|].
  intros Hnd [->|Hin]; inversion_clear Hnd as [|? ? Hs Hrest].
  - destruct (length (select_stake df stake) <? 3)%nat.
    + now apply estimate_loop_absent.
    + cbn [filter]. unfold has_stake at 1.
      cbn [estimate_stake e_stake_text]. rewrite String.eqb_refl.
      f_equal. now apply estimate_loop_absent.
  - assert (s <> stake) by (intros ->; tauto).
    destruct (length (select_stake df s) <? 3)%nat; [now apply IH|].
    cbn [filter]. unfold has_stake at 1.
    cbn [estimate_stake e_stake_text].
    destruct (String.eqb_spec s stake); [tauto|]. now apply IH.
Qed.

(** The rows of the output that carry a given stake. *)
Lemma estimate_rows_of_stake (df : list session) (stake : string) :
  filter (has_stake stake) (estimate_mu_sigma_by_stake df) =
  if (length (select_stake df stake) <? 3)%nat then []
  else [estimate_stake stake (select_stake df stake)].
Proof.
  unfold estimate_mu_sigma_by_stake.
  destruct (in_dec string_dec stake (unique (map stake_text df)))
    as [Hin|Hout].
  - apply estimate_loop_present; auto using unique_NoDup.
  - rewrite estimate_loop_absent by auto.
    destruct (select_stake df stake) as [|r t] eqn:Hsel; [reflexivity|].
    exfalso. apply Hout, unique_In, select_stake_In. congruence.
Qed.

(** C4. A stake with fewer than three sessions has no row in the output of
    [estimate_mu_sigma_by_stake], and a stake with three sessions or more
    has exactly one; the function is total, so no input raises. *)
Theorem C4_rows_per_stake (df : list session) (stake : string) :
  length (filter (has_stake stake) (estimate_mu_sigma_by_stake df)) =
  if (length (select_stake df stake) <? 3)%nat then 0%nat else 1%nat.
Proof.
  rewrite estimate_rows_of_stake.
  destruct (length (select_stake df stake) <? 3)%nat; reflexivity.
Qed.

(** ** The estimates as the specification words them

    for the [n] samples of a group: the arithmetic mean, the sample variance
    with denominator [n - 1], and the mean minus and plus the quantile for
    [n - 1] degrees of freedom times [std / sqrt n]. The sums are NumPy's. *)
Definition sample_mean (xs : list float) : float :=
  div (Np.add_reduce start_sign xs) (of_Z (Z.of_nat (length xs))).

Definition sample_variance (xs : list float) : float :=
  let m := sample_mean xs in
  div (Np.add_reduce start_sign
         (map (fun x => let d := sub x m in mul d d) xs))
      (of_Z (Z.of_nat (length xs) - 1)).

Definition t_interval (xs : list float) : float * float :=
  let n := length xs in
  let half :=
    mul (t_critical n)
        (div (sqrt (sample_variance xs)) (sqrt (of_Z (Z.of_nat n)))) in
  (sub (sample_mean xs) half, add (sample_mean xs) half).

(** No sample is missing. *)
Definition no_missing (xs : list float) : Prop :=
  Forall (fun x => is_nan x = false) xs.

Lemma fill_zero_no_missing (xs : list float) :
  no_missing xs -> fill_zero xs = xs.
Proof.
  unfold fill_zero. induction 1 as [|x t Hx _ IH]; cbn [map];
    [reflexivity|].
  now rewrite Hx, IH.
Qed.

Lemma series_count_no_missing (xs : list float) :
  no_missing xs -> series_count xs = length xs.
Proof.
  unfold series_count, dropna.
  induction 1 as [|x t Hx _ IH]; cbn [filter length]; [reflexivity|].
  rewrite Hx. cbn [negb length]. now f_equal.
Qed.

Lemma series_mean_no_missing (xs : list float) :
  (1 <= length xs)%nat -> no_missing xs -> series_mean xs = sample_mean xs.
Proof.
  intros Hn Hxs. unfold series_mean, series_sum, sample_mean.
  rewrite series_count_no_missing, fill_zero_no_missing by assumption.
  destruct (Nat.ltb_spec 0 (length xs)); [reflexivity|lia].
Qed.

Lemma series_var_no_missing (xs : list float) :
  (2 <= length xs)%nat -> no_missing xs ->
  series_var xs = sample_variance xs.
Proof.
  intros Hn Hxs. unfold series_var, series_sum, sample_variance, sample_mean.
  rewrite series_count_no_missing, fill_zero_no_missing by assumption.
  destruct (Nat.leb_spec (length xs) 1); [lia|].
  f_equal. f_equal. apply map_ext_in. intros x Hx.
  unfold no_missing in Hxs. rewrite Forall_forall in Hxs.
  rewrite (Hxs x Hx). apply square_sub_sym.
Qed.

Lemma ci_bounds_no_missing (xs : list float) :
  (2 <= length xs)%nat -> no_missing xs ->
  ci_bounds xs (length xs) = t_interval xs.
Proof.
  intros Hn Hxs. unfold ci_bounds, t_interval, series_std.
  rewrite series_var_no_missing, series_mean_no_missing by (auto; lia).
  reflexivity.
Qed.

Lemma no_missing_estimates (xs : list float) :
  (3 <= length xs)%nat -> no_missing xs ->
  series_mean xs = sample_mean xs /\
  series_var xs = sample_variance xs /\
  ci_bounds xs (length xs) = t_interval xs.
Proof.
  intros Hn Hxs.
  split; [apply series_mean_no_missing; auto; lia|].
  split; [apply series_var_no_missing; auto; lia|].
  apply ci_bounds_no_missing; auto; lia.
Qed.

(** ** Identical samples *)

Lemma identical_no_missing (x : float) (xs : list float) :
  is_nan x = false -> Forall (eq x) xs -> no_missing xs.
Proof.
  intros Hx H. unfold no_missing.
  induction H as [|y t <- _ IH]; constructor; auto.
Qed.

(** When the computed mean of identical finite samples is that sample, the
    variance is exactly [+0.0]. *)
Lemma series_var_identical (x : float) (xs : list float) :
  is_finite x = true -> (2 <= length xs)%nat -> Forall (eq x) xs ->
  eqb (series_mean xs) x = true -> series_var xs = zero.
Proof.
  intros Hx Hn Hall Hmean.
  assert (Hxs : no_missing xs)
    by (apply (identical_no_missing x); auto using is_finite_not_nan).
  unfold series_mean in Hmean. unfold series_var.
  rewrite series_count_no_missing in * by assumption.
  destruct (Nat.ltb_spec 0 (length xs)); [|lia].
  destruct (Nat.leb_spec (length xs) 1) as [?|_]; [lia|].
  destruct (eqb_sub_zero _ _ Hx Hmean) as [s Hs].
  rewrite Np.add_reduce_zeros.
  - apply div_zero_pos, of_Z_pos. lia.
  - destruct xs; [cbn in Hn; lia|discriminate].
  - apply Forall_forall. intros y Hy. apply in_map_iff in Hy.
    destruct Hy as (z & <- & Hz).
    rewrite Forall_forall in Hall. rewrite <- (Hall z Hz).
    rewrite (is_finite_not_nan _ Hx), Hs.
    symmetry. apply mul_zero_zero.
Qed.

(** With a zero standard deviation both confidence bounds compare equal to
    the mean. *)
Lemma ci_collapse (mu t : float) (n : nat) :
  is_finite mu = true -> is_finite t = true -> (1 <= n)%nat ->
  let se := div (sqrt zero) (sqrt (of_Z (Z.of_nat n))) in
  eqb (sub mu (mul t se)) mu = true /\ eqb (add mu (mul t se)) mu = true.
Proof.
  intros Hmu Ht Hn se.
  assert (Hse : se = zero).
  { subst se. change (sqrt zero) with zero. apply div_zero_pos.
    destruct (of_Z_pos (Z.of_nat n)) as [Hp He]; [lia|].
    now apply sqrt_pos. }
  rewrite Hse. unfold zero. rewrite (mul_zero_r false t Ht).
  split; [now apply sub_zero_eqb | now apply add_zero_eqb].
Qed.

Lemma identical_column {A : Type} (f : A -> float) (x : float)
  (g : list A) :
  Forall (fun s => f s = x) g -> Forall (eq x) (map f g).
Proof. induction 1 as [|s t Hs _ IH]; cbn; constructor; auto. Qed.

Lemma identical_estimates (xs : list float) (x : float) (n : nat) :
  (3 <= n)%nat -> length xs = n ->
  is_finite x = true -> Forall (eq x) xs ->
  eqb (series_mean xs) x = true -> is_finite (t_critical n) = true ->
  series_var xs = zero /\
  eqb (fst (ci_bounds xs n)) (series_mean xs) = true /\
  eqb (snd (ci_bounds xs n)) (series_mean xs) = true.
Proof.
  intros Hn Hlen Hx Hall Hmean Ht.
  assert (Hvar : series_var xs = zero)
    by (apply (series_var_identical x); auto; lia).
  split; [exact Hvar|].
  unfold ci_bounds, series_std. cbn [fst snd]. rewrite Hvar.
  apply ci_collapse; auto; [|lia].
  now apply (eqb_finite _ x).
Qed.

(** C3 (amended). For a stake with at least three sessions the output has
    one row. Its [mu], [sigma2] and confidence bounds are pandas' mean and
    variance and the mean minus and plus the Student-t quantile for
    [n - 1] degrees of freedom times [std / sqrt n], in big blinds and in
    dollars alike; when no sample of the group is missing these are the
    arithmetic mean [sum / n], the sample variance with denominator
    [n - 1] and the interval built from them, the sums being taken as
    NumPy takes them. When all the samples are one finite value and the
    computed mean is that value, the variance is [+0.0] and both bounds
    compare equal to the mean. *)
Theorem C3_estimates_of_stake (df : list session) (stake : string) :
  (3 <= length (select_stake df stake))%nat ->
  let g := select_stake df stake in
  let n := length g in
  let bb := map bb_per_hand g in
  let usd := map usd_per_hand g in
  exists row,
    filter (has_stake stake) (estimate_mu_sigma_by_stake df) = [row] /\
    n_sessions row = n /\
    mu_bb_per_hand row = series_mean bb /\
    sigma2_bb_per_hand row = series_var bb /\
    (mu_bb_ci_lower row, mu_bb_ci_upper row) = ci_bounds bb n /\
    mu_usd_per_hand row = series_mean usd /\
    sigma2_usd_per_hand row = series_var usd /\
    (mu_usd_ci_lower row, mu_usd_ci_upper row) = ci_bounds usd n /\
    (no_missing bb ->
     mu_bb_per_hand row = sample_mean bb /\
     sigma2_bb_per_hand row = sample_variance bb /\
     (mu_bb_ci_lower row, mu_bb_ci_upper row) = t_interval bb) /\
    (no_missing usd ->
     mu_usd_per_hand row = sample_mean usd /\
     sigma2_usd_per_hand row = sample_variance usd /\
     (mu_usd_ci_lower row, mu_usd_ci_upper row) = t_interval usd) /\
    (is_finite (t_critical n) = true ->
     (forall x, is_finite x = true ->
        Forall (fun s => bb_per_hand s = x) g ->
        eqb (series_mean bb) x = true ->
        sigma2_bb_per_hand row = zero /\
        eqb (mu_bb_ci_lower row) (mu_bb_per_hand row) = true /\
        eqb (mu_bb_ci_upper row) (mu_bb_per_hand row) = true) /\
     (forall x, is_finite x = true ->
        Forall (fun s => usd_per_hand s = x) g ->
        eqb (series_mean usd) x = true ->
        sigma2_usd_per_hand row = zero /\
        eqb (mu_usd_ci_lower row) (mu_usd_per_hand row) = true /\
        eqb (mu_usd_ci_upper row) (mu_usd_per_hand row) = true)).
Proof.
  intros Hlen g n bb usd. subst g n bb usd.
  exists (estimate_stake stake (select_stake df stake)). split.
  { rewrite estimate_rows_of_stake.
    destruct (Nat.ltb_spec (length (select_stake df stake)) 3);
      [lia|reflexivity]. }
  do 7 (split; [reflexivity|]).
  assert (Hrow : forall f : session -> float,
            let xs := map f (select_stake df stake) in
            no_missing xs ->
            series_mean xs = sample_mean xs /\
            series_var xs = sample_variance xs /\
            ci_bounds xs (length (select_stake df stake)) = t_interval xs).
  { intros f xs Hxs. subst xs.
    rewrite <- (length_map f (select_stake df stake)).
    apply no_missing_estimates; [now rewrite length_map|exact Hxs]. }
  split; [exact (Hrow bb_per_hand)|]. split; [exact (Hrow usd_per_hand)|].
  intros Ht. split; intros x Hx Hall Hmean.
  - apply (identical_estimates _ x _); auto using length_map.
    now apply identical_column.
  - apply (identical_estimates _ x _); auto using length_map.
    now apply identical_column.
Qed.

(** ** Which stakes are estimated, and from which sessions *)

Lemma estimate_loop_stakes (df : list session) (stakes : list string) :
  map e_stake_text (estimate_loop df stakes) =
  filter (fun stake => (3 <=? length (select_stake df stake))%nat) stakes.
Proof.
  induction stakes as [|s rest IH]; cbn [estimate_loop filter]; auto.
  destruct (Nat.ltb_spec (length (select_stake df s)) 3),
           (Nat.leb_spec 3 (length (select_stake df s))); try lia; auto.
  cbn [map estimate_stake e_stake_text]. now f_equal.
Qed.

(** X9. The output of [estimate_mu_sigma_by_stake] lists the stakes that
    have at least three sessions, each once, in the order in which they
    first appear in the sessions table. *)
Theorem estimated_stakes_in_order (df : list session) :
  map e_stake_text (estimate_mu_sigma_by_stake df) =
  filter (fun stake => (3 <=? length (select_stake df stake))%nat)
         (unique (map stake_text df)) /\
  NoDup (map e_stake_text (estimate_mu_sigma_by_stake df)).
Proof.
  unfold estimate_mu_sigma_by_stake. rewrite estimate_loop_stakes.
  split; [reflexivity|]. apply NoDup_filter, unique_NoDup.
Qed.

Lemma unique_constant (x : string) (l : list string) :
  Forall (eq x) l -> unique l = match l with [] => [] | _ => [x] end.
Proof.
  induction 1 as [|y t <- _ IH]; [reflexivity|]. cbn [unique].
  rewrite IH. destruct t; cbn [filter]; [reflexivity|].
  now rewrite String.eqb_refl.
Qed.

Lemma select_stake_stakes (df : list session) (stake : string) :
  Forall (eq stake) (map stake_text (select_stake df stake)).
Proof.
  unfold select_stake. induction df as [|r t IH]; cbn [filter map];
    [constructor|].
  destruct (String.eqb_spec (stake_text r) stake); [|exact IH].
  cbn [map]. constructor; auto.
Qed.

Lemma select_stake_idempotent (df : list session) (stake : string) :
  select_stake (select_stake df stake) stake = select_stake df stake.
Proof.
  unfold select_stake. induction df as [|r t IH]; cbn [filter];
    [reflexivity|].
  destruct (String.eqb (stake_text r) stake) eqn:H; [|exact IH].
  cbn [filter]. rewrite H. now f_equal.
Qed.

(** X10. The row of a stake depends on the sessions of that stake alone:
    estimating the sub-table of one stake gives exactly the rows the
    estimate of the whole table has for that stake. *)
Theorem estimate_of_one_stake (df : list session) (stake : string) :
  estimate_mu_sigma_by_stake (select_stake df stake) =
  filter (has_stake stake) (estimate_mu_sigma_by_stake df).
Proof.
  rewrite estimate_rows_of_stake. unfold estimate_mu_sigma_by_stake.
  rewrite (unique_constant stake) by apply select_stake_stakes.
  destruct (select_stake df stake) as [|r t] eqn:Hsel; [reflexivity|].
  cbn [map estimate_loop]. rewrite <- Hsel, select_stake_idempotent.
  destruct (length (select_stake df stake) <? 3)%nat; reflexivity.
Qed.

(** ** How many sessions the output accounts for *)

Lemma list_sum_map_add {A : Type} (f g : A -> nat) (l : list A) :
  list_sum (map (fun x => f x + g x)%nat l) =
  (list_sum (map f l) + list_sum (map g l))%nat.
Proof. induction l as [|x t IH]; simpl; lia. Qed.

Lemma list_sum_indicator (x : string) (l : list string) :
  NoDup l ->
  list_sum (map (fun s => if String.eqb x s then 1 else 0)%nat l) =
  if existsb (String.eqb x) l then 1%nat else 0%nat.
Proof.
  induction 1 as [|s t Hs _ IH]; simpl; [reflexivity|].
  rewrite IH. destruct (String.eqb_spec x s) as [->|]; cbn [orb]; auto.
  destruct (existsb (String.eqb s) t) eqn:Hex; [|reflexivity].
  apply existsb_exists in Hex. destruct Hex as (y & Hy & Heq).
  apply String.eqb_eq in Heq. subst y. contradiction.
Qed.

Lemma select_stake_length_cons (r : session) (t : list session)
  (stake : string) :
  length (select_stake (r :: t) stake) =
  ((if String.eqb (stake_text r) stake then 1 else 0) +
   length (select_stake t stake))%nat.
Proof.
  unfold select_stake. cbn [filter].
  destruct (String.eqb (stake_text r) stake); reflexivity.
Qed.

Lemma sessions_of_stakes (P : string -> bool) (stakes : list string) :
  NoDup stakes ->
  forall rows,
    list_sum (map (fun s => length (select_stake rows s)) (filter P stakes)) =
    length (filter (fun r => P (stake_text r) &&
                             existsb (String.eqb (stake_text r)) stakes)
                   rows).
Proof.
  intros Hnd. induction rows as [|r t IH].
  - cbn [filter length]. induction (filter P stakes); cbn; auto.
  - rewrite (map_ext _ _ (select_stake_length_cons r t)).
    rewrite list_sum_map_add, IH.
    rewrite list_sum_indicator by now apply NoDup_filter.
    cbn [filter].
    assert (Hex : existsb (String.eqb (stake_text r)) (filter P stakes) =
                  P (stake_text r) &&
                  existsb (String.eqb (stake_text r)) stakes).
    { apply eq_true_iff_eq. rewrite andb_true_iff, !existsb_exists.
      split.
      - intros (y & Hy & Heq). apply filter_In in Hy.
        destruct Hy as [Hy HP]. apply String.eqb_eq in Heq. subst y.
        split; [exact HP|]. exists (stake_text r).
        split; [exact Hy|apply String.eqb_refl].
      - intros (HP & y & Hy & Heq). apply String.eqb_eq in Heq. subst y.
        exists (stake_text r). split; [|apply String.eqb_refl].
        apply filter_In. auto. }
    rewrite Hex. destruct (_ && _); cbn [length]; lia.
Qed.

Lemma estimate_loop_n_sessions (df : list session) (stakes : list string) :
  map n_sessions (estimate_loop df stakes) =
  map (fun s => length (select_stake df s))
      (filter (fun stake => (3 <=? length (select_stake df stake))%nat)
              stakes).
Proof.
  induction stakes as [|s rest IH]; cbn [estimate_loop filter]; auto.
  destruct (Nat.ltb_spec (length (select_stake df s)) 3),
           (Nat.leb_spec 3 (length (select_stake df s))); try lia; auto.
  cbn [map estimate_stake n_sessions]. now f_equal.
Qed.

(** X11. Every row of the output counts at least three sessions, and the
    session counts of the rows add up to the number of sessions played at
    a stake with at least three sessions: no session is counted twice, and
    the sessions of a smaller group are the only ones left out. *)
Theorem sessions_accounted_for (df : list session) :
  let estimates := estimate_mu_sigma_by_stake df in
  Forall (fun e => (3 <= n_sessions e)%nat /\
                   n_sessions e = length (select_stake df (e_stake_text e)))
         estimates /\
  list_sum (map n_sessions estimates) =
  length (filter (fun r =>
                    (3 <=? length (select_stake df (stake_text r)))%nat)
                 df) /\
  (list_sum (map n_sessions estimates) <= length df)%nat.
Proof.
  cbn zeta.
  assert (Hsum :
    list_sum (map n_sessions (estimate_mu_sigma_by_stake df)) =
    length (filter (fun r =>
                      (3 <=? length (select_stake df (stake_text r)))%nat)
                   df)).
  { unfold estimate_mu_sigma_by_stake. rewrite estimate_loop_n_sessions.
    rewrite (sessions_of_stakes _ _ (unique_NoDup _)).
    f_equal. apply filter_ext_in. intros r Hr.
    assert (Hex : existsb (String.eqb (stake_text r))
                          (unique (map stake_text df)) = true).
    { apply existsb_exists. exists (stake_text r).
      split; [|apply String.eqb_refl].
      apply unique_In, in_map, Hr. }
    now rewrite Hex, andb_true_r. }
  split; [|split; [exact Hsum|]].
  - apply Forall_forall. intros e He.
    assert (Hin : In e (filter (has_stake (e_stake_text e))
                               (estimate_mu_sigma_by_stake df))).
    { apply filter_In. split; [exact He|]. apply String.eqb_refl. }
    rewrite estimate_rows_of_stake in Hin.
    destruct (Nat.ltb_spec (length (select_stake df (e_stake_text e))) 3)
      as [|Hge]; [destruct Hin|].
    destruct Hin as [<-|[]]. cbn [estimate_stake n_sessions e_stake_text].
    split; [exact Hge|reflexivity].
  - rewrite Hsum. apply List.filter_length_le.
Qed.

(** X12. The minimum sample size counts sessions, not values: a stake with
    three sessions or more has its row even when its per-hand results are
    missing. With no value that is a number the mean is NaN, and with at
    most one the variance is NaN. *)
Theorem estimates_of_missing_values (df : list session) (stake : string) :
  (3 <= length (select_stake df stake))%nat ->
  let bb := map bb_per_hand (select_stake df stake) in
  exists row,
    filter (has_stake stake) (estimate_mu_sigma_by_stake df) = [row] /\
    n_sessions row = length (select_stake df stake) /\
    ((series_count bb <= 1)%nat ->
     is_nan (sigma2_bb_per_hand row) = true) /\
    (series_count bb = 0%nat -> is_nan (mu_bb_per_hand row) = true).
Proof.
  intros Hlen bb. subst bb.
  exists (estimate_stake stake (select_stake df stake)). split.
  { rewrite estimate_rows_of_stake.
    destruct (Nat.ltb_spec (length (select_stake df stake)) 3);
      [lia|reflexivity]. }
  split; [reflexivity|]. cbn [estimate_stake sigma2_bb_per_hand mu_bb_per_hand].
  split.
  - intros Hc. unfold series_var.
    destruct (Nat.leb_spec (series_count (map bb_per_hand
                                            (select_stake df stake))) 1);
      [reflexivity|lia].
  - intros Hc. unfold series_mean. rewrite Hc. reflexivity.
Qed.

(** ** The sign of a variance *)

(** A sum of squares over a positive count: never a negative number, and
    never the negative zero. *)
Lemma series_var_signbit (xs : list float) : signbit (series_var xs) = false.
Proof.
  unfold series_var.
  destruct (Nat.leb_spec (series_count xs) 1) as [|Hc]; [reflexivity|].
  apply div_signbit.
  - apply Np.add_reduce_signbit.
    + destruct xs; [cbn in Hc; lia|discriminate].
    + apply Forall_forall. intros y Hy. apply in_map_iff in Hy.
      destruct Hy as (x & <- & _).
      destruct (is_nan x); [reflexivity|apply mul_self_signbit].
  - apply of_Z_pos. lia.
Qed.

Lemma estimate_loop_variance_signbit (df : list session)
  (stakes : list string) :
  Forall (fun e => signbit (sigma2_bb_per_hand e) = false)
         (estimate_loop df stakes).
Proof.
  induction stakes as [|s rest IH]; cbn [estimate_loop]; [constructor|].
  destruct (length (select_stake df s) <? 3)%nat; [exact IH|].
  constructor; [|exact IH]. apply series_var_signbit.
Qed.

End Estimator.

(** ** Sharpe ratios *)

Lemma replace_inf_not_infinite (x : float) :
  is_finite (replace_inf x) = true \/ is_nan (replace_inf x) = true.
Proof. destruct x; cbn; auto. Qed.

Lemma sharpe_of_no_spread (mu sigma2 : float) :
  leb sigma2 zero = true \/ is_nan sigma2 = true ->
  is_nan (replace_inf (div mu (sqrt sigma2))) = true.
Proof.
  destruct sigma2 as [[|]|[|]| |[|] m e]; cbn [leb SFleb SFcompare is_nan];
    intros [H|H]; try discriminate;
    destruct mu as [[|]|[|]| |[|] mm me]; reflexivity.
Qed.

(** X13. [calculate_sharpe_ratios] raises [KeyError] on a frame without
    columns -- which is what it gets from the estimator exactly when no
    stake has three sessions -- and otherwise returns one row per estimate,
    in order, with [sigma] the square root of the variance. A Sharpe ratio
    is never infinite: it is NaN whenever the variance is zero, negative or
    NaN (whatever the mean), and it is the quotient [mu / sigma] whenever
    that quotient is finite. *)
Theorem sharpe_ratios_never_infinite (start_sign : bool)
  (t_ppf : float -> Z -> float)
  (sessions : list session) (estimates_df : frame) :
  (has_columns estimates_df = false ->
   calculate_sharpe_ratios estimates_df =
   Raise (KeyError "sigma2_bb_per_hand")) /\
  is_ok (calculate_sharpe_ratios
           (DataFrame (estimate_mu_sigma_by_stake start_sign t_ppf sessions))) =
  existsb (fun stake => (3 <=? length (select_stake sessions stake))%nat)
          (unique (map stake_text sessions)) /\
  (has_columns estimates_df = true ->
   exists rows,
     calculate_sharpe_ratios estimates_df = Ok rows /\
     map estimate_of rows = frame_rows estimates_df /\
     Forall (fun r =>
               let mu := mu_bb_per_hand (estimate_of r) in
               let sigma2 := sigma2_bb_per_hand (estimate_of r) in
               sigma_bb_per_hand r = sqrt sigma2 /\
               (is_finite (sharpe_ratio r) = true \/
                is_nan (sharpe_ratio r) = true) /\
               (leb sigma2 zero = true \/ is_nan sigma2 = true ->
                is_nan (sharpe_ratio r) = true) /\
               (is_finite (div mu (sqrt sigma2)) = true ->
                sharpe_ratio r = div mu (sqrt sigma2)))
            rows).
Proof.
  unfold calculate_sharpe_ratios. split; [now intros ->|]. split.
  - pose proof (estimate_loop_stakes start_sign t_ppf sessions
                  (unique (map stake_text sessions))) as Hst.
    fold (estimate_mu_sigma_by_stake start_sign t_ppf sessions) in Hst.
    destruct (estimate_mu_sigma_by_stake start_sign t_ppf sessions)
      as [|e rest];
      cbn [DataFrame has_columns is_ok map] in *.
    + symmetry. induction (unique (map stake_text sessions)) as [|x t IH];
        [reflexivity|].
      cbn [filter existsb] in *.
      destruct (3 <=? length (select_stake sessions x))%nat;
        [discriminate|]. now apply IH.
    + symmetry. apply existsb_exists. exists (e_stake_text e).
      assert (Hin : In (e_stake_text e)
                       (filter (fun stake =>
                                  (3 <=? length (select_stake sessions stake))
                                  %nat)
                               (unique (map stake_text sessions))))
        by (rewrite <- Hst; now left).
      now apply filter_In in Hin.
  - intros ->. eexists. split; [reflexivity|]. split.
    + rewrite map_map. cbn [estimate_of]. apply map_id.
    + apply Forall_forall. intros r Hr. apply in_map_iff in Hr.
      destruct Hr as (e0 & <- & _). cbn [estimate_of sigma_bb_per_hand
                                         sharpe_ratio].
      split; [reflexivity|]. split; [apply replace_inf_not_infinite|].
      split; [apply sharpe_of_no_spread|].
      intros Hfin.
      destruct (div (mu_bb_per_hand e0) (sqrt (sigma2_bb_per_hand e0)));
        cbn in *; congruence.
Qed.

(** ** The Kelly fraction *)

Lemma py_clamp_range (k : float) :
  let c := py_max (py_min k (dec 25 100)) zero in
  is_nan c = true \/ (leb zero c = true /\ leb c (dec 25 100) = true).
Proof.
  cbn zeta. unfold py_min, py_max, gtb.
  destruct (ltb (dec 25 100) k) eqn:Hk.
  - right. vm_compute. auto.
  - destruct (ltb_false_nan_or_ge _ _ Hk) as [Hn|[Hn|Hle]];
      [vm_compute in Hn; discriminate| |].
    + left. destruct k; try discriminate. reflexivity.
    + destruct (ltb k zero) eqn:Hz.
      * right. vm_compute. auto.
      * right. destruct (ltb_false_nan_or_ge _ _ Hz) as [Hn|[Hn|Hge]].
        -- apply leb_not_nan_l in Hle. congruence.
        -- vm_compute in Hn. discriminate.
        -- auto.
Qed.

(** X14. [estimate_kelly_criterion] returns [(0.0, 0.0)] for a standard
    deviation equal to zero without dividing. Whatever it returns, the
    fraction is NaN or lies between 0 and 0.25, and for a non-zero standard
    deviation the bet is the fraction times the bankroll. A standard
    deviation that is not zero but whose square is (an underflow) makes the
    call raise [ZeroDivisionError]; and a NaN mean passes both caps, giving
    a NaN fraction and a NaN bet. *)
Theorem kelly_fraction_clamped
  (float_pow : float -> float -> attempt float) (mu sigma bankroll : float) :
  let result := estimate_kelly_criterion float_pow mu sigma bankroll in
  (eqb sigma zero = true -> result = Returns (zero, zero)) /\
  (forall k bet, result = Returns (k, bet) ->
     (is_nan k = true \/ (leb zero k = true /\ leb k (dec 25 100) = true)) /\
     (eqb sigma zero = false -> bet = mul k bankroll)) /\
  (forall sigma_squared,
     eqb sigma zero = false ->
     float_pow sigma (of_Z 2) = Returns sigma_squared ->
     (eqb sigma_squared zero = true ->
      result = Raises (ZeroDivisionError "float division by zero")) /\
     (is_nan mu = true -> eqb sigma_squared zero = false ->
      result = Returns (nan, nan))).
Proof.
  cbn zeta. unfold estimate_kelly_criterion. split; [|split].
  - now intros ->.
  - intros k bet. destruct (eqb sigma zero).
    + intros [= <- <-]. split; [|discriminate]. right. split; reflexivity.
    + destruct (float_pow sigma (of_Z 2)) as [s2|e]; cbn [abind];
        [|discriminate].
      unfold float_truediv. destruct (eqb s2 zero); cbn [abind];
        [discriminate|].
      intros [= <- <-]. split; [apply py_clamp_range|reflexivity].
  - intros s2 Hs Hpow. rewrite Hs, Hpow. cbn [abind]. unfold float_truediv.
    split.
    + now intros ->.
    + intros Hmu ->. cbn [abind]. destruct mu; try discriminate.
      reflexivity.
Qed.

(** ** Bootstrap intervals *)

Lemma dict_set_fresh {V : Type} (k : string) (v : V)
  (d : list (string * V)) :
  ~ In k (map fst d) ->
  dict_set String.eqb k v d = d ++ [(k, v)].
Proof.
  induction d as [|[k' v'] rest IH]; cbn [dict_set map fst In app];
    intros Hk; [reflexivity|].
  destruct (String.eqb_spec k' k); [tauto|]. f_equal. apply IH. tauto.
Qed.

Section BootstrapFacts.

Variable rng : Type.
Variable random_choice : list float -> nat -> rng -> list float * rng.
Variable np_mean : list float -> float.
Variable np_std : list float -> float.
Variable np_percentile : list float -> float -> float.

(** The generator after [k] resamples of [stake_data] drawn from state
    [s]. *)
Fixpoint resample_state (stake_data : list float) (k : nat) (s : rng)
  : rng :=
  match k with
  | O => s
  | S k' =>
      resample_state stake_data k'
        (snd (random_choice stake_data (length stake_data) s))
  end.

(** The resample of round [k]: as many values as the stake has, chosen
    from the stake's values by the generator the rounds before left. *)
Definition resample (stake_data : list float) (k : nat) (s : rng)
  : list float :=
  fst (random_choice stake_data (length stake_data)
         (resample_state stake_data k s)).

(** The means of the first [n] resamples. *)
Definition resampled_means (stake_data : list float) (n : nat) (s : rng)
  : list float :=
  map (fun k => np_mean (resample stake_data k s)) (seq 0 n).

(** The entry made of an array of means. *)
Definition summary (means : list float) : bootstrap_result :=
  {| b_mean := np_mean means;
     b_std := np_std means;
     ci_lower := np_percentile means (dec 25 10);
     ci_upper := np_percentile means (dec 975 10);
     ci_10_90 := (np_percentile means (of_Z 10),
                  np_percentile means (of_Z 90)) |}.

(** The per-hand results of a stake, in the order of the table. *)
Definition stake_values (df : list session) (stake : string) : list float :=
  map bb_per_hand (select_stake df stake).

(** The generator after the stakes of a list: every stake with five
    sessions or more has drawn its [n] resamples. *)
Fixpoint state_after (df : list session) (n : nat) (stakes : list string)
  (s : rng) : rng :=
  match stakes with
  | [] => s
  | x :: rest =>
      state_after df n rest
        (if (5 <=? length (select_stake df x))%nat
         then resample_state (stake_values df x) n s
         else s)
  end.

(** The stakes of a list that come before [stake]. *)
Fixpoint stakes_before (stake : string) (stakes : list string)
  : list string :=
  match stakes with
  | [] => []
  | x :: rest =>
      if String.eqb x stake then [] else x :: stakes_before stake rest
  end.

(** The entry of [stake]: the summary of its resampled means, drawn by the
    generator as the stakes before it left it. *)
Definition entry_of (df : list session) (n : nat) (stakes : list string)
  (s : rng) (stake : string) : string * bootstrap_result :=
  (stake,
   summary (resampled_means (stake_values df stake) n
              (state_after df n (stakes_before stake stakes) s))).

Lemma resample_state_succ (stake_data : list float) (k : nat) :
  forall s,
    resample_state stake_data (S k) s =
    snd (random_choice stake_data (length stake_data)
           (resample_state stake_data k s)).
Proof.
  induction k as [|k IH]; intros s; [reflexivity|].
  change (resample_state stake_data (S (S k)) s)
    with (resample_state stake_data (S k)
            (snd (random_choice stake_data (length stake_data) s))).
  rewrite IH. reflexivity.
Qed.

Lemma bootstrap_means_resampled (stake_data : list float) (n : nat) :
  forall s,
    bootstrap_means rng random_choice np_mean stake_data n s =
    (resampled_means stake_data n s, resample_state stake_data n s).
Proof.
  unfold resampled_means, resample.
  induction n as [|n IH]; intros s; cbn [bootstrap_means]; [reflexivity|].
  destruct (random_choice stake_data (length stake_data) s) as [b s1] eqn:Hc.
  rewrite IH. cbn [seq map]. rewrite <- seq_shift, map_map.
  cbn [resample_state]. rewrite Hc. reflexivity.
Qed.

Lemma resampled_means_length (stake_data : list float) (n : nat) (s : rng) :
  length (resampled_means stake_data n s) = n.
Proof. unfold resampled_means. now rewrite length_map, length_seq. Qed.

Lemma bootstrap_loop_spec (df : list session) (n_bootstrap : Z)
  (stakes : list string) :
  NoDup stakes ->
  forall acc s,
    (forall k, In k (map fst acc) -> ~ In k stakes) ->
    bootstrap_loop rng random_choice np_mean np_std np_percentile
      df n_bootstrap stakes acc s =
    (acc ++
     map (entry_of df (Z.to_nat n_bootstrap) stakes s)
         (filter (fun stake => (5 <=? length (select_stake df stake))%nat)
                 stakes),
     state_after df (Z.to_nat n_bootstrap) stakes s).
Proof.
  induction 1 as [|stake rest Hs Hnd IH]; intros acc s Hacc;
    cbn [bootstrap_loop filter state_after].
  - cbn [map]. now rewrite app_nil_r.
  - assert (Hentry : forall x, In x rest ->
              entry_of df (Z.to_nat n_bootstrap) (stake :: rest) s x =
              entry_of df (Z.to_nat n_bootstrap) rest
                (if (5 <=? length (select_stake df stake))%nat
                 then resample_state (stake_values df stake)
                        (Z.to_nat n_bootstrap) s
                 else s) x).
    { intros x Hx. unfold entry_of. cbn [stakes_before].
      destruct (String.eqb_spec stake x) as [->|_]; [contradiction|].
      reflexivity. }
    rewrite length_map.
    destruct (Nat.ltb_spec (length (select_stake df stake)) 5),
             (Nat.leb_spec 5 (length (select_stake df stake))); try lia.
    + rewrite IH by (intros k Hk Hin; apply (Hacc k Hk); now right).
      f_equal. f_equal. apply map_ext_in. intros x Hx.
      apply filter_In in Hx. symmetry. apply Hentry. tauto.
    + fold (stake_values df stake). rewrite bootstrap_means_resampled.
      rewrite dict_set_fresh
        by (intros Hk; apply (Hacc stake Hk); now left).
      rewrite IH.
      * rewrite <- app_assoc. cbn [app map]. f_equal. f_equal. f_equal.
        -- unfold entry_of. cbn [stakes_before state_after].
           now rewrite String.eqb_refl.
        -- apply map_ext_in. intros x Hx.
           apply filter_In in Hx. symmetry. apply Hentry. tauto.
      * intros k Hk Hin. rewrite map_app in Hk. apply in_app_or in Hk.
        destruct Hk as [Hk|[<-|[]]]; [|contradiction].
        apply (Hacc k Hk). now right.
Qed.

End BootstrapFacts.

(** X15. With at least one round, [bootstrap_confidence_intervals] returns
    one entry per stake with at least five sessions, in the order in which
    the stakes first appear in the sessions table. The entry of a stake
    holds the mean, the standard deviation and the percentiles 2.5, 97.5,
    10 and 90 of [n_bootstrap] means: the mean of round [k] is [np.mean] of
    what [np.random.choice] returns for that stake's per-hand results and
    their number, from the generator as seed 42 and all the draws before
    left it -- those of the stakes before, then those of the rounds
    before. The generator is left after the draws of all stakes. Every
    stake with an entry also has a row from [estimate_mu_sigma_by_stake];
    a stake with three or four sessions has a row and no entry. *)
Theorem bootstrap_stakes (rng : Type) (seed_state : Z -> rng)
  (random_choice : list float -> nat -> rng -> list float * rng)
  (np_mean np_std : list float -> float)
  (np_percentile : list float -> float -> float)
  (start_sign : bool) (t_ppf : float -> Z -> float)
  (df : list session) (n_bootstrap : Z) (s : rng) :
  1 <= n_bootstrap ->
  let n := Z.to_nat n_bootstrap in
  let stakes := unique (map stake_text df) in
  let sampled :=
    filter (fun stake => (5 <=? length (select_stake df stake))%nat) stakes in
  let state_of stake :=
    state_after rng random_choice df n (stakes_before stake stakes)
      (seed_state 42) in
  let results :=
    bootstrap_confidence_intervals rng seed_state random_choice
      np_mean np_std np_percentile df n_bootstrap s in
  map fst (fst results) = sampled /\
  fst results =
  map (fun stake =>
         (stake,
          summary np_mean np_std np_percentile
            (map (fun k =>
                    np_mean
                      (fst (random_choice
                              (stake_values df stake)
                              (length (select_stake df stake))
                              (resample_state rng random_choice
                                 (stake_values df stake) k
                                 (state_of stake)))))
                 (seq 0 n))))
      sampled /\
  snd results = state_after rng random_choice df n stakes (seed_state 42) /\
  (forall stake, In stake (map fst (fst results)) ->
     In stake
        (map e_stake_text (estimate_mu_sigma_by_stake start_sign t_ppf df))) /\
  (forall stake,
     (3 <= length (select_stake df stake) < 5)%nat ->
     In stake
        (map e_stake_text (estimate_mu_sigma_by_stake start_sign t_ppf df)) /\
     ~ In stake (map fst (fst results))).
Proof.
  intros _. cbn zeta. unfold bootstrap_confidence_intervals.
  rewrite (bootstrap_loop_spec rng random_choice np_mean np_std
             np_percentile df n_bootstrap (unique (map stake_text df))
             (unique_NoDup _) [] (seed_state 42)) by (intros k []).
  cbn [fst snd app].
  assert (Hkeys :
    map fst
      (map (entry_of rng random_choice np_mean np_std np_percentile df
              (Z.to_nat n_bootstrap) (unique (map stake_text df))
              (seed_state 42))
           (filter (fun stake => (5 <=? length (select_stake df stake))%nat)
                   (unique (map stake_text df)))) =
    filter (fun stake => (5 <=? length (select_stake df stake))%nat)
           (unique (map stake_text df))).
  { rewrite map_map. cbn [entry_of fst]. apply map_id. }
  assert (Hest :
    map e_stake_text (estimate_mu_sigma_by_stake start_sign t_ppf df) =
    filter (fun stake => (3 <=? length (select_stake df stake))%nat)
           (unique (map stake_text df)))
    by (unfold estimate_mu_sigma_by_stake; apply estimate_loop_stakes).
  rewrite Hkeys.
  split; [reflexivity|]. split; [|split; [reflexivity|split]].
  - apply map_ext. intros stake. unfold entry_of, resampled_means, resample.
    unfold stake_values at 2. rewrite length_map. reflexivity.
  - intros stake Hin. rewrite Hest.
    apply filter_In in Hin. destruct Hin as [Hin H5]. apply filter_In.
    split; [exact Hin|]. apply Nat.leb_le in H5. apply Nat.leb_le. lia.
  - intros stake [H3 H5]. split.
    + rewrite Hest. apply filter_In. split; [|apply Nat.leb_le; lia].
      apply unique_In, select_stake_In.
      destruct (select_stake df stake); [cbn in H3; lia|discriminate].
    + intros Hin. apply filter_In in Hin.
      destruct Hin as [_ Hin]. apply Nat.leb_le in Hin. lia.
Qed.

End Estimate.

(* ================================================================== *)
(** * simulate.py *)
(* ================================================================== *)

Module Simulate.
Import F64 Np Prob.

(** The configuration dictionary: a key may be absent, and reading an
    absent key raises [KeyError]. *)
Record config : Type := mk_config {
  n_simulations : option Z;
  time_horizons : option (list Z);
  current_bankroll_bb : option float;
  drawdown_thresholds : option (list float)
}.

Definition getitem {A : Type} (field : option A) (key : string)
  : outcome A :=
  match field with
  | Some v => Ok v
  | None => Raise (KeyError key)
  end.

(** ** Risk metrics of a paths array (pure functions) *)

(** [calculate_risk_of_ruin]. *)
Definition calculate_risk_of_ruin (bankroll_paths : ndarray)
  (ruin_threshold : float) : outcome prob :=
  obind (amin_axis1 bankroll_paths) (fun min_bankrolls =>
  let ruin_count :=
    count_true (map (fun m => leb m ruin_threshold) min_bankrolls) in
  Ok (true_divide ruin_count (nrows bankroll_paths))).

(** Two thresholds are one key of [drawdown_probs] when they are equal as
    numbers (a NaN equals nothing, the thresholds of the list being
    distinct objects). *)
Definition threshold_key_eqb (a b : float) : bool := eqb a b.

(** The body of the loop of [calculate_drawdown_probabilities] for one
    threshold: the probability stored under it. *)
Definition drawdown_probability (bankroll_paths : ndarray)
  (threshold : float) : outcome prob :=
  let running_max := maximum_accumulate_axis1 bankroll_paths in
  let drawdowns := subtract running_max bankroll_paths in
  obind (amax_axis1 drawdowns) (fun max_drawdowns =>
  let drawdown_count :=
    count_true (map (fun d => geb d threshold) max_drawdowns) in
  Ok (true_divide drawdown_count (nrows bankroll_paths))).

Fixpoint drawdown_loop (bankroll_paths : ndarray)
  (thresholds : list float) (drawdown_probs : list (float * prob))
  : outcome (list (float * prob)) :=
  match thresholds with
  | [] => Ok drawdown_probs
  | threshold :: rest =>
      obind (drawdown_probability bankroll_paths threshold) (fun p =>
      drawdown_loop bankroll_paths rest
        (dict_set threshold_key_eqb threshold p drawdown_probs))
  end.

(** [calculate_drawdown_probabilities]. *)
Definition calculate_drawdown_probabilities (bankroll_paths : ndarray)
  (drawdown_thresholds : list float) : outcome (list (float * prob)) :=
  drawdown_loop bankroll_paths drawdown_thresholds [].

(** ** The result table *)

(** The column names of a result row. The horizon and the threshold are
    formatted into the names; two names are equal exactly when they are
    built from equal values. *)
Inductive column : Type :=
| c_stake_text
| c_mu
| c_sigma
| c_sigma2
| c_ror (n_hands : Z)
| c_final_mean (n_hands : Z)
| c_final_std (n_hands : Z)
| c_final_p10 (n_hands : Z)
| c_final_p90 (n_hands : Z)
| c_dd (dd_threshold : float) (n_hands : Z).

Inductive cell : Type :=
| Text (s : string)
| Num (x : float)
| Ratio (p : prob).

Definition float_eq_dec (x y : float) : {x = y} + {x <> y}.
Proof.
  decide equality; auto using Bool.bool_dec, Pos.eq_dec, Z.eq_dec.
Defined.

Definition column_eq_dec (x y : column) : {x = y} + {x <> y}.
Proof.
  decide equality; auto using Z.eq_dec, float_eq_dec.
Defined.

Definition column_eqb (x y : column) : bool :=
  if column_eq_dec x y then true else false.

Definition result_row : Type := list (column * cell).

Definition setitem (k : column) (v : cell) (d : result_row) : result_row :=
  dict_set column_eqb k v d.

(** ** [calculate_bankroll_requirements] *)

(** One row of the requirements table. *)
Record requirement : Type := mk_requirement {
  q_stake_text : string;
  required_bankroll_bb : Z;
  required_buyins : float;
  q_mu : float;
  q_sigma : float
}.

(** The body of the loop for one row of the estimates. The branch for a
    winning player starts by evaluating [stats.norm.ppf]; [simulate.py]
    imports [numpy], [pandas] and three names of [typing], and binds no
    [stats]: the name lookup raises [NameError] and nothing of the branch
    after it runs. The other branch takes the integer default [5000], and
    [required_bb / 100] is the true division of two integers. *)
Definition requirement_body (row : Estimate.estimate)
  : attempt requirement :=
  let stake := Estimate.e_stake_text row in
  let mu := Estimate.mu_bb_per_hand row in
  let sigma := sqrt (Estimate.sigma2_bb_per_hand row) in
  if gtb mu zero && gtb sigma zero then Raises (NameError "stats")
  else
    let required_bb := 5000 in
    Returns {| q_stake_text := stake;
               required_bankroll_bb := required_bb;
               required_buyins := div (of_Z required_bb) (of_Z 100);
               q_mu := mu;
               q_sigma := sigma |}.

Fixpoint requirements_loop (estimates_df : list Estimate.estimate)
  (requirements : list requirement) : attempt (list requirement) :=
  match estimates_df with
  | [] => Returns requirements
  | row :: rest =>
      abind (requirement_body row) (fun r =>
      requirements_loop rest (requirements ++ [r]))
  end.

Definition calculate_bankroll_requirements
  (estimates_df : list Estimate.estimate) (risk_tolerance : float)
  : attempt (list requirement) :=
  requirements_loop estimates_df [].

(** ** Notions for the statements about arrays and result rows *)

(** A path that never falls: each entry is at least the one before. *)
Fixpoint rising_from (x : float) (t : list float) : bool :=
  match t with
  | [] => true
  | y :: t' => leb x y && rising_from y t'
  end.

Definition rising (row : list float) : bool :=
  match row with
  | [] => true
  | x :: t => rising_from x t
  end.

(** No two keys of the list are equal as numbers. *)
Fixpoint distinct_keys (ks : list float) : Prop :=
  match ks with
  | [] => True
  | k :: t => Forall (fun k' => threshold_key_eqb k k' = false) t /\
              distinct_keys t
  end.

(** The horizon a column of the result table belongs to. *)
Definition horizon_of (k : column) : option Z :=
  match k with
  | c_ror h | c_final_mean h | c_final_std h | c_final_p10 h
  | c_final_p90 h | c_dd _ h => Some h
  | _ => None
  end.

(** The columns one horizon adds to a result row, in the order in which
    the loop body assigns them. *)
Definition horizon_columns (thresholds : list float) (h : Z) : list column :=
  [c_ror h; c_final_mean h; c_final_std h; c_final_p10 h; c_final_p90 h] ++
  map (fun t => c_dd t h) thresholds.

Section Simulator.

(** NumPy's global generator: its states, the state [np.random.seed]
    installs, and one standard-normal draw, which returns the next state. *)
Variable rng : Type.
Variable seed_state : Z -> rng.
Variable legacy_gauss : rng -> float * rng.

(** [np.mean], [np.std] and [np.percentile] of a one-dimensional array. *)
Variable np_mean : list float -> float.
Variable np_std : list float -> float.
Variable np_percentile : list float -> float -> float.

(** ** Computations on the generator *)

Definition M (A : Type) : Type := rng -> outcome A * rng.

Definition ret {A : Type} (a : A) : M A := fun s => (Ok a, s).

Definition raise {A : Type} (e : exn) : M A := fun s => (Raise e, s).

Definition bind {A B : Type} (m : M A) (k : A -> M B) : M B :=
  fun s =>
    match m s with
    | (Ok a, s') => k a s'
    | (Raise e, s') => (Raise e, s')
    end.

Definition lift {A : Type} (o : outcome A) : M A := fun s => (o, s).

Local Notation "x <- m ;; k" := (bind m (fun x => k))
  (at level 61, m at next level, right associativity).

(** [np.random.seed(v)]. *)
Definition random_seed (v : Z) : M unit := fun _ => (Ok tt, seed_state v).

(** One row of [np.random.normal]: each value is [loc + scale * z] for the
    next standard-normal draw [z]. *)
Fixpoint draw_row (loc scale : float) (n : nat) (s : rng)
  : list float * rng :=
  match n with
  | O => ([], s)
  | S n' =>
      let (z, s1) := legacy_gauss s in
      let (r, s2) := draw_row loc scale n' s1 in
      (add loc (mul scale z) :: r, s2)
  end.

(** The rows are filled one after the other. *)
Fixpoint draw_rows (loc scale : float) (n m : nat) (s : rng)
  : list (list float) * rng :=
  match n with
  | O => ([], s)
  | S n' =>
      let (r, s1) := draw_row loc scale m s in
      let (rs, s2) := draw_rows loc scale n' m s1 in
      (r :: rs, s2)
  end.

(** NumPy refuses a scale with the sign bit set (NaN passes). *)
Definition scale_ok (scale : float) : bool :=
  is_nan scale || negb (signbit scale).

(** [np.random.normal(loc, scale, (n, m))]. *)
Definition random_normal (loc scale : float) (n m : Z) : M ndarray :=
  fun s =>
    if negb (scale_ok scale) then (Raise (ValueError "scale < 0"), s)
    else if (n <? 0) || (m <? 0)
    then (Raise (ValueError "negative dimensions are not allowed"), s)
    else
      let (rs, s') := draw_rows loc scale (Z.to_nat n) (Z.to_nat m) s in
      (Ok (mk_ndarray (Z.to_nat n) (Z.to_nat m) rs), s').

(** ** [simulate_bankroll_paths] *)
Definition simulate_bankroll_paths (mu sigma initial_bankroll : float)
  (n_hands n_simulations : Z) : M ndarray :=
  _ <- random_seed 42 ;;
  returns <- random_normal mu sigma n_simulations n_hands ;;
  let cumulative_returns := cumsum_axis1 returns in
  let bankroll_paths :=
    column_stack (full (Z.to_nat n_simulations) initial_bankroll)
                 (scalar_add initial_bankroll cumulative_returns) in
  ret bankroll_paths.

(** ** [run_stake_simulations] *)

(** The body of the loop over the time horizons, for one horizon. *)
Definition horizon_body (mu sigma : float) (cfg : config) (n_hands : Z)
  (stake_results : result_row) : M result_row :=
  bankroll <- lift (getitem (current_bankroll_bb cfg) "current_bankroll_bb") ;;
  n_sims <- lift (getitem (n_simulations cfg) "n_simulations") ;;
  paths <- simulate_bankroll_paths mu sigma bankroll n_hands n_sims ;;
  ror <- lift (calculate_risk_of_ruin paths zero) ;;
  thresholds <- lift (getitem (drawdown_thresholds cfg) "drawdown_thresholds") ;;
  drawdown_probs <- lift (calculate_drawdown_probabilities paths thresholds) ;;
  final_bankrolls <- lift (last_column paths) ;;
  let stake_results := setitem (c_ror n_hands) (Ratio ror) stake_results in
  let stake_results :=
    setitem (c_final_mean n_hands) (Num (np_mean final_bankrolls))
            stake_results in
  let stake_results :=
    setitem (c_final_std n_hands) (Num (np_std final_bankrolls))
            stake_results in
  let stake_results :=
    setitem (c_final_p10 n_hands)
            (Num (np_percentile final_bankrolls (of_Z 10))) stake_results in
  let stake_results :=
    setitem (c_final_p90 n_hands)
            (Num (np_percentile final_bankrolls (of_Z 90))) stake_results in
  ret (fold_left
         (fun acc kv => setitem (c_dd (fst kv) n_hands) (Ratio (snd kv)) acc)
         drawdown_probs stake_results).

Fixpoint horizons_loop (mu sigma : float) (cfg : config)
  (horizons : list Z) (stake_results : result_row) : M result_row :=
  match horizons with
  | [] => ret stake_results
  | n_hands :: rest =>
      stake_results <- horizon_body mu sigma cfg n_hands stake_results ;;
      horizons_loop mu sigma cfg rest stake_results
  end.

(** The body of the loop over the rows of the estimates table. *)
Definition stake_body (stake_row : Estimate.estimate) (cfg : config)
  : M result_row :=
  let stake := Estimate.e_stake_text stake_row in
  let mu := Estimate.mu_bb_per_hand stake_row in
  let sigma := sqrt (Estimate.sigma2_bb_per_hand stake_row) in
  let stake_results :=
    [ (c_stake_text, Text stake);
      (c_mu, Num mu);
      (c_sigma, Num sigma);
      (c_sigma2, Num (Estimate.sigma2_bb_per_hand stake_row)) ] in
  horizons <- lift (getitem (time_horizons cfg) "time_horizons") ;;
  horizons_loop mu sigma cfg horizons stake_results.

Fixpoint stakes_loop (estimates_df : list Estimate.estimate) (cfg : config)
  (simulation_results : list result_row) : M (list result_row) :=
  match estimates_df with
  | [] => ret simulation_results
  | stake_row :: rest =>
      stake_results <- stake_body stake_row cfg ;;
      stakes_loop rest cfg (simulation_results ++ [stake_results])
  end.

Definition run_stake_simulations (estimates_df : list Estimate.estimate)
  (cfg : config) : M (list result_row) :=
  stakes_loop estimates_df cfg [].

(** ** Notions the statements are worded in *)

(** The generator after [k] draws, and the [k]-th draw from a state. *)
Fixpoint advance (k : nat) (s : rng) : rng :=
  match k with
  | O => s
  | S k' => advance k' (snd (legacy_gauss s))
  end.

Definition gauss_at (s : rng) (k : nat) : float :=
  fst (legacy_gauss (advance k s)).

(** The [k]-th per-hand increment drawn after seeding: a Normal(mu, sigma)
    sample. *)
Definition increment (mu sigma : float) (k : nat) : float :=
  add mu (mul sigma (gauss_at (seed_state 42) k)).

(** The sum of the increments [incr 0 .. incr t], added in this order. *)
Fixpoint cumulative (incr : nat -> float) (t : nat) : float :=
  match t with
  | O => incr O
  | S t' => add (cumulative incr t') (incr (S t'))
  end.

(** The rows of a simulated paths array, in closed form. *)
Definition path_row (mu sigma initial_bankroll : float) (m i : nat)
  : list float :=
  initial_bankroll ::
  map (fun t =>
         add initial_bankroll
             (cumulative (fun j => increment mu sigma (i * m + j)) t))
      (seq 0 m).

(** A computation is deterministic when it does not read the state it is
    started in: either it never touches the generator, or it seeds it
    before drawing. *)
Definition deterministic {A : Type} (m : M A) : Prop :=
  (forall s1 s2, m s1 = m s2) \/ (exists o, forall s, m s = (o, s)).

(** The simulator for one stake and one horizon, as the loop body runs it:
    risk of ruin, drawdown map and the statistics of the last column. *)
Definition bankroll_simulator (mu sigma initial_bankroll : float)
  (n_hands n_trials : Z) (thresholds : list float)
  : M (prob * list (float * prob) * (float * float * float * float)) :=
  paths <- simulate_bankroll_paths mu sigma initial_bankroll n_hands n_trials ;;
  ror <- lift (calculate_risk_of_ruin paths zero) ;;
  drawdown_probs <- lift (calculate_drawdown_probabilities paths thresholds) ;;
  final_bankrolls <- lift (last_column paths) ;;
  ret (ror, drawdown_probs,
       (np_mean final_bankrolls, np_std final_bankrolls,
        np_percentile final_bankrolls (of_Z 10),
        np_percentile final_bankrolls (of_Z 90))).

(** No entry of the row is NaN. *)
Definition no_nan (r : list float) : bool :=
  forallb (fun x => negb (is_nan x)) r.

(** A trial is ruined when the minimum of its path is at most the
    threshold. *)
Definition ruined (threshold : float) (row : list float) : bool :=
  leb (reduce minimum row) threshold.

(** The maximum drawdown of one trial: the largest gap between the running
    maximum and the current value. *)
Definition max_drawdown (row : list float) : float :=
  reduce maximum (zip_with sub (accumulate maximum row) row).

(** The probability [calculate_drawdown_probabilities] stores under a
    threshold. *)
Definition drawdown_ratio (paths : ndarray) (threshold : float) : prob :=
  true_divide
    (length (filter (fun row => geb (max_drawdown row) threshold)
                    (rows paths)))
    (nrows paths).

(** Every entry holds the ratio of its key. *)
Definition ratios_of (paths : ndarray) (d : list (float * prob)) : Prop :=
  forall k v, In (k, v) d -> v = drawdown_ratio paths k.

(** The dictionary has a key equal to [t]. *)
Definition has_key (t : float) (d : list (float * prob)) : Prop :=
  exists k v, In (k, v) d /\ threshold_key_eqb k t = true.

(** Every entry of the row is finite. *)
Definition all_finite (r : list float) : Prop :=
  Forall (fun x => is_finite x = true) r.

(** The risk of ruin of a fresh simulation, as the loop body computes
    it. *)
Definition simulated_risk_of_ruin (mu sigma initial_bankroll : float)
  (n_hands n_simulations : Z) : M prob :=
  paths <- simulate_bankroll_paths mu sigma initial_bankroll
             n_hands n_simulations ;;
  lift (calculate_risk_of_ruin paths zero).

(** The running sum of [t + 1] equal increments [mu], as [np.cumsum]
    adds them. *)
Definition drift_sum (mu : float) (t : nat) : float :=
  cumulative (fun _ => mu) t.

(** The path every trial follows when no noise is added. *)
Definition drift_path (mu initial_bankroll : float) (m : nat) : list float :=
  initial_bankroll ::
  map (fun t => add initial_bankroll (drift_sum mu t)) (seq 0 m).

(** The stake a result row is labelled with. *)
Definition stake_of (row : result_row) : option cell :=
  dict_get column_eqb c_stake_text row.

(** ** The simulated paths in closed form *)

Lemma advance_add (a b : nat) (s : rng) :
  advance (a + b) s = advance b (advance a s).
Proof. revert s. induction a as [|a IH]; intros s; cbn; auto. Qed.

Lemma draw_row_spec (loc scale : float) (n : nat) (s : rng) :
  draw_row loc scale n s =
  (map (fun j => add loc (mul scale (gauss_at s j))) (seq 0 n), advance n s).
Proof.
  revert s. induction n as [|n IH]; intros s; [reflexivity|].
  cbn [draw_row]. destruct (legacy_gauss s) as [z s1] eqn:Hz.
  rewrite IH. cbn [seq map advance]. rewrite <- seq_shift, map_map.
  unfold gauss_at at 2. cbn [advance]. rewrite Hz. cbn [fst snd].
  f_equal. f_equal. apply map_ext. intros j. unfold gauss_at.
  cbn [advance]. now rewrite Hz.
Qed.

Lemma draw_rows_spec (loc scale : float) (n m : nat) (s : rng) :
  draw_rows loc scale n m s =
  (map (fun i =>
          map (fun j => add loc (mul scale (gauss_at s (i * m + j))))
              (seq 0 m))
       (seq 0 n),
   advance (n * m) s).
Proof.
  revert s. induction n as [|n IH]; intros s; [reflexivity|].
  cbn [draw_rows]. rewrite draw_row_spec, IH.
  cbn [seq map]. rewrite <- seq_shift, map_map.
  replace (S n * m)%nat with (m + n * m)%nat by lia.
  rewrite advance_add. f_equal. f_equal.
  apply map_ext. intros i. apply map_ext. intros j.
  unfold gauss_at. rewrite <- advance_add.
  replace (S i * m + j)%nat with (m + (i * m + j))%nat by lia. reflexivity.
Qed.

Lemma accumulate_from_cumulative (incr : nat -> float) (k m : nat) :
  accumulate_from add (cumulative incr k) (map incr (seq (S k) m)) =
  map (cumulative incr) (seq (S k) m).
Proof.
  revert k. induction m as [|m IH]; intros k; [reflexivity|].
  cbn [seq map accumulate_from]. f_equal. apply (IH (S k)).
Qed.

Lemma accumulate_cumulative (incr : nat -> float) (m : nat) :
  accumulate add (map incr (seq 0 m)) = map (cumulative incr) (seq 0 m).
Proof.
  destruct m as [|m]; [reflexivity|].
  cbn [seq map accumulate]. f_equal. apply (accumulate_from_cumulative incr 0).
Qed.

Lemma zip_with_repeat {A B C : Type} (f : A -> B -> C) (x : A) (l : list B) :
  zip_with f (repeat x (length l)) l = map (f x) l.
Proof. induction l as [|y t IH]; cbn; congruence. Qed.

Lemma zip_with_repeat_n {A B C : Type} (f : A -> B -> C) (x : A)
  (n : nat) (l : list B) :
  length l = n -> zip_with f (repeat x n) l = map (f x) l.
Proof. intros <-. apply zip_with_repeat. Qed.

Lemma simulate_bankroll_paths_spec (mu sigma initial_bankroll : float)
  (n_hands n_simulations : Z) (s : rng) :
  scale_ok sigma = true -> 0 <= n_hands -> 0 <= n_simulations ->
  simulate_bankroll_paths mu sigma initial_bankroll n_hands n_simulations s =
  (Ok (mk_ndarray (Z.to_nat n_simulations) (S (Z.to_nat n_hands))
         (map (path_row mu sigma initial_bankroll (Z.to_nat n_hands))
              (seq 0 (Z.to_nat n_simulations)))),
   advance (Z.to_nat n_simulations * Z.to_nat n_hands) (seed_state 42)).
Proof.
  intros Hs Hh Hn.
  unfold simulate_bankroll_paths, bind, random_seed, random_normal, ret.
  rewrite Hs. cbn [negb].
  destruct (Z.ltb_spec n_simulations 0); [lia|].
  destruct (Z.ltb_spec n_hands 0); [lia|]. cbn [orb].
  rewrite draw_rows_spec.
  unfold column_stack, scalar_add, cumsum_axis1, map_rows, full.
  cbn [nrows ncols rows].
  rewrite zip_with_repeat_n by (now rewrite !length_map, length_seq).
  rewrite !map_map. do 3 f_equal. apply map_ext. intros i.
  unfold path_row. f_equal.
  rewrite (accumulate_cumulative
             (fun j => increment mu sigma (i * Z.to_nat n_hands + j))).
  now rewrite map_map.
Qed.

Lemma nth_error_map_seq {A : Type} (f : nat -> A) (n i : nat) :
  (i < n)%nat -> nth_error (map f (seq 0 n)) i = Some (f i).
Proof.
  intros Hi. rewrite nth_error_map, nth_error_seq.
  destruct (Nat.ltb_spec i n); [reflexivity|lia].
Qed.

Lemma path_row_length (mu sigma initial_bankroll : float) (m i : nat) :
  length (path_row mu sigma initial_bankroll m i) = S m.
Proof. unfold path_row. cbn. now rewrite length_map, length_seq. Qed.

Lemma simulate_bankroll_paths_returns (mu sigma initial_bankroll : float)
  (n_hands n_simulations : Z) (s s' : rng) (paths : ndarray) :
  simulate_bankroll_paths mu sigma initial_bankroll n_hands n_simulations s
    = (Ok paths, s') ->
  scale_ok sigma = true /\ 0 <= n_hands /\ 0 <= n_simulations.
Proof.
  unfold simulate_bankroll_paths, bind, random_seed, random_normal.
  destruct (scale_ok sigma); cbn [negb]; [|discriminate].
  destruct (Z.ltb_spec n_simulations 0); cbn [orb]; [discriminate|].
  destruct (Z.ltb_spec n_hands 0); cbn [orb]; [discriminate|].
  intros _. auto.
Qed.

(** C1. A call returns whenever the scale and the sizes are admissible,
    and the array a call returns has shape [(n_simulations, n_hands + 1)];
    in every trial [i] entry [0] is the initial bankroll and entry [t + 1]
    is the initial bankroll plus the running sum of the trial's first
    [t + 1] increments, each a Normal(mu, sigma) draw [mu + sigma * z] of
    the generator seeded with 42. *)
Theorem C1_simulated_paths (mu sigma initial_bankroll : float)
  (n_hands n_simulations : Z) (s : rng) :
  (scale_ok sigma = true -> 0 <= n_hands -> 0 <= n_simulations ->
   is_ok (fst (simulate_bankroll_paths mu sigma initial_bankroll
                 n_hands n_simulations s)) = true) /\
  forall paths s',
    simulate_bankroll_paths mu sigma initial_bankroll n_hands n_simulations s
      = (Ok paths, s') ->
    nrows paths = Z.to_nat n_simulations /\
    ncols paths = S (Z.to_nat n_hands) /\
    well_shaped paths /\
    forall i, (i < Z.to_nat n_simulations)%nat ->
      exists row,
        nth_error (rows paths) i = Some row /\
        nth_error row 0 = Some initial_bankroll /\
        forall t, (t < Z.to_nat n_hands)%nat ->
          nth_error row (S t) =
          Some (add initial_bankroll
                  (cumulative
                     (fun j => increment mu sigma (i * Z.to_nat n_hands + j))
                     t)).
Proof.
  split.
  { intros Hs Hh Hn. now rewrite simulate_bankroll_paths_spec. }
  intros paths s' H.
  destruct (simulate_bankroll_paths_returns _ _ _ _ _ _ _ _ H)
    as (Hs & Hh & Hn).
  rewrite simulate_bankroll_paths_spec in H by auto.
  injection H as <- _.
  cbn [nrows ncols rows]. repeat split.
  - cbn [rows nrows]. now rewrite length_map, length_seq.
  - cbn [rows ncols]. apply Forall_forall. intros r Hr.
    apply in_map_iff in Hr. destruct Hr as (i & <- & _).
    apply path_row_length.
  - intros i Hi. eexists. split; [now apply nth_error_map_seq|].
    split; [reflexivity|]. intros t Ht. unfold path_row.
    cbn [nth_error]. now rewrite nth_error_map_seq.
Qed.

(** ** Independence from the generator's state *)

Lemma deterministic_outcome {A : Type} (m : M A) :
  deterministic m -> forall s1 s2, fst (m s1) = fst (m s2).
Proof.
  intros [H|[o H]] s1 s2; [now rewrite (H s1 s2) | now rewrite !H].
Qed.

Lemma deterministic_lift {A : Type} (o : outcome A) : deterministic (lift o).
Proof. right. exists o. reflexivity. Qed.

Lemma deterministic_ret {A : Type} (a : A) : deterministic (ret a).
Proof. right. exists (Ok a). reflexivity. Qed.

Lemma deterministic_bind {A B : Type} (m : M A) (k : A -> M B) :
  deterministic m -> (forall a, deterministic (k a)) ->
  deterministic (bind m k).
Proof.
  intros [Hm|[o Hm]] Hk.
  - left. intros s1 s2. unfold bind. now rewrite (Hm s1 s2).
  - destruct o as [a|e].
    + destruct (Hk a) as [Ha|[o Ha]].
      * left. intros s1 s2. unfold bind. rewrite !Hm. apply Ha.
      * right. exists o. intros s. unfold bind. rewrite Hm. apply Ha.
    + right. exists (Raise e). intros s. unfold bind. now rewrite Hm.
Qed.

Lemma deterministic_simulate (mu sigma initial_bankroll : float)
  (n_hands n_simulations : Z) :
  deterministic
    (simulate_bankroll_paths mu sigma initial_bankroll n_hands n_simulations).
Proof. left. intros s1 s2. reflexivity. Qed.

Lemma deterministic_horizon_body (mu sigma : float) (cfg : config)
  (n_hands : Z) (stake_results : result_row) :
  deterministic (horizon_body mu sigma cfg n_hands stake_results).
Proof.
  unfold horizon_body.
  repeat (apply deterministic_bind;
          [first [apply deterministic_lift | apply deterministic_simulate]
          | intros ?]).
  apply deterministic_ret.
Qed.

Lemma deterministic_horizons_loop (mu sigma : float) (cfg : config)
  (horizons : list Z) :
  forall stake_results,
    deterministic (horizons_loop mu sigma cfg horizons stake_results).
Proof.
  induction horizons as [|h rest IH]; intros stake_results;
    cbn [horizons_loop].
  - apply deterministic_ret.
  - apply deterministic_bind; auto using deterministic_horizon_body.
Qed.

Lemma deterministic_stake_body (stake_row : Estimate.estimate)
  (cfg : config) : deterministic (stake_body stake_row cfg).
Proof.
  unfold stake_body. apply deterministic_bind.
  - apply deterministic_lift.
  - intros horizons. apply deterministic_horizons_loop.
Qed.

Lemma deterministic_stakes_loop (estimates_df : list Estimate.estimate)
  (cfg : config) :
  forall acc, deterministic (stakes_loop estimates_df cfg acc).
Proof.
  induction estimates_df as [|r rest IH]; intros acc; cbn [stakes_loop].
  - apply deterministic_ret.
  - apply deterministic_bind; auto using deterministic_stake_body.
Qed.

(** C5. Whatever state the generator is in when they start -- whatever
    was drawn before or in between -- two runs on equal arguments return
    the same paths, hence the same risk of ruin, drawdown map and terminal
    statistics, and the same table from [run_stake_simulations]; they also
    leave the generator in the same state. *)
Theorem C5_reproducible (mu sigma initial_bankroll : float)
  (n_hands n_trials : Z) (thresholds : list float)
  (estimates_df : list Estimate.estimate) (cfg : config) (s1 s2 : rng) :
  simulate_bankroll_paths mu sigma initial_bankroll n_hands n_trials s1 =
  simulate_bankroll_paths mu sigma initial_bankroll n_hands n_trials s2 /\
  bankroll_simulator mu sigma initial_bankroll n_hands n_trials thresholds s1 =
  bankroll_simulator mu sigma initial_bankroll n_hands n_trials thresholds s2 /\
  fst (run_stake_simulations estimates_df cfg s1) =
  fst (run_stake_simulations estimates_df cfg s2).
Proof.
  split; [reflexivity|]. split; [reflexivity|].
  apply deterministic_outcome, deterministic_stakes_loop.
Qed.

(** ** Minimum and maximum along a row *)

Lemma minimum_cases (a b : float) :
  is_nan a = false -> is_nan b = false ->
  is_nan (minimum a b) = false /\
  leb (minimum a b) a = true /\ leb (minimum a b) b = true /\
  (minimum a b = a \/ minimum a b = b).
Proof.
  intros Ha Hb. unfold minimum. rewrite Ha, orb_false_r.
  destruct (leb a b) eqn:Hab.
  - repeat split; auto using leb_refl.
  - destruct (leb_total a b Ha Hb); [congruence|].
    repeat split; auto using leb_refl.
Qed.

Lemma maximum_cases (a b : float) :
  is_nan a = false -> is_nan b = false ->
  is_nan (maximum a b) = false /\
  leb a (maximum a b) = true /\ leb b (maximum a b) = true /\
  (maximum a b = a \/ maximum a b = b).
Proof.
  intros Ha Hb. unfold maximum, geb. rewrite Ha, orb_false_r.
  destruct (leb b a) eqn:Hab.
  - repeat split; auto using leb_refl.
  - destruct (leb_total a b Ha Hb); [|congruence].
    repeat split; auto using leb_refl.
Qed.

Lemma minimum_nan_l (b : float) : minimum nan b = nan.
Proof. reflexivity. Qed.

Lemma minimum_nan_r (a : float) : is_nan (minimum a nan) = true.
Proof. unfold minimum. destruct a; reflexivity. Qed.

Lemma fold_minimum_nan (t : list float) : fold_left minimum t nan = nan.
Proof. induction t as [|y t IH]; cbn; auto. Qed.

(** Without NaN the folded minimum is an element below all of them. *)
Lemma fold_minimum_spec (t : list float) :
  forall x, is_nan x = false -> no_nan t = true ->
    let m := fold_left minimum t x in
    is_nan m = false /\ In m (x :: t) /\
    forall y, In y (x :: t) -> leb m y = true.
Proof.
  induction t as [|z t IH]; intros x Hx Ht; cbn [fold_left].
  - cbn. repeat split; auto. intros y [<-|[]]. now apply leb_refl.
  - cbn [no_nan forallb] in Ht. apply andb_prop in Ht.
    destruct Ht as [Hz Ht]. apply negb_true_iff in Hz.
    destruct (minimum_cases x z Hx Hz) as (Hn & Hmx & Hmz & Hor).
    destruct (IH (minimum x z) Hn Ht) as (Hm & Hin & Hle).
    split; [exact Hm|]. split.
    + destruct Hin as [Hin|Hin]; [|right; now right].
      rewrite <- Hin. destruct Hor as [->| ->]; [now left|right; now left].
    + intros y [<-|[<-|Hy]].
      * eapply leb_trans; [apply Hle; now left|exact Hmx].
      * eapply leb_trans; [apply Hle; now left|exact Hmz].
      * apply Hle. now right.
Qed.

(** With a NaN anywhere the folded minimum is NaN. *)
Lemma fold_minimum_has_nan (t : list float) :
  forall x, no_nan (x :: t) = false -> is_nan (fold_left minimum t x) = true.
Proof.
  induction t as [|z t IH]; intros x H; cbn [fold_left].
  - cbn in H. rewrite andb_true_r in H. now apply negb_false_iff in H.
  - apply IH. cbn [no_nan forallb] in *.
    destruct (is_nan x) eqn:Hx.
    + destruct x; try discriminate. reflexivity.
    + cbn [negb andb] in H. destruct (is_nan z) eqn:Hz.
      * destruct z; try discriminate.
        rewrite minimum_nan_r. reflexivity.
      * destruct (minimum_cases x z Hx Hz) as (Hn & _).
        rewrite Hn. exact H.
Qed.

Lemma fold_maximum_spec (t : list float) :
  forall x, is_nan x = false -> no_nan t = true ->
    let m := fold_left maximum t x in
    is_nan m = false /\ In m (x :: t) /\
    forall y, In y (x :: t) -> leb y m = true.
Proof.
  induction t as [|z t IH]; intros x Hx Ht; cbn [fold_left].
  - cbn. repeat split; auto. intros y [<-|[]]. now apply leb_refl.
  - cbn [no_nan forallb] in Ht. apply andb_prop in Ht.
    destruct Ht as [Hz Ht]. apply negb_true_iff in Hz.
    destruct (maximum_cases x z Hx Hz) as (Hn & Hmx & Hmz & Hor).
    destruct (IH (maximum x z) Hn Ht) as (Hm & Hin & Hle).
    split; [exact Hm|]. split.
    + destruct Hin as [Hin|Hin]; [|right; now right].
      rewrite <- Hin. destruct Hor as [->| ->]; [now left|right; now left].
    + intros y [<-|[<-|Hy]].
      * eapply leb_trans; [exact Hmx|apply Hle; now left].
      * eapply leb_trans; [exact Hmz|apply Hle; now left].
      * apply Hle. now right.
Qed.

(** The test [np.min(row) <= threshold], read off the row. *)
Lemma reduce_minimum_leb (r : list float) (threshold : float) :
  r <> [] ->
  leb (reduce minimum r) threshold = true <->
  no_nan r = true /\ exists x, In x r /\ leb x threshold = true.
Proof.
  destruct r as [|x t]; [congruence|]. intros _. cbn [reduce].
  destruct (no_nan (x :: t)) eqn:Hn.
  - cbn [no_nan forallb] in Hn. apply andb_prop in Hn.
    destruct Hn as [Hx Ht]. apply negb_true_iff in Hx.
    destruct (fold_minimum_spec t x Hx Ht) as (Hm & Hin & Hle).
    split.
    + intros H. split; [reflexivity|]. eauto.
    + intros (_ & y & Hy & Hyt).
      apply leb_trans with y; [apply Hle; exact Hy | exact Hyt].
  - pose proof (fold_minimum_has_nan t x Hn) as Hnan.
    split; [|intros [? _]; discriminate].
    intros H. apply leb_not_nan_l in H. congruence.
Qed.

Lemma count_true_map {A : Type} (f : A -> bool) (l : list A) :
  count_true (map f l) = length (filter f l).
Proof.
  unfold count_true. induction l as [|x t IH]; cbn; auto.
  destruct (f x); cbn; auto.
Qed.

Lemma filter_length_le {A : Type} (f : A -> bool) (l : list A) :
  (length (filter f l) <= length l)%nat.
Proof. induction l as [|x t IH]; cbn; [lia|]. destruct (f x); cbn; lia. Qed.

Lemma filter_length_mono {A : Type} (f g : A -> bool) (l : list A) :
  (forall x, In x l -> f x = true -> g x = true) ->
  (length (filter f l) <= length (filter g l))%nat.
Proof.
  induction l as [|x t IH]; intros H; cbn; [lia|].
  assert (IH' : (length (filter f t) <= length (filter g t))%nat)
    by (apply IH; intros; apply H; cbn; auto).
  destruct (f x) eqn:Hf.
  - rewrite (H x) by (cbn; auto). cbn. lia.
  - destruct (g x); cbn; lia.
Qed.

Lemma filter_all {A : Type} (f : A -> bool) (l : list A) :
  (forall x, In x l -> f x = true) -> filter f l = l.
Proof.
  induction l as [|x t IH]; intros H; cbn; auto.
  rewrite (H x) by (cbn; auto). f_equal. apply IH. intros; apply H; cbn; auto.
Qed.

Lemma filter_none {A : Type} (f : A -> bool) (l : list A) :
  (forall x, In x l -> f x = false) -> filter f l = [].
Proof.
  induction l as [|x t IH]; intros H; cbn; auto.
  rewrite (H x) by (cbn; auto). apply IH. intros; apply H; cbn; auto.
Qed.

Lemma calculate_risk_of_ruin_eq (paths : ndarray) (threshold : float) :
  (1 <= ncols paths)%nat ->
  calculate_risk_of_ruin paths threshold =
  Ok (true_divide (length (filter (ruined threshold) (rows paths)))
                  (nrows paths)).
Proof.
  intros Hc. unfold calculate_risk_of_ruin, amin_axis1.
  destruct (Nat.eqb_spec (ncols paths) 0); [lia|]. cbn [obind].
  now rewrite map_map, count_true_map.
Qed.

(** C2. On an array with at least one trial and one column,
    [calculate_risk_of_ruin] with threshold 0 returns the number of trials
    whose minimum over the whole path is at most 0, divided by the number
    of trials, a value in [0, 1]. A trial counts exactly when its path
    holds no NaN and some entry, the initial one included, is at most 0. *)
Theorem C2_risk_of_ruin (paths : ndarray) :
  well_shaped paths -> (1 <= nrows paths)%nat -> (1 <= ncols paths)%nat ->
  let ruin_count := length (filter (ruined zero) (rows paths)) in
  calculate_risk_of_ruin paths zero =
    Ok (true_divide ruin_count (nrows paths)) /\
  in_unit_interval (true_divide ruin_count (nrows paths)) /\
  forall row, In row (rows paths) ->
    (ruined zero row = true <->
     no_nan row = true /\ exists x, In x row /\ leb x zero = true).
Proof.
  intros [Hlen Hrows] Hn Hc ruin_count. split; [|split].
  - now apply calculate_risk_of_ruin_eq.
  - apply true_divide_bounds; auto. subst ruin_count. rewrite <- Hlen.
    apply filter_length_le.
  - intros row Hrow. apply reduce_minimum_leb.
    rewrite Forall_forall in Hrows. specialize (Hrows row Hrow).
    destruct row; [cbn in Hrows; lia|congruence].
Qed.

(** ** Drawdowns *)

Lemma zip_with_map_self {A B C : Type} (f : B -> A -> C) (g : A -> B)
  (l : list A) :
  zip_with f (map g l) l = map (fun x => f (g x) x) l.
Proof. induction l as [|x t IH]; cbn; congruence. Qed.

Lemma drawdown_probability_eq (paths : ndarray) (threshold : float) :
  (1 <= ncols paths)%nat ->
  drawdown_probability paths threshold = Ok (drawdown_ratio paths threshold).
Proof.
  intros Hc. unfold drawdown_probability, amax_axis1, subtract,
    maximum_accumulate_axis1, map_rows. cbn [ncols nrows rows].
  destruct (Nat.eqb_spec (ncols paths) 0); [lia|]. cbn [obind].
  rewrite zip_with_map_self, !map_map, count_true_map. reflexivity.
Qed.

Lemma drawdown_ratio_eqb (paths : ndarray) (k t : float) :
  eqb k t = true -> drawdown_ratio paths k = drawdown_ratio paths t.
Proof.
  intros H. unfold drawdown_ratio. do 2 f_equal.
  apply filter_ext. intros row. unfold geb. now apply leb_eqb_l.
Qed.

(** The dictionary after the loop: each threshold in turn stored with its
    ratio. *)
Lemma drawdown_loop_eq (paths : ndarray) (thresholds : list float) :
  (1 <= ncols paths)%nat ->
  forall acc,
    drawdown_loop paths thresholds acc =
    Ok (fold_left
          (fun d t => dict_set threshold_key_eqb t (drawdown_ratio paths t) d)
          thresholds acc).
Proof.
  intros Hc. induction thresholds as [|t rest IH]; intros acc;
    cbn [drawdown_loop fold_left]; [reflexivity|].
  rewrite drawdown_probability_eq by auto. cbn [obind]. apply IH.
Qed.

Lemma dict_set_ratios (paths : ndarray) (t : float)
  (d : list (float * prob)) :
  ratios_of paths d ->
  ratios_of paths (dict_set threshold_key_eqb t (drawdown_ratio paths t) d).
Proof.
  unfold ratios_of. induction d as [|[k' v'] rest IH]; intros H k v;
    cbn [dict_set].
  - intros [[= <- <-]|[]]. reflexivity.
  - destruct (threshold_key_eqb k' t) eqn:Hk.
    + intros [[= <- <-]|Hin].
      * symmetry. now apply drawdown_ratio_eqb.
      * apply H. now right.
    + intros [[= <- <-]|Hin].
      * apply H. now left.
      * apply IH; auto. intros k0 v0 H0. apply H. now right.
Qed.

Lemma dict_set_has_key_new (t : float) (p : prob) (d : list (float * prob)) :
  is_nan t = false -> has_key t (dict_set threshold_key_eqb t p d).
Proof.
  intros Ht. induction d as [|[k' v'] rest IH]; cbn [dict_set].
  - exists t, p. split; [now left|]. now apply eqb_refl.
  - destruct (threshold_key_eqb k' t) eqn:Hk.
    + exists k', p. split; [now left|exact Hk].
    + destruct IH as (k & v & Hin & Hkt). exists k, v. split; [now right|auto].
Qed.

Lemma dict_set_has_key_old (t t' : float) (p : prob)
  (d : list (float * prob)) :
  has_key t d -> has_key t (dict_set threshold_key_eqb t' p d).
Proof.
  intros (k & v & Hin & Hk). induction d as [|[k' v'] rest IH];
    cbn [dict_set]; [destruct Hin|].
  destruct Hin as [[= -> ->]|Hin].
  - destruct (threshold_key_eqb k t') eqn:Hk'.
    + exists k, p. split; [now left|exact Hk].
    + exists k, v. split; [now left|exact Hk].
  - destruct (IH Hin) as (k0 & v0 & Hin0 & Hk0).
    destruct (threshold_key_eqb k' t') eqn:Hk'.
    + exists k, v. split; [now right|exact Hk].
    + exists k0, v0. split; [now right|exact Hk0].
Qed.

Lemma dict_get_has_key (t : float) (d : list (float * prob)) :
  has_key t d ->
  exists k v, dict_get threshold_key_eqb t d = Some v /\ In (k, v) d /\
              threshold_key_eqb k t = true.
Proof.
  intros (k & v & Hin & Hk). induction d as [|[k' v'] rest IH];
    cbn [dict_get]; [destruct Hin|].
  destruct (threshold_key_eqb k' t) eqn:Hk'.
  - exists k', v'. repeat split; auto. now left.
  - destruct Hin as [[= -> ->]|Hin]; [congruence|].
    destruct (IH Hin) as (k0 & v0 & Hget & Hin0 & Hk0).
    exists k0, v0. repeat split; auto. now right.
Qed.

Lemma fold_dict_set_spec (paths : ndarray) (thresholds : list float) :
  forall acc, ratios_of paths acc ->
    let d := fold_left
               (fun d t =>
                  dict_set threshold_key_eqb t (drawdown_ratio paths t) d)
               thresholds acc in
    ratios_of paths d /\
    (forall t, has_key t acc -> has_key t d) /\
    (forall t, In t thresholds -> is_nan t = false -> has_key t d).
Proof.
  induction thresholds as [|t0 rest IH]; intros acc Hacc; cbn [fold_left].
  - repeat split; auto. intros t [].
  - destruct (IH _ (dict_set_ratios paths t0 acc Hacc)) as (Hr & Hold & Hnew).
    repeat split; auto.
    + intros t Ht. apply Hold. now apply dict_set_has_key_old.
    + intros t [<-|Hin] Hn; [|now apply Hnew].
      apply Hold. now apply dict_set_has_key_new.
Qed.

(** What the returned dictionary holds under a threshold it was given. *)
Lemma calculate_drawdown_probabilities_get (paths : ndarray)
  (thresholds : list float) (t : float) :
  (1 <= ncols paths)%nat -> In t thresholds -> is_nan t = false ->
  exists d,
    calculate_drawdown_probabilities paths thresholds = Ok d /\
    dict_get threshold_key_eqb t d = Some (drawdown_ratio paths t).
Proof.
  intros Hc Hin Hn. unfold calculate_drawdown_probabilities.
  rewrite drawdown_loop_eq by auto. eexists. split; [reflexivity|].
  destruct (fold_dict_set_spec paths thresholds [])
    as (Hr & _ & Hnew); [intros k v []|].
  destruct (dict_get_has_key t _ (Hnew t Hin Hn))
    as (k & v & Hget & Hkin & Hk).
  rewrite Hget. f_equal. rewrite (Hr k v Hkin).
  now apply drawdown_ratio_eqb.
Qed.

Lemma calculate_drawdown_probabilities_columns (paths : ndarray)
  (thresholds : list float) (d : list (float * prob)) :
  thresholds <> [] ->
  calculate_drawdown_probabilities paths thresholds = Ok d ->
  (1 <= ncols paths)%nat.
Proof.
  destruct thresholds as [|t rest]; [congruence|]. intros _.
  unfold calculate_drawdown_probabilities. cbn [drawdown_loop].
  unfold drawdown_probability, amax_axis1, subtract,
    maximum_accumulate_axis1, map_rows. cbn [ncols].
  destruct (Nat.eqb_spec (ncols paths) 0); [discriminate|lia].
Qed.

(** C7 (amended). On an array with at least one trial, for two thresholds
    [T1 < T2] among those passed, the probability returned for [T1] is at
    least the one returned for [T2]; the function returns as soon as the
    array has a column. *)
Theorem C7_drawdown_monotone (paths : ndarray) (thresholds : list float)
  (T1 T2 : float) :
  (1 <= nrows paths)%nat ->
  In T1 thresholds -> In T2 thresholds -> ltb T1 T2 = true ->
  ((1 <= ncols paths)%nat ->
   is_ok (calculate_drawdown_probabilities paths thresholds) = true) /\
  forall d,
    calculate_drawdown_probabilities paths thresholds = Ok d ->
    exists p1 p2,
      dict_get threshold_key_eqb T1 d = Some p1 /\
      dict_get threshold_key_eqb T2 d = Some p2 /\
      pgeb p1 p2 = true.
Proof.
  intros Hn H1 H2 Hlt. split.
  { intros Hc. unfold calculate_drawdown_probabilities.
    now rewrite drawdown_loop_eq. }
  intros d Hd.
  assert (Hc : (1 <= ncols paths)%nat).
  { apply (calculate_drawdown_probabilities_columns paths thresholds d);
      auto. intros ->. destruct H1. }
  pose proof (ltb_leb _ _ Hlt) as Hle.
  destruct (calculate_drawdown_probabilities_get paths thresholds T1 Hc H1
              (leb_not_nan_l _ _ Hle)) as (d1 & Hd1 & Hg1).
  destruct (calculate_drawdown_probabilities_get paths thresholds T2 Hc H2
              (leb_not_nan_r _ _ Hle)) as (d2 & Hd2 & Hg2).
  assert (d1 = d) by congruence. assert (d2 = d) by congruence. subst d1 d2.
  exists (drawdown_ratio paths T1), (drawdown_ratio paths T2).
  repeat split; auto.
  unfold drawdown_ratio. apply true_divide_mono; auto.
  apply filter_length_mono. intros row _. unfold geb. intros H.
  now apply leb_trans with T2.
Qed.

(** ** Drawdowns of finite paths *)

Lemma maximum_finite (a b : float) :
  is_finite a = true -> is_finite b = true -> is_finite (maximum a b) = true.
Proof. intros Ha Hb. unfold maximum. destruct (_ || _); auto. Qed.

Lemma drawdowns_no_nan (t : list float) :
  forall acc, is_finite acc = true -> all_finite t ->
    no_nan (zip_with sub (accumulate_from maximum acc t) t) = true.
Proof.
  induction t as [|x t IH]; intros acc Hacc Ht; [reflexivity|].
  inversion_clear Ht as [|? ? Hx Ht'].
  cbn [accumulate_from zip_with no_nan forallb].
  pose proof (maximum_finite acc x Hacc Hx) as Hm.
  rewrite sub_finite_not_nan by auto. cbn [negb andb].
  now apply IH.
Qed.

(** The drawdown at the first step is [+0.0], so the maximum drawdown of
    a finite path is a number and is at least zero. *)
Lemma max_drawdown_nonneg (row : list float) :
  row <> [] -> all_finite row -> leb zero (max_drawdown row) = true.
Proof.
  destruct row as [|x t]; [congruence|]. intros _ Hrow.
  inversion_clear Hrow as [|? ? Hx Ht].
  unfold max_drawdown. cbn [accumulate zip_with reduce].
  rewrite sub_self by auto.
  destruct (fold_maximum_spec
              (zip_with sub (accumulate_from maximum x t) t) zero)
    as (_ & _ & Hle); auto using drawdowns_no_nan.
  apply Hle. now left.
Qed.

Lemma drawdown_ratio_nonpositive (paths : ndarray) (T : float) :
  well_shaped paths -> (1 <= nrows paths)%nat -> (1 <= ncols paths)%nat ->
  Forall all_finite (rows paths) -> leb T zero = true ->
  drawdown_ratio paths T = PVal 1.
Proof.
  intros [Hlen Hrows] Hn Hc Hfin HT. unfold drawdown_ratio.
  rewrite filter_all.
  - rewrite Hlen. now apply true_divide_all.
  - intros row Hrow. unfold geb. apply leb_trans with zero; auto.
    rewrite Forall_forall in Hrows, Hfin.
    apply max_drawdown_nonneg; auto.
    specialize (Hrows row Hrow). destruct row; [cbn in Hrows; lia|congruence].
Qed.

(** C10 (amended). For every array that [simulate_bankroll_paths]
    returns for at least one trial, if all its entries are finite, the
    probability returned for a threshold [T <= 0] -- the threshold 0
    included -- is exactly 1: the drawdown at the initial step is [+0.0],
    so the maximum drawdown is a number and at least zero. *)
Theorem C10_nonpositive_threshold (mu sigma initial_bankroll : float)
  (n_hands n_simulations : Z) (s s' : rng) (paths : ndarray)
  (thresholds : list float) (T : float) :
  simulate_bankroll_paths mu sigma initial_bankroll n_hands n_simulations s
    = (Ok paths, s') ->
  1 <= n_simulations ->
  Forall all_finite (rows paths) ->
  In T thresholds -> leb T zero = true ->
  exists d,
    calculate_drawdown_probabilities paths thresholds = Ok d /\
    dict_get threshold_key_eqb T d = Some (PVal 1).
Proof.
  intros Hrun Hn Hfin Hin HT.
  destruct (simulate_bankroll_paths_returns _ _ _ _ _ _ _ _ Hrun)
    as (Hs & Hh & _).
  rewrite simulate_bankroll_paths_spec in Hrun by (auto; lia).
  injection Hrun as <- _.
  set (paths := mk_ndarray _ _ _) in *.
  assert (Hw : well_shaped paths).
  { split; cbn [rows nrows ncols paths].
    - now rewrite length_map, length_seq.
    - apply Forall_forall. intros r Hr. apply in_map_iff in Hr.
      destruct Hr as (i & <- & _). apply path_row_length. }
  assert (Hc : (1 <= ncols paths)%nat) by (cbn; lia).
  assert (Hr : (1 <= nrows paths)%nat) by (cbn; lia).
  destruct (calculate_drawdown_probabilities_get paths thresholds T Hc Hin
              (leb_not_nan_l _ _ HT)) as (d & Hd & Hget).
  exists d. split; [exact Hd|].
  now rewrite Hget, drawdown_ratio_nonpositive.
Qed.

(** ** A zero standard deviation *)

Lemma cumulative_ext (f g : nat -> float) (t : nat) :
  (forall j, f j = g j) -> cumulative f t = cumulative g t.
Proof. intros H. induction t as [|t IH]; cbn; congruence. Qed.

Section ZeroSigma.

Hypothesis gauss_finite : forall s, is_finite (fst (legacy_gauss s)) = true.

Lemma increment_zero_sigma (mu : float) (k : nat) :
  pos mu \/ neg mu -> increment mu zero k = mu.
Proof.
  intros Hmu. unfold increment, zero.
  rewrite mul_zero_l by apply gauss_finite. now apply add_zero_r.
Qed.

Lemma path_row_zero_sigma (mu initial_bankroll : float) (m i : nat) :
  pos mu \/ neg mu ->
  path_row mu zero initial_bankroll m i = drift_path mu initial_bankroll m.
Proof.
  intros Hmu. unfold path_row, drift_path. f_equal.
  apply map_ext. intros t. f_equal. unfold drift_sum.
  apply cumulative_ext. intros j. now apply increment_zero_sigma.
Qed.

(** With [sigma = 0] the risk of ruin is 1 or 0 according to whether the
    one path all trials share is ruined. *)
Lemma simulated_risk_zero_sigma (mu initial_bankroll : float)
  (n_hands n_simulations : Z) (s : rng) :
  pos mu \/ neg mu -> 0 <= n_hands -> 1 <= n_simulations ->
  fst (simulated_risk_of_ruin mu zero initial_bankroll
         n_hands n_simulations s) =
  Ok (if ruined zero (drift_path mu initial_bankroll (Z.to_nat n_hands))
      then PVal 1 else PVal 0).
Proof.
  intros Hmu Hh Hn. unfold simulated_risk_of_ruin, bind.
  rewrite simulate_bankroll_paths_spec by (auto; lia).
  unfold lift. cbn [fst].
  rewrite calculate_risk_of_ruin_eq by (cbn; lia).
  cbn [rows nrows]. f_equal.
  rewrite (map_ext _ (fun _ => drift_path mu initial_bankroll
                                 (Z.to_nat n_hands)))
    by (intros i; now apply path_row_zero_sigma).
  assert (Hlen : length (map (fun _ : nat =>
                    drift_path mu initial_bankroll (Z.to_nat n_hands))
                    (seq 0 (Z.to_nat n_simulations)))
                 = Z.to_nat n_simulations)
    by now rewrite length_map, length_seq.
  destruct (ruined zero _) eqn:Hr.
  - rewrite filter_all.
    + rewrite Hlen. apply true_divide_all. lia.
    + intros row Hrow. apply in_map_iff in Hrow.
      destruct Hrow as (_ & <- & _). exact Hr.
  - rewrite filter_none.
    + apply true_divide_zero. lia.
    + intros row Hrow. apply in_map_iff in Hrow.
      destruct Hrow as (_ & <- & _). exact Hr.
Qed.

Lemma drift_sum_pos (mu : float) (t : nat) :
  pos mu -> exp_ok mu -> pos (drift_sum mu t) /\ exp_ok (drift_sum mu t).
Proof.
  intros Hp He. unfold drift_sum.
  induction t as [|t [IHp IHe]]; cbn [cumulative]; auto.
  now apply add_pos.
Qed.

Lemma drift_path_pos (mu initial_bankroll : float) (m : nat) :
  pos mu -> exp_ok mu -> pos initial_bankroll -> exp_ok initial_bankroll ->
  forall x, In x (drift_path mu initial_bankroll m) -> pos x.
Proof.
  intros Hmu Hemu Hb Heb x [<-|Hx]; [exact Hb|].
  apply in_map_iff in Hx. destruct Hx as (t & <- & _).
  destruct (drift_sum_pos mu t Hmu Hemu) as [Hp He].
  now apply add_pos.
Qed.

Lemma drift_sum_not_nan (mu : float) (t : nat) :
  is_finite mu = true -> is_nan (drift_sum mu t) = false.
Proof.
  intros Hmu. unfold drift_sum.
  induction t as [|t IH]; cbn [cumulative].
  - now apply is_finite_not_nan.
  - now apply add_finite_r_not_nan.
Qed.

Lemma drift_path_no_nan (mu initial_bankroll : float) (m : nat) :
  is_finite mu = true -> is_finite initial_bankroll = true ->
  no_nan (drift_path mu initial_bankroll m) = true.
Proof.
  intros Hmu Hb. unfold no_nan. apply forallb_forall.
  intros x [<-|Hx]; apply negb_true_iff.
  - now apply is_finite_not_nan.
  - apply in_map_iff in Hx. destruct Hx as (t & <- & _).
    apply add_finite_l_not_nan; auto using drift_sum_not_nan.
Qed.

(** C6 (amended). With [sigma = +0.0], a positive initial bankroll and at
    least one trial: for [mu > 0] the risk of ruin is exactly 0 at every
    horizon; for a finite [mu < 0] and a finite initial bankroll it is
    exactly 1 as soon as the last value of the path -- the initial bankroll
    plus the running sum of [mu] over [n_hands] hands -- is at most 0. *)
Theorem C6_zero_sigma (mu initial_bankroll : float)
  (n_hands n_simulations : Z) (s : rng) :
  0 <= n_hands -> 1 <= n_simulations -> ltb zero initial_bankroll = true ->
  (ltb zero mu = true -> valid mu = true -> valid initial_bankroll = true ->
   fst (simulated_risk_of_ruin mu zero initial_bankroll
          n_hands n_simulations s) = Ok (PVal 0)) /\
  (ltb mu zero = true -> is_finite mu = true ->
   is_finite initial_bankroll = true -> 1 <= n_hands ->
   leb (add initial_bankroll (drift_sum mu (Z.to_nat n_hands - 1))) zero
     = true ->
   fst (simulated_risk_of_ruin mu zero initial_bankroll
          n_hands n_simulations s) = Ok (PVal 1)).
Proof.
  intros Hh Hn Hb. apply pos_iff in Hb. split.
  - intros Hmu Hvm Hvb. apply pos_iff in Hmu.
    rewrite simulated_risk_zero_sigma by auto.
    destruct (ruined zero _) eqn:Hr; [|reflexivity]. exfalso.
    apply reduce_minimum_leb in Hr; [|discriminate].
    destruct Hr as (_ & x & Hx & Hle).
    apply drift_path_pos in Hx; auto using valid_exp_ok.
    apply pos_not_le_zero in Hx. congruence.
  - intros Hmu Hfm Hfb Hh1 Hlast. apply neg_iff in Hmu.
    rewrite simulated_risk_zero_sigma by auto.
    destruct (ruined zero _) eqn:Hr; [reflexivity|]. exfalso.
    assert (Ht : ruined zero
                   (drift_path mu initial_bankroll (Z.to_nat n_hands))
                 = true); [|congruence].
    apply reduce_minimum_leb; [discriminate|].
    split; [now apply drift_path_no_nan|].
    eexists. split; [|exact Hlast].
    right. apply in_map_iff. exists (Z.to_nat n_hands - 1)%nat.
    split; [reflexivity|]. apply in_seq. lia.
Qed.

End ZeroSigma.

(** ** The rows of the result table *)

Lemma column_eqb_eq (x y : column) : column_eqb x y = true <-> x = y.
Proof.
  unfold column_eqb. destruct (column_eq_dec x y); split;
    auto; discriminate.
Qed.

Lemma setitem_stake_of (k : column) (v : cell) (row : result_row) :
  k <> c_stake_text -> stake_of (setitem k v row) = stake_of row.
Proof.
  intros Hk. unfold stake_of, setitem.
  induction row as [|[k' v'] rest IH]; cbn [dict_set dict_get].
  - destruct (column_eqb k c_stake_text) eqn:H; [|reflexivity].
    apply column_eqb_eq in H. contradiction.
  - destruct (column_eqb k' k) eqn:Hkk; cbn [dict_get].
    + apply column_eqb_eq in Hkk. subst k'.
      destruct (column_eqb k c_stake_text) eqn:H; [|reflexivity].
      apply column_eqb_eq in H. contradiction.
    + now rewrite IH.
Qed.

Lemma fold_setitem_dd_stake_of (n_hands : Z) (kvs : list (float * prob)) :
  forall row,
    stake_of (fold_left
                (fun acc kv =>
                   setitem (c_dd (fst kv) n_hands) (Ratio (snd kv)) acc)
                kvs row) = stake_of row.
Proof.
  induction kvs as [|kv rest IH]; intros row; cbn [fold_left]; auto.
  rewrite IH. now apply setitem_stake_of.
Qed.

Lemma bind_ok {A B : Type} (m : M A) (k : A -> M B) (s s' : rng) (b : B) :
  bind m k s = (Ok b, s') ->
  exists a s1, m s = (Ok a, s1) /\ k a s1 = (Ok b, s').
Proof.
  unfold bind. destruct (m s) as [[a|e] s1]; [eauto|discriminate].
Qed.

Lemma horizon_body_stake_of (mu sigma : float) (cfg : config) (n_hands : Z)
  (row row' : result_row) (s s' : rng) :
  horizon_body mu sigma cfg n_hands row s = (Ok row', s') ->
  stake_of row' = stake_of row.
Proof.
  unfold horizon_body. intros H.
  repeat (apply bind_ok in H; destruct H as (? & ? & _ & H)).
  injection H as <- _.
  rewrite fold_setitem_dd_stake_of.
  now rewrite !setitem_stake_of by discriminate.
Qed.

Lemma horizons_loop_stake_of (mu sigma : float) (cfg : config)
  (horizons : list Z) :
  forall row row' s s',
    horizons_loop mu sigma cfg horizons row s = (Ok row', s') ->
    stake_of row' = stake_of row.
Proof.
  induction horizons as [|h rest IH]; intros row row' s s';
    cbn [horizons_loop].
  - now intros [= <- _].
  - intros H. apply bind_ok in H. destruct H as (r1 & s1 & H1 & H).
    apply IH in H. apply horizon_body_stake_of in H1. congruence.
Qed.

Lemma stake_body_stake_of (e : Estimate.estimate) (cfg : config)
  (row : result_row) (s s' : rng) :
  stake_body e cfg s = (Ok row, s') ->
  stake_of row = Some (Text (Estimate.e_stake_text e)).
Proof.
  unfold stake_body. intros H.
  apply bind_ok in H. destruct H as (hs & s1 & _ & H).
  apply horizons_loop_stake_of in H. rewrite H. reflexivity.
Qed.

(** A table that is returned has one row per row of the estimates, in
    their order: no stake is dropped, whatever its parameters. *)
Lemma stakes_loop_stakes (estimates_df : list Estimate.estimate)
  (cfg : config) :
  forall acc rows s s',
    stakes_loop estimates_df cfg acc s = (Ok rows, s') ->
    map stake_of rows =
    map stake_of acc ++
    map (fun e => Some (Text (Estimate.e_stake_text e))) estimates_df.
Proof.
  induction estimates_df as [|e rest IH]; intros acc rows s s';
    cbn [stakes_loop].
  - intros [= <- _]. cbn. now rewrite app_nil_r.
  - intros H. apply bind_ok in H. destruct H as (row & s1 & Hrow & H).
    apply IH in H. rewrite H, map_app, <- app_assoc. cbn [map app].
    now rewrite (stake_body_stake_of _ _ _ _ _ Hrow).
Qed.

(** ** When the run succeeds *)

Lemma scale_ok_sqrt (x : float) :
  x <> S754_zero true -> scale_ok (sqrt x) = true.
Proof.
  destruct x as [[|]|[|]| |[|] m e]; intros H; try reflexivity;
    [congruence|].
  unfold sqrt, SFsqrt.
  destruct (SFsqrt_core_binary prec emax (Zpos m) e) as [[mz ez] lz].
  unfold binary_round_aux.
  destruct (shr_fexp prec emax mz ez lz) as [mrs1 e1].
  destruct (shr_fexp prec emax _ e1 loc_Exact) as [mrs2 e2].
  destruct (shr_m mrs2); try reflexivity.
  destruct (e2 <=? emax - prec); reflexivity.
Qed.

(** One horizon with a complete configuration: the paths are simulated,
    every metric is computed, nothing raises. *)
Lemma horizon_body_ok (mu sigma bankroll : float) (n_sims n_hands : Z)
  (horizons : list Z) (thresholds : list float) (row : result_row)
  (s : rng) :
  scale_ok sigma = true -> 0 <= n_sims -> 0 <= n_hands ->
  exists row',
    horizon_body mu sigma
      (mk_config (Some n_sims) (Some horizons) (Some bankroll)
                 (Some thresholds))
      n_hands row s =
    (Ok row', advance (Z.to_nat n_sims * Z.to_nat n_hands) (seed_state 42)).
Proof.
  intros Hs Hn Hh. unfold horizon_body.
  cbn [current_bankroll_bb n_simulations drawdown_thresholds getitem].
  unfold bind at 1. unfold lift at 1.
  unfold bind at 1. unfold lift at 1.
  unfold bind at 1. rewrite simulate_bankroll_paths_spec by auto.
  unfold bind at 1. unfold lift at 1.
  rewrite calculate_risk_of_ruin_eq by (cbn; lia).
  unfold bind at 1. unfold lift at 1.
  unfold bind at 1. unfold lift at 1.
  unfold calculate_drawdown_probabilities.
  rewrite drawdown_loop_eq by (cbn; lia).
  unfold bind at 1. unfold lift at 1.
  unfold last_column. cbn [ncols Nat.eqb]. unfold ret. eauto.
Qed.

Lemma horizons_loop_ok (mu sigma bankroll : float) (n_sims : Z)
  (all_horizons : list Z) (thresholds : list float) (horizons : list Z) :
  scale_ok sigma = true -> 0 <= n_sims ->
  Forall (fun h => 0 <= h) horizons ->
  forall row s, exists row' s',
    horizons_loop mu sigma
      (mk_config (Some n_sims) (Some all_horizons) (Some bankroll)
                 (Some thresholds))
      horizons row s = (Ok row', s').
Proof.
  intros Hs Hn. induction 1 as [|h rest Hh _ IH]; intros row s;
    cbn [horizons_loop].
  - unfold ret. eauto.
  - destruct (horizon_body_ok mu sigma bankroll n_sims h all_horizons
                thresholds row s Hs Hn Hh) as (r1 & H1).
    unfold bind. rewrite H1. apply IH.
Qed.

Lemma stakes_loop_ok (n_sims : Z) (horizons : list Z) (bankroll : float)
  (thresholds : list float) (estimates_df : list Estimate.estimate) :
  0 <= n_sims -> Forall (fun h => 0 <= h) horizons ->
  Forall (fun e => Estimate.sigma2_bb_per_hand e <> S754_zero true)
         estimates_df ->
  forall acc s, exists rows s',
    stakes_loop estimates_df
      (mk_config (Some n_sims) (Some horizons) (Some bankroll)
                 (Some thresholds))
      acc s = (Ok rows, s').
Proof.
  intros Hn Hhs. induction 1 as [|e rest He _ IH]; intros acc s;
    cbn [stakes_loop].
  - unfold ret. eauto.
  - unfold bind at 1. unfold stake_body. cbn [time_horizons getitem].
    unfold bind at 1. unfold lift at 1.
    destruct (horizons_loop_ok
                (Estimate.mu_bb_per_hand e)
                (sqrt (Estimate.sigma2_bb_per_hand e)) bankroll n_sims
                horizons thresholds horizons (scale_ok_sqrt _ He) Hn Hhs
                [(c_stake_text, Text (Estimate.e_stake_text e));
                 (c_mu, Num (Estimate.mu_bb_per_hand e));
                 (c_sigma, Num (sqrt (Estimate.sigma2_bb_per_hand e)));
                 (c_sigma2, Num (Estimate.sigma2_bb_per_hand e))] s)
      as (row & s1 & Hrow).
    rewrite Hrow. apply IH.
Qed.

(** C8 (amended). [run_stake_simulations] filters nothing: with a complete
    configuration, non-negative horizons and at least one trial it returns
    a table with exactly one row per row of the estimates, in their order,
    whether or not a row's mean or variance is NaN (only the variance
    [-0.0], whose root NumPy refuses as a scale, is set aside). *)
Theorem C8_every_stake_simulated (estimates_df : list Estimate.estimate)
  (n_sims : Z) (horizons : list Z) (bankroll : float)
  (thresholds : list float) (s : rng) :
  1 <= n_sims -> Forall (fun h => 0 <= h) horizons ->
  Forall (fun e => Estimate.sigma2_bb_per_hand e <> S754_zero true)
         estimates_df ->
  exists rows s',
    run_stake_simulations estimates_df
      (mk_config (Some n_sims) (Some horizons) (Some bankroll)
                 (Some thresholds)) s = (Ok rows, s') /\
    map stake_of rows =
    map (fun e => Some (Text (Estimate.e_stake_text e))) estimates_df.
Proof.
  intros Hn Hhs Hest. unfold run_stake_simulations.
  destruct (stakes_loop_ok n_sims horizons bankroll thresholds estimates_df
              ltac:(lia) Hhs Hest [] s) as (rows & s' & H).
  exists rows, s'. split; [exact H|].
  now apply stakes_loop_stakes in H.
Qed.

(** C9 (amended). [run_stake_simulations] validates nothing before it
    starts. An empty estimates table returns the empty table under any
    configuration. With a row to simulate, an absent [time_horizons]
    raises [KeyError] before any simulation; an absent
    [drawdown_thresholds] raises [KeyError] only after the paths of the
    first horizon were drawn; a negative [n_simulations] is refused by
    NumPy inside the first simulation, after the generator was seeded; and
    with at least one trial and non-negative horizons any thresholds, the
    negative ones included, are accepted and a table is returned. In the
    last three cases the variances of the rows are not [-0.0], whose root
    NumPy refuses as a scale. *)
Theorem C9_configuration_not_validated (e : Estimate.estimate)
  (rest : list Estimate.estimate) (n_sims h : Z) (horizons : list Z)
  (bankroll : float) (thresholds : list float) (cfg : config) (s : rng) :
  run_stake_simulations [] cfg s = (Ok [], s) /\
  (time_horizons cfg = None ->
   run_stake_simulations (e :: rest) cfg s =
   (Raise (KeyError "time_horizons"), s)) /\
  (Estimate.sigma2_bb_per_hand e <> S754_zero true ->
   0 <= n_sims -> 0 <= h ->
   run_stake_simulations (e :: rest)
     (mk_config (Some n_sims) (Some (h :: horizons)) (Some bankroll) None) s =
   (Raise (KeyError "drawdown_thresholds"),
    advance (Z.to_nat n_sims * Z.to_nat h) (seed_state 42))) /\
  (Estimate.sigma2_bb_per_hand e <> S754_zero true ->
   n_sims < 0 ->
   run_stake_simulations (e :: rest)
     (mk_config (Some n_sims) (Some (h :: horizons)) (Some bankroll)
                (Some thresholds)) s =
   (Raise (ValueError "negative dimensions are not allowed"),
    seed_state 42)) /\
  (Forall (fun e' => Estimate.sigma2_bb_per_hand e' <> S754_zero true)
          (e :: rest) ->
   1 <= n_sims -> Forall (fun h' => 0 <= h') horizons ->
   is_ok (fst (run_stake_simulations (e :: rest)
                 (mk_config (Some n_sims) (Some horizons) (Some bankroll)
                            (Some thresholds)) s)) = true).
Proof.
  split; [reflexivity|]. split; [|split; [|split]].
  - intros Hnone. unfold run_stake_simulations. cbn [stakes_loop].
    unfold bind at 1. unfold stake_body. rewrite Hnone. reflexivity.
  - intros He Hn Hh. unfold run_stake_simulations. cbn [stakes_loop].
    unfold bind at 1. unfold stake_body. cbn [time_horizons getitem].
    unfold bind at 1. unfold lift at 1. cbn [horizons_loop].
    unfold bind at 1. unfold horizon_body.
    cbn [current_bankroll_bb n_simulations drawdown_thresholds getitem].
    unfold bind at 1. unfold lift at 1.
    unfold bind at 1. unfold lift at 1.
    unfold bind at 1.
    rewrite simulate_bankroll_paths_spec by auto using scale_ok_sqrt.
    unfold bind at 1. unfold lift at 1.
    rewrite calculate_risk_of_ruin_eq by (cbn; lia).
    unfold bind at 1. unfold lift at 1. reflexivity.
  - intros He Hn. unfold run_stake_simulations. cbn [stakes_loop].
    unfold bind at 1. unfold stake_body. cbn [time_horizons getitem].
    unfold bind at 1. unfold lift at 1. cbn [horizons_loop].
    unfold bind at 1. unfold horizon_body.
    cbn [current_bankroll_bb n_simulations drawdown_thresholds getitem].
    unfold bind at 1. unfold lift at 1.
    unfold bind at 1. unfold lift at 1.
    unfold bind at 1.
    unfold simulate_bankroll_paths, bind, random_seed, random_normal.
    rewrite scale_ok_sqrt by auto. cbn [negb].
    destruct (Z.ltb_spec n_sims 0); [|lia]. reflexivity.
  - intros Hest Hn Hhs. unfold run_stake_simulations.
    destruct (stakes_loop_ok n_sims horizons bankroll thresholds (e :: rest)
                ltac:(lia) Hhs Hest [] s) as (rows & s' & H).
    now rewrite H.
Qed.

(** ** More on the risk metrics *)

(** X1. On an array with at least one trial and one column, the risk of
    ruin grows with the ruin threshold: for [t1 <= t2] both calls return
    and the value for [t2] is at least the value for [t1]. *)
Theorem risk_of_ruin_monotone (paths : ndarray) (t1 t2 : float) :
  (1 <= nrows paths)%nat -> (1 <= ncols paths)%nat -> leb t1 t2 = true ->
  exists p1 p2,
    calculate_risk_of_ruin paths t1 = Ok p1 /\
    calculate_risk_of_ruin paths t2 = Ok p2 /\
    pgeb p2 p1 = true.
Proof.
  intros Hn Hc Hle. rewrite !calculate_risk_of_ruin_eq by auto.
  eexists. eexists. split; [reflexivity|]. split; [reflexivity|].
  apply true_divide_mono; auto.
  apply filter_length_mono. intros row _. unfold ruined. intros H.
  now apply leb_trans with t1.
Qed.

(** X2. On a well-shaped array with at least one trial and one column
    [calculate_drawdown_probabilities] returns, and every probability in
    the dictionary it returns lies in [0, 1]. *)
Theorem drawdown_probabilities_in_unit_interval (paths : ndarray)
  (thresholds : list float) :
  well_shaped paths -> (1 <= nrows paths)%nat -> (1 <= ncols paths)%nat ->
  exists d,
    calculate_drawdown_probabilities paths thresholds = Ok d /\
    forall k v, In (k, v) d -> in_unit_interval v.
Proof.
  intros [Hlen _] Hn Hc. unfold calculate_drawdown_probabilities.
  rewrite drawdown_loop_eq by auto. eexists. split; [reflexivity|].
  destruct (fold_dict_set_spec paths thresholds [])
    as (Hr & _ & _); [intros k v []|].
  intros k v Hin. rewrite (Hr k v Hin). unfold drawdown_ratio.
  apply true_divide_bounds; auto. rewrite <- Hlen. apply filter_length_le.
Qed.
(** ** The keys of the drawdown dictionary *)

Lemma dict_set_keys (t : float) (p : prob) (d : list (float * prob)) :
  map fst (dict_set threshold_key_eqb t p d) =
  if existsb (fun k => threshold_key_eqb k t) (map fst d) then map fst d
  else map fst d ++ [t].
Proof.
  induction d as [|[k v] rest IH]; cbn [dict_set map fst existsb app];
    [reflexivity|].
  destruct (threshold_key_eqb k t) eqn:H; cbn [orb map fst]; [reflexivity|].
  rewrite IH. destruct (existsb _ _); reflexivity.
Qed.

Lemma distinct_keys_snoc (ks : list float) (t : float) :
  distinct_keys ks ->
  existsb (fun k => threshold_key_eqb k t) ks = false ->
  distinct_keys (ks ++ [t]).
Proof.
  induction ks as [|k rest IH]; cbn [distinct_keys existsb app].
  - intros _ _. split; [constructor|exact I].
  - intros [Hk Hrest] Hex. apply orb_false_iff in Hex.
    destruct Hex as [Hkt Hex]. split; [|now apply IH].
    apply Forall_app. split; [exact Hk|]. now constructor.
Qed.

Lemma fold_dict_set_keys (paths : ndarray) (thresholds : list float) :
  forall acc, distinct_keys (map fst acc) ->
    let d := fold_left
               (fun d t =>
                  dict_set threshold_key_eqb t (drawdown_ratio paths t) d)
               thresholds acc in
    distinct_keys (map fst d) /\
    (forall k, In k (map fst d) -> In k (map fst acc) \/ In k thresholds) /\
    (length d <= length acc + length thresholds)%nat.
Proof.
  induction thresholds as [|t rest IH]; intros acc Hacc; cbn [fold_left].
  - repeat split; auto. cbn. lia.
  - pose proof (dict_set_keys t (drawdown_ratio paths t) acc) as Hk.
    destruct (IH (dict_set threshold_key_eqb t (drawdown_ratio paths t) acc))
      as (Hd & Hin & Hlen).
    { rewrite Hk. destruct (existsb _ _) eqn:Hex; [exact Hacc|].
      now apply distinct_keys_snoc. }
    split; [exact Hd|]. split.
    + intros k Hkin. destruct (Hin k Hkin) as [H|H]; [|right; now right].
      rewrite Hk in H. destruct (existsb _ _); [now left|].
      apply in_app_or in H. destruct H as [H|[<-|[]]]; [now left|].
      right; now left.
    + apply (f_equal (@length float)) in Hk. rewrite !length_map in Hk.
      cbn [length]. destruct (existsb _ _) in Hk.
      * rewrite length_map in Hk. lia.
      * rewrite length_app, length_map in Hk. cbn [length] in Hk. lia.
Qed.

(** X3. [calculate_drawdown_probabilities] raises exactly when a
    threshold is given for an array without columns. Otherwise it returns
    a dictionary with one entry per distinct threshold: no two keys are
    equal as numbers, every key is one of the thresholds, every threshold
    that is a number has its key, and there are at most as many entries as
    thresholds (a threshold listed twice is stored once). *)
Theorem drawdown_probabilities_keys (paths : ndarray)
  (thresholds : list float) :
  (ncols paths = 0%nat -> thresholds <> [] ->
   calculate_drawdown_probabilities paths thresholds =
   Raise (zero_size "maximum")) /\
  ((1 <= ncols paths)%nat \/ thresholds = [] ->
   exists d,
     calculate_drawdown_probabilities paths thresholds = Ok d /\
     distinct_keys (map fst d) /\
     (forall k, In k (map fst d) -> In k thresholds) /\
     (forall t, In t thresholds -> is_nan t = false -> has_key t d) /\
     (length d <= length thresholds)%nat).
Proof.
  split.
  - intros Hc Hts. destruct thresholds as [|t rest]; [congruence|].
    unfold calculate_drawdown_probabilities. cbn [drawdown_loop].
    unfold drawdown_probability, amax_axis1, subtract,
      maximum_accumulate_axis1, map_rows. cbn [ncols].
    rewrite Hc. reflexivity.
  - intros [Hc| ->].
    + unfold calculate_drawdown_probabilities.
      rewrite drawdown_loop_eq by auto. eexists. split; [reflexivity|].
      destruct (fold_dict_set_keys paths thresholds [])
        as (Hd & Hin & Hlen); [exact I|].
      destruct (fold_dict_set_spec paths thresholds [])
        as (_ & _ & Hnew); [intros k v []|].
      repeat split; auto.
      intros k Hk. destruct (Hin k Hk) as [[]|H]; exact H.
    + exists []. repeat split; auto. intros t [].
Qed.

(** ** Paths that never fall *)

Lemma rising_drawdowns (t : list float) :
  forall acc y, is_finite acc = true -> eqb acc y = true ->
    all_finite t -> rising_from y t = true ->
    Forall (fun d => eqb d zero = true)
           (zip_with sub (accumulate_from maximum acc t) t).
Proof.
  induction t as [|z t IH]; intros acc y Hacc Heq Ht Hr; [constructor|].
  inversion_clear Ht as [|? ? Hz Ht']. cbn [rising_from] in Hr.
  apply andb_prop in Hr. destruct Hr as [Hyz Hr].
  cbn [accumulate_from zip_with].
  assert (Hm : is_finite (maximum acc z) = true /\
               eqb (maximum acc z) z = true).
  { split; [now apply maximum_finite|]. unfold maximum, geb.
    rewrite (is_finite_not_nan acc Hacc), orb_false_r.
    destruct (leb z acc) eqn:Hza.
    - apply leb_antisym; [|exact Hza].
      now rewrite (leb_eqb_l acc y z Heq).
    - now apply eqb_refl, is_finite_not_nan. }
  destruct Hm as [Hfin Hmz]. constructor.
  - destruct (eqb_sub_zero (maximum acc z) z Hz Hmz) as [s ->].
    destruct s; reflexivity.
  - now apply IH with z.
Qed.

Lemma rising_max_drawdown (row : list float) :
  row <> [] -> all_finite row -> rising row = true ->
  eqb (max_drawdown row) zero = true.
Proof.
  destruct row as [|x t]; [congruence|]. intros _ Hrow Hr.
  inversion_clear Hrow as [|? ? Hx Ht]. cbn [rising] in Hr.
  unfold max_drawdown. cbn [accumulate zip_with reduce].
  rewrite sub_self by auto.
  pose proof (rising_drawdowns t x x Hx
                (eqb_refl x (is_finite_not_nan x Hx)) Ht Hr) as Hz.
  destruct (fold_maximum_spec
              (zip_with sub (accumulate_from maximum x t) t) zero)
    as (_ & Hin & _); [reflexivity| |].
  - unfold no_nan. apply forallb_forall. intros d Hd.
    rewrite Forall_forall in Hz. apply negb_true_iff.
    now apply (leb_not_nan_l d zero), eqb_leb, Hz.
  - destruct Hin as [<-|Hin]; [reflexivity|].
    rewrite Forall_forall in Hz. now apply Hz.
Qed.

(** X4. A bankroll that never falls has no drawdown: on an array with at
    least one trial whose paths are finite and non-decreasing, the
    probability returned for a threshold [T > 0] is exactly 0. *)
Theorem no_drawdown_on_rising_paths (paths : ndarray)
  (thresholds : list float) (T : float) :
  well_shaped paths -> (1 <= nrows paths)%nat -> (1 <= ncols paths)%nat ->
  Forall (fun row => all_finite row /\ rising row = true) (rows paths) ->
  In T thresholds -> ltb zero T = true ->
  exists d,
    calculate_drawdown_probabilities paths thresholds = Ok d /\
    dict_get threshold_key_eqb T d = Some (PVal 0).
Proof.
  intros [Hlen Hrows] Hn Hc Hrise Hin HT.
  destruct (calculate_drawdown_probabilities_get paths thresholds T Hc Hin
              (leb_not_nan_r _ _ (ltb_leb _ _ HT))) as (d & Hd & Hget).
  exists d. split; [exact Hd|]. rewrite Hget. f_equal.
  unfold drawdown_ratio. rewrite filter_none; [now apply true_divide_zero|].
  intros row Hrow. rewrite Forall_forall in Hrows, Hrise.
  destruct (Hrise row Hrow) as [Hfin Hr]. unfold geb.
  rewrite (leb_eqb_r T (max_drawdown row) zero).
  - now apply ltb_not_leb.
  - apply rising_max_drawdown; auto.
    specialize (Hrows row Hrow). destruct row; [cbn in Hrows; lia|congruence].
Qed.

(** ** What a call does to the generator *)

Lemma map_const_repeat {A B : Type} (b : B) (l : list A) :
  map (fun _ => b) l = repeat b (length l).
Proof. induction l as [|x t IH]; cbn; congruence. Qed.

(** X5. [simulate_bankroll_paths] returns exactly when the scale is
    admissible and neither size is negative, and in every case it leaves
    the global generator re-seeded: after a call that returns, in the state
    reached from the seed 42 by [n_simulations * n_hands] draws; after a
    call that raises, in the seeded state itself. What was drawn before the
    call has no effect on what is drawn after it. *)
Theorem simulate_bankroll_paths_effect (mu sigma initial_bankroll : float)
  (n_hands n_simulations : Z) (s : rng) :
  let r := simulate_bankroll_paths mu sigma initial_bankroll
             n_hands n_simulations s in
  is_ok (fst r) = scale_ok sigma && (0 <=? n_simulations) && (0 <=? n_hands)
  /\
  snd r = if is_ok (fst r)
          then advance (Z.to_nat n_simulations * Z.to_nat n_hands)
                       (seed_state 42)
          else seed_state 42.
Proof.
  cbn zeta.
  destruct (scale_ok sigma) eqn:Hs;
    [destruct (Z.leb_spec 0 n_simulations);
     [destruct (Z.leb_spec 0 n_hands)|]|].
  - rewrite simulate_bankroll_paths_spec by auto. split; reflexivity.
  - unfold simulate_bankroll_paths, bind, random_seed, random_normal.
    rewrite Hs. cbn [negb].
    destruct (Z.ltb_spec n_simulations 0); [lia|].
    destruct (Z.ltb_spec n_hands 0); [|lia]. split; reflexivity.
  - unfold simulate_bankroll_paths, bind, random_seed, random_normal.
    rewrite Hs. cbn [negb].
    destruct (Z.ltb_spec n_simulations 0); [|lia]. split; reflexivity.
  - unfold simulate_bankroll_paths, bind, random_seed, random_normal.
    rewrite Hs. split; reflexivity.
Qed.

(** X6. A horizon of zero hands draws nothing: the array returned is the
    column of the initial bankroll, the generator is left in the seeded
    state, and the risk of ruin is 1 when the initial bankroll is at most
    0 and 0 otherwise (a NaN bankroll included). *)
Theorem zero_horizon (mu sigma initial_bankroll : float)
  (n_simulations : Z) (s : rng) :
  scale_ok sigma = true -> 1 <= n_simulations ->
  simulate_bankroll_paths mu sigma initial_bankroll 0 n_simulations s =
  (Ok (mk_ndarray (Z.to_nat n_simulations) 1
         (repeat [initial_bankroll] (Z.to_nat n_simulations))),
   seed_state 42) /\
  simulated_risk_of_ruin mu sigma initial_bankroll 0 n_simulations s =
  (Ok (if leb initial_bankroll zero then PVal 1 else PVal 0), seed_state 42).
Proof.
  intros Hs Hn.
  assert (Hrun :
    simulate_bankroll_paths mu sigma initial_bankroll 0 n_simulations s =
    (Ok (mk_ndarray (Z.to_nat n_simulations) 1
           (repeat [initial_bankroll] (Z.to_nat n_simulations))),
     seed_state 42)).
  { rewrite simulate_bankroll_paths_spec by (auto; lia).
    change (Z.to_nat 0) with 0%nat. rewrite Nat.mul_0_r. cbn [advance].
    unfold path_row. cbn [seq map].
    now rewrite map_const_repeat, length_seq. }
  split; [exact Hrun|].
  unfold simulated_risk_of_ruin, bind. rewrite Hrun. unfold lift.
  rewrite calculate_risk_of_ruin_eq by (cbn; lia). cbn [rows nrows].
  do 2 f_equal.
  assert (Hlen : length (repeat [initial_bankroll] (Z.to_nat n_simulations))
                 = Z.to_nat n_simulations) by apply repeat_length.
  destruct (leb initial_bankroll zero) eqn:Hb.
  - rewrite filter_all.
    + rewrite Hlen. apply true_divide_all. lia.
    + intros row Hrow. apply repeat_spec in Hrow. subst row. exact Hb.
  - rewrite filter_none.
    + apply true_divide_zero. lia.
    + intros row Hrow. apply repeat_spec in Hrow. subst row. exact Hb.
Qed.

(** ** The cells of a result row *)

Lemma dict_get_setitem_other (k k' : column) (v : cell) (row : result_row) :
  k' <> k ->
  dict_get column_eqb k (setitem k' v row) = dict_get column_eqb k row.
Proof.
  intros Hk. unfold setitem.
  assert (Hf : column_eqb k' k = false).
  { destruct (column_eqb k' k) eqn:H; [|reflexivity].
    apply column_eqb_eq in H. contradiction. }
  induction row as [|[k0 v0] rest IH]; cbn [dict_set dict_get].
  - now rewrite Hf.
  - destruct (column_eqb k0 k') eqn:H0; cbn [dict_get].
    + apply column_eqb_eq in H0. subst k0. now rewrite Hf.
    + now rewrite IH.
Qed.

Lemma dict_get_setitem_same (k : column) (v : cell) (row : result_row) :
  dict_get column_eqb k (setitem k v row) = Some v.
Proof.
  unfold setitem.
  assert (Ht : column_eqb k k = true) by now apply column_eqb_eq.
  induction row as [|[k0 v0] rest IH]; cbn [dict_set dict_get].
  - now rewrite Ht.
  - destruct (column_eqb k0 k) eqn:H0; cbn [dict_get]; rewrite H0; auto.
Qed.

Lemma fold_setitem_dd_other (k : column) (n_hands : Z)
  (kvs : list (float * prob)) :
  (forall t, c_dd t n_hands <> k) ->
  forall row,
    dict_get column_eqb k
      (fold_left
         (fun acc kv => setitem (c_dd (fst kv) n_hands) (Ratio (snd kv)) acc)
         kvs row) = dict_get column_eqb k row.
Proof.
  intros Hk. induction kvs as [|kv rest IH]; intros row; cbn [fold_left];
    auto.
  rewrite IH. now apply dict_get_setitem_other.
Qed.

Lemma lift_ok {A : Type} (o : outcome A) (a : A) (s s' : rng) :
  lift o s = (Ok a, s') -> o = Ok a /\ s' = s.
Proof. unfold lift. intros [= -> ->]. auto. Qed.

Lemma getitem_ok {A : Type} (field : option A) (key : string) (a : A) :
  getitem field key = Ok a -> field = Some a.
Proof. destruct field; cbn; congruence. Qed.

(** One horizon writes its own columns only, and under [ror_<h>h] the
    risk of ruin of a fresh simulation over [h] hands. *)
Lemma horizon_body_cells (mu sigma : float) (cfg : config) (h : Z)
  (row row' : result_row) (s s' : rng) :
  horizon_body mu sigma cfg h row s = (Ok row', s') ->
  (forall k, horizon_of k <> Some h ->
     dict_get column_eqb k row' = dict_get column_eqb k row) /\
  exists bankroll n_sims p,
    current_bankroll_bb cfg = Some bankroll /\
    n_simulations cfg = Some n_sims /\
    (forall s0, fst (simulated_risk_of_ruin mu sigma bankroll h n_sims s0)
                = Ok p) /\
    dict_get column_eqb (c_ror h) row' = Some (Ratio p).
Proof.
  unfold horizon_body. intros H.
  apply bind_ok in H. destruct H as (bankroll & s1 & Hb & H).
  apply lift_ok in Hb. destruct Hb as [Hb ->]. apply getitem_ok in Hb.
  apply bind_ok in H. destruct H as (n_sims & s1 & Hn & H).
  apply lift_ok in Hn. destruct Hn as [Hn ->]. apply getitem_ok in Hn.
  apply bind_ok in H. destruct H as (paths & s1 & Hp & H).
  apply bind_ok in H. destruct H as (ror & s2 & Hr & H).
  apply lift_ok in Hr. destruct Hr as [Hr ->].
  apply bind_ok in H. destruct H as (ts & s2 & _ & H).
  apply bind_ok in H. destruct H as (dd & s3 & _ & H).
  apply bind_ok in H. destruct H as (final & s4 & _ & H).
  injection H as <- _. split.
  - intros k Hk. rewrite fold_setitem_dd_other
      by (intros t <-; now apply Hk).
    rewrite !dict_get_setitem_other by (intros <-; now apply Hk).
    reflexivity.
  - exists bankroll, n_sims, ror. repeat split; auto.
    + intros s0. unfold simulated_risk_of_ruin, bind.
      change (simulate_bankroll_paths mu sigma bankroll h n_sims s0)
        with (simulate_bankroll_paths mu sigma bankroll h n_sims s).
      rewrite Hp. unfold lift. exact Hr.
    + rewrite fold_setitem_dd_other by discriminate.
      rewrite !dict_get_setitem_other by discriminate.
      apply dict_get_setitem_same.
Qed.

Lemma horizons_loop_cells (mu sigma : float) (cfg : config)
  (horizons : list Z) :
  forall row row' s s',
    horizons_loop mu sigma cfg horizons row s = (Ok row', s') ->
    (forall k, (forall h, In h horizons -> horizon_of k <> Some h) ->
       dict_get column_eqb k row' = dict_get column_eqb k row) /\
    (forall h, In h horizons ->
       exists bankroll n_sims p,
         current_bankroll_bb cfg = Some bankroll /\
         n_simulations cfg = Some n_sims /\
         (forall s0, fst (simulated_risk_of_ruin mu sigma bankroll h n_sims s0)
                     = Ok p) /\
         dict_get column_eqb (c_ror h) row' = Some (Ratio p)).
Proof.
  induction horizons as [|h0 rest IH]; intros row row' s s';
    cbn [horizons_loop].
  - intros [= <- _]. split; [reflexivity|]. intros h [].
  - intros H. apply bind_ok in H. destruct H as (row1 & s1 & H1 & H).
    apply horizon_body_cells in H1. destruct H1 as [Hother Hror].
    apply IH in H. destruct H as [IHother IHror]. split.
    + intros k Hk. rewrite IHother by (intros h Hh; apply Hk; now right).
      apply Hother, Hk. now left.
    + intros h Hh. destruct (in_dec Z.eq_dec h rest) as [Hin|Hout].
      * now apply IHror.
      * destruct Hh as [<-|Hh]; [|contradiction].
        destruct Hror as (bankroll & n_sims & p & Hb & Hn & Hp & Hget).
        exists bankroll, n_sims, p. repeat split; auto.
        rewrite IHother; [exact Hget|].
        intros h Hh. cbn [horizon_of]. congruence.
Qed.

Lemma stakes_loop_rows (estimates_df : list Estimate.estimate)
  (cfg : config) :
  forall acc rows s s',
    stakes_loop estimates_df cfg acc s = (Ok rows, s') ->
    exists new,
      rows = acc ++ new /\
      Forall2 (fun e row => exists s1 s2, stake_body e cfg s1 = (Ok row, s2))
              estimates_df new.
Proof.
  induction estimates_df as [|e rest IH]; intros acc rows s s';
    cbn [stakes_loop].
  - intros [= <- _]. exists []. split; [now rewrite app_nil_r|constructor].
  - intros H. apply bind_ok in H. destruct H as (row & s1 & Hrow & H).
    apply IH in H. destruct H as (new & -> & Hnew).
    exists (row :: new). split; [now rewrite <- app_assoc|].
    constructor; eauto.
Qed.

(** X7. With a complete configuration, at least one trial and
    non-negative horizons, [run_stake_simulations] returns a table whose
    [i]-th row holds, for the [i]-th row of the estimates: its mean under
    [mu], the square root of its variance under [sigma], the variance under
    [sigma2], and under [ror_<h>h], for every horizon [h] of the
    configuration, the risk of ruin of a fresh simulation of that stake over
    [h] hands. A horizon listed twice, or the stakes simulated before, do
    not change a cell. *)
Theorem result_row_cells (estimates_df : list Estimate.estimate)
  (n_sims : Z) (horizons : list Z) (bankroll : float)
  (thresholds : list float) (s : rng) :
  1 <= n_sims -> Forall (fun h => 0 <= h) horizons ->
  Forall (fun e => Estimate.sigma2_bb_per_hand e <> S754_zero true)
         estimates_df ->
  exists rows s',
    run_stake_simulations estimates_df
      (mk_config (Some n_sims) (Some horizons) (Some bankroll)
                 (Some thresholds)) s = (Ok rows, s') /\
    Forall2
      (fun e row =>
         let mu := Estimate.mu_bb_per_hand e in
         let sigma2 := Estimate.sigma2_bb_per_hand e in
         dict_get column_eqb c_mu row = Some (Num mu) /\
         dict_get column_eqb c_sigma row = Some (Num (sqrt sigma2)) /\
         dict_get column_eqb c_sigma2 row = Some (Num sigma2) /\
         forall h, In h horizons ->
           exists p,
             fst (simulated_risk_of_ruin mu (sqrt sigma2) bankroll h n_sims s)
               = Ok p /\
             dict_get column_eqb (c_ror h) row = Some (Ratio p))
      estimates_df rows.
Proof.
  intros Hn Hhs Hest. unfold run_stake_simulations.
  destruct (stakes_loop_ok n_sims horizons bankroll thresholds estimates_df
              ltac:(lia) Hhs Hest [] s) as (rows & s' & H).
  exists rows, s'. split; [exact H|].
  apply stakes_loop_rows in H. destruct H as (new & -> & Hnew).
  cbn [app]. eapply Forall2_impl; [|exact Hnew].
  intros e row (s1 & s2 & Hrow). cbn zeta.
  unfold stake_body in Hrow. cbn [time_horizons getitem] in Hrow.
  apply bind_ok in Hrow. destruct Hrow as (hs & s3 & Hhs' & Hrow).
  apply lift_ok in Hhs'. destruct Hhs' as [[= <-] ->].
  apply horizons_loop_cells in Hrow. destruct Hrow as [Hother Hror].
  repeat split; try (rewrite Hother by (intros; discriminate); reflexivity).
  intros h Hh. destruct (Hror h Hh) as (b & n & p & [= <-] & [= <-] & Hp & Hg).
  exists p. split; [apply Hp|exact Hg].
Qed.

(** ** From the sessions table to the result table *)

(** X19. The estimator and the simulator compose: a variance that
    [estimate_mu_sigma_by_stake] computes is never the negative zero, the
    one variance whose root NumPy refuses as a scale, so with a complete
    configuration, at least one trial and non-negative horizons
    [run_stake_simulations] returns on the estimates of every sessions
    table, with one row for each stake that has three sessions or more, in
    the order in which the stakes first appear. *)
Theorem estimates_are_simulated (start_sign : bool)
  (t_ppf : float -> Z -> float)
  (df : list Estimate.session) (n_sims : Z) (horizons : list Z)
  (bankroll : float) (thresholds : list float) (s : rng) :
  1 <= n_sims -> Forall (fun h => 0 <= h) horizons ->
  exists rows s',
    run_stake_simulations
      (Estimate.estimate_mu_sigma_by_stake start_sign t_ppf df)
      (mk_config (Some n_sims) (Some horizons) (Some bankroll)
                 (Some thresholds)) s = (Ok rows, s') /\
    map stake_of rows =
    map (fun stake => Some (Text stake))
        (filter (fun stake =>
                   (3 <=? length (Estimate.select_stake df stake))%nat)
                (Estimate.unique (map Estimate.stake_text df))).
Proof.
  intros Hn Hhs. unfold run_stake_simulations.
  destruct (stakes_loop_ok n_sims horizons bankroll thresholds
              (Estimate.estimate_mu_sigma_by_stake start_sign t_ppf df)
              ltac:(lia) Hhs) with (acc := @nil result_row) (s := s)
    as (rows & s' & H).
  { eapply Forall_impl;
      [|apply (Estimate.estimate_loop_variance_signbit start_sign t_ppf)].
    intros e. apply signbit_not_negative_zero. }
  exists rows, s'. split; [exact H|].
  apply stakes_loop_stakes in H. rewrite H. cbn [map app].
  unfold Estimate.estimate_mu_sigma_by_stake.
  rewrite <- Estimate.estimate_loop_stakes
    with (start_sign := start_sign) (t_ppf := t_ppf).
  now rewrite map_map.
Qed.

(** ** The columns of a result row *)

Lemma setitem_fresh (k : column) (v : cell) (row : result_row) :
  ~ In k (map fst row) -> setitem k v row = row ++ [(k, v)].
Proof.
  unfold setitem.
  induction row as [|[k' v'] rest IH]; cbn [dict_set map fst In app];
    intros Hk; [reflexivity|].
  destruct (column_eqb k' k) eqn:H.
  - apply column_eqb_eq in H. tauto.
  - f_equal. apply IH. tauto.
Qed.

Lemma fold_setitem_dd_fresh (h : Z) (kvs : list (float * prob)) :
  NoDup (map fst kvs) ->
  forall row,
    (forall t, In t (map fst kvs) -> ~ In (c_dd t h) (map fst row)) ->
    map fst (fold_left
               (fun acc kv => setitem (c_dd (fst kv) h) (Ratio (snd kv)) acc)
               kvs row) =
    map fst row ++ map (fun t => c_dd t h) (map fst kvs).
Proof.
  induction kvs as [|[t p] rest IH]; intros Hnd row Hrow;
    cbn [fold_left map fst].
  - now rewrite app_nil_r.
  - cbn [map fst] in Hnd. inversion_clear Hnd as [|? ? Ht Hrest].
    rewrite setitem_fresh by (apply Hrow; now left).
    rewrite IH; auto.
    + rewrite map_app, <- app_assoc. reflexivity.
    + intros t' Ht' Hin. rewrite map_app in Hin. apply in_app_or in Hin.
      destruct Hin as [Hin|[[= ->]|[]]]; [|contradiction].
      apply (Hrow t'); [now right|exact Hin].
Qed.

Lemma fold_dict_set_fresh_keys (paths : ndarray) (thresholds : list float) :
  distinct_keys thresholds ->
  forall acc,
    (forall k t, In k (map fst acc) -> In t thresholds ->
       threshold_key_eqb k t = false) ->
    map fst (fold_left
               (fun d t =>
                  dict_set threshold_key_eqb t (drawdown_ratio paths t) d)
               thresholds acc) =
    map fst acc ++ thresholds.
Proof.
  induction thresholds as [|t rest IH]; intros Hd acc Hacc;
    cbn [fold_left]; [now rewrite app_nil_r|].
  destruct Hd as [Ht Hrest]. rewrite IH; auto.
  - rewrite dict_set_keys.
    assert (Hex : existsb (fun k => threshold_key_eqb k t) (map fst acc)
                  = false).
    { destruct (existsb _ _) eqn:Hex; [|reflexivity].
      apply existsb_exists in Hex. destruct Hex as (k & Hk & Hkt).
      rewrite (Hacc k t Hk) in Hkt by now left. discriminate. }
    rewrite Hex, <- app_assoc. reflexivity.
  - intros k t' Hk Ht'. rewrite dict_set_keys in Hk.
    destruct (existsb _ _); [apply Hacc; auto; now right|].
    apply in_app_or in Hk. destruct Hk as [Hk|[<-|[]]].
    + apply Hacc; auto. now right.
    + rewrite Forall_forall in Ht. now apply Ht.
Qed.

Lemma distinct_keys_NoDup (ts : list float) :
  Forall (fun t => is_nan t = false) ts -> distinct_keys ts -> NoDup ts.
Proof.
  induction 1 as [|t rest Ht _ IH]; cbn [distinct_keys];
    [constructor|].
  intros [Hrest Hd]. constructor; [|now apply IH].
  intros Hin. rewrite Forall_forall in Hrest.
  specialize (Hrest t Hin). unfold threshold_key_eqb in Hrest.
  now rewrite eqb_refl in Hrest.
Qed.

Lemma drawdown_keys (paths : ndarray) (thresholds : list float)
  (d : list (float * prob)) :
  distinct_keys thresholds ->
  calculate_drawdown_probabilities paths thresholds = Ok d ->
  map fst d = thresholds.
Proof.
  intros Hd Hrun. destruct thresholds as [|t rest] eqn:Hts.
  - injection Hrun as <-. reflexivity.
  - rewrite <- Hts in *.
    assert (Hc : (1 <= ncols paths)%nat).
    { apply (calculate_drawdown_probabilities_columns paths thresholds d);
        auto. congruence. }
    unfold calculate_drawdown_probabilities in Hrun.
    rewrite drawdown_loop_eq in Hrun by auto. injection Hrun as <-.
    rewrite fold_dict_set_fresh_keys; auto. intros k t' [].
Qed.

Lemma horizon_body_columns (mu sigma : float) (cfg : config) (h : Z)
  (thresholds : list float) (row row' : result_row) (s s' : rng) :
  drawdown_thresholds cfg = Some thresholds ->
  Forall (fun t => is_nan t = false) thresholds ->
  distinct_keys thresholds ->
  (forall k, In k (map fst row) -> horizon_of k <> Some h) ->
  horizon_body mu sigma cfg h row s = (Ok row', s') ->
  map fst row' = map fst row ++ horizon_columns thresholds h.
Proof.
  intros Hcfg Hnan Hd Hrow. unfold horizon_body. intros H.
  apply bind_ok in H. destruct H as (bankroll & s1 & _ & H).
  apply bind_ok in H. destruct H as (n_sims & s2 & _ & H).
  apply bind_ok in H. destruct H as (paths & s3 & _ & H).
  apply bind_ok in H. destruct H as (ror & s4 & _ & H).
  apply bind_ok in H. destruct H as (ts & s5 & Hts & H).
  apply lift_ok in Hts. destruct Hts as [Hts ->].
  apply getitem_ok in Hts. rewrite Hcfg in Hts. injection Hts as <-.
  apply bind_ok in H. destruct H as (dd & s6 & Hdd & H).
  apply lift_ok in Hdd. destruct Hdd as [Hdd ->].
  apply bind_ok in H. destruct H as (final & s7 & _ & H).
  injection H as <- _.
  pose proof (drawdown_keys paths thresholds dd Hd Hdd) as Hkeys.
  assert (Hfresh : forall k, horizon_of k = Some h -> ~ In k (map fst row))
    by (intros k Hk Hin; now apply (Hrow k Hin)).
  rewrite (setitem_fresh (c_ror h)) by now apply Hfresh.
  rewrite (setitem_fresh (c_final_mean h)).
  2:{ rewrite map_app. intros Hin. apply in_app_or in Hin.
      destruct Hin as [Hin|[[=]|[]]]. revert Hin. now apply Hfresh. }
  rewrite (setitem_fresh (c_final_std h)).
  2:{ rewrite !map_app. intros Hin.
      repeat (apply in_app_or in Hin; destruct Hin as [Hin|[[=]|[]]]).
      revert Hin. now apply Hfresh. }
  rewrite (setitem_fresh (c_final_p10 h)).
  2:{ rewrite !map_app. intros Hin.
      repeat (apply in_app_or in Hin; destruct Hin as [Hin|[[=]|[]]]).
      revert Hin. now apply Hfresh. }
  rewrite (setitem_fresh (c_final_p90 h)).
  2:{ rewrite !map_app. intros Hin.
      repeat (apply in_app_or in Hin; destruct Hin as [Hin|[[=]|[]]]).
      revert Hin. now apply Hfresh. }
  rewrite fold_setitem_dd_fresh.
  - rewrite Hkeys, !map_app. cbn [map fst]. unfold horizon_columns.
    rewrite <- !app_assoc. reflexivity.
  - rewrite Hkeys. now apply distinct_keys_NoDup.
  - intros t _. rewrite !map_app. intros Hin.
    repeat (apply in_app_or in Hin; destruct Hin as [Hin|[[=]|[]]]).
    revert Hin. now apply Hfresh.
Qed.

Lemma horizons_loop_columns (mu sigma : float) (cfg : config)
  (thresholds : list float) (horizons : list Z) :
  drawdown_thresholds cfg = Some thresholds ->
  Forall (fun t => is_nan t = false) thresholds ->
  distinct_keys thresholds ->
  NoDup horizons ->
  forall row row' s s',
    (forall k h, In k (map fst row) -> In h horizons ->
       horizon_of k <> Some h) ->
    horizons_loop mu sigma cfg horizons row s = (Ok row', s') ->
    map fst row' =
    map fst row ++ flat_map (horizon_columns thresholds) horizons.
Proof.
  intros Hcfg Hnan Hd. induction 1 as [|h rest Hh Hnd IH];
    intros row row' s s' Hrow; cbn [horizons_loop flat_map].
  - intros [= <- _]. now rewrite app_nil_r.
  - intros H. apply bind_ok in H. destruct H as (row1 & s1 & H1 & H).
    apply (horizon_body_columns _ _ _ _ thresholds) in H1; auto.
    2:{ intros k Hk. apply (Hrow k h Hk). now left. }
    apply IH in H.
    + rewrite H, H1, <- app_assoc. reflexivity.
    + intros k h' Hk Hh'. rewrite H1 in Hk. apply in_app_or in Hk.
      destruct Hk as [Hk|Hk]; [apply (Hrow k h' Hk); now right|].
      assert (Hkh : horizon_of k = Some h).
      { unfold horizon_columns in Hk. apply in_app_or in Hk.
        destruct Hk as [Hk|Hk].
        - cbn in Hk. decompose [or] Hk; subst; try reflexivity.
          contradiction.
        - apply in_map_iff in Hk. destruct Hk as (t & <- & _). reflexivity. }
      rewrite Hkh. intros [= ->]. contradiction.
Qed.

(** X20. The columns of the result table. With a complete configuration
    whose horizons are distinct and non-negative and whose drawdown
    thresholds are numbers, no two of them equal, every row of the table
    [run_stake_simulations] returns has the same columns in the same
    order: [stake_text], [mu], [sigma], [sigma2], then for each horizon in
    turn the risk of ruin, the four statistics of the final bankroll and
    one drawdown probability per threshold, which makes
    [4 + |horizons| * (5 + |thresholds|)] columns. *)
Theorem result_row_columns (estimates_df : list Estimate.estimate)
  (n_sims : Z) (horizons : list Z) (bankroll : float)
  (thresholds : list float) (s : rng) :
  1 <= n_sims -> Forall (fun h => 0 <= h) horizons -> NoDup horizons ->
  Forall (fun t => is_nan t = false) thresholds ->
  distinct_keys thresholds ->
  Forall (fun e => Estimate.sigma2_bb_per_hand e <> S754_zero true)
         estimates_df ->
  exists rows s',
    run_stake_simulations estimates_df
      (mk_config (Some n_sims) (Some horizons) (Some bankroll)
                 (Some thresholds)) s = (Ok rows, s') /\
    Forall (fun row =>
              map fst row =
              [c_stake_text; c_mu; c_sigma; c_sigma2] ++
              flat_map (horizon_columns thresholds) horizons /\
              length row =
              (4 + length horizons * (5 + length thresholds))%nat)
           rows.
Proof.
  intros Hn Hhs Hnd Hnan Hd Hest. unfold run_stake_simulations.
  destruct (stakes_loop_ok n_sims horizons bankroll thresholds estimates_df
              ltac:(lia) Hhs Hest [] s) as (rows & s' & H).
  exists rows, s'. split; [exact H|].
  apply stakes_loop_rows in H. destruct H as (new & -> & Hnew).
  cbn [app]. clear Hest.
  induction Hnew as [|e row rest new' (s1 & s2 & Hrow) _ IH];
    constructor; auto.
  unfold stake_body in Hrow. cbn [time_horizons getitem] in Hrow.
  apply bind_ok in Hrow. destruct Hrow as (hs & s3 & Hhs' & Hrow).
  apply lift_ok in Hhs'. destruct Hhs' as [[= <-] ->].
  apply (horizons_loop_columns _ _ _ thresholds) in Hrow; auto.
  2:{ intros k h Hk _. cbn in Hk.
      decompose [or] Hk; subst; try discriminate. contradiction. }
  cbn [map fst] in Hrow. split; [exact Hrow|].
  rewrite <- (length_map fst row), Hrow, length_app. cbn [length].
  f_equal. clear. induction horizons as [|h rest IH]; [reflexivity|].
  cbn [flat_map]. rewrite length_app, IH. unfold horizon_columns.
  rewrite length_app, length_map. cbn [length]. lia.
Qed.

(** ** A NaN parameter *)

Lemma maximum_nan_r (a : float) : is_nan (maximum a nan) = true.
Proof. unfold maximum, geb. destruct a; reflexivity. Qed.

Lemma fold_maximum_has_nan (t : list float) :
  forall x, no_nan (x :: t) = false -> is_nan (fold_left maximum t x) = true.
Proof.
  induction t as [|z t IH]; intros x H; cbn [fold_left].
  - cbn in H. rewrite andb_true_r in H. now apply negb_false_iff in H.
  - apply IH. cbn [no_nan forallb] in *.
    destruct (is_nan x) eqn:Hx.
    + destruct x; try discriminate. destruct z; reflexivity.
    + cbn [negb andb] in H. destruct (is_nan z) eqn:Hz.
      * destruct z; try discriminate.
        rewrite maximum_nan_r. reflexivity.
      * destruct (maximum_cases x z Hx Hz) as (Hn & _).
        rewrite Hn. exact H.
Qed.

Lemma add_nan_r (x : float) : add x nan = nan.
Proof. destruct x; reflexivity. Qed.

Lemma sub_nan_r (x : float) : sub x nan = nan.
Proof. destruct x; reflexivity. Qed.

Lemma increment_nan (mu sigma : float) (k : nat) :
  is_nan mu = true \/ is_nan sigma = true -> increment mu sigma k = nan.
Proof.
  unfold increment. intros [H|H].
  - destruct mu; try discriminate. reflexivity.
  - destruct sigma; try discriminate.
    change (mul S754_nan (gauss_at (seed_state 42) k)) with nan.
    apply add_nan_r.
Qed.

Lemma cumulative_nan (incr : nat -> float) (t : nat) :
  (forall j, incr j = nan) -> cumulative incr t = nan.
Proof.
  intros H. destruct t as [|t]; cbn [cumulative]; rewrite H; [reflexivity|].
  apply add_nan_r.
Qed.

Lemma path_row_nan (mu sigma initial_bankroll : float) (m i : nat) :
  is_nan mu = true \/ is_nan sigma = true ->
  path_row mu sigma initial_bankroll (S m) i =
  initial_bankroll :: nan :: repeat nan m.
Proof.
  intros H. unfold path_row. f_equal.
  rewrite (map_ext _ (fun _ => nan)).
  - rewrite map_const_repeat, length_seq. reflexivity.
  - intros t. rewrite cumulative_nan; [apply add_nan_r|].
    intros j. now apply increment_nan.
Qed.

Lemma nan_path_not_ruined (x threshold : float) (t : list float) :
  ruined threshold (x :: nan :: t) = false.
Proof.
  unfold ruined. destruct (leb _ threshold) eqn:H; [|reflexivity].
  apply leb_not_nan_l in H. cbn [reduce] in H.
  rewrite fold_minimum_has_nan in H; [discriminate|].
  cbn [no_nan forallb is_nan negb]. now rewrite andb_false_r.
Qed.

Lemma nan_path_no_drawdown (x threshold : float) (t : list float) :
  geb (max_drawdown (x :: nan :: t)) threshold = false.
Proof.
  unfold geb. destruct (leb threshold _) eqn:H; [|reflexivity].
  apply leb_not_nan_r in H. unfold max_drawdown in H.
  cbn [accumulate accumulate_from zip_with reduce] in H.
  rewrite fold_maximum_has_nan in H; [discriminate|].
  rewrite sub_nan_r. cbn [no_nan forallb is_nan negb].
  now rewrite andb_false_r.
Qed.

(** X21. A stake whose mean or standard deviation is NaN comes out of the
    simulation looking safe: for at least one hand and one trial every
    path is the initial bankroll followed by NaN, no path counts as ruined
    and none as drawn down, so the risk of ruin is exactly 0 and so is the
    drawdown probability of every threshold passed, the non-positive ones
    included. *)
Theorem nan_parameters_look_safe (mu sigma initial_bankroll : float)
  (n_hands n_simulations : Z) (thresholds : list float) (T : float)
  (s : rng) :
  is_nan mu = true \/ is_nan sigma = true -> scale_ok sigma = true ->
  1 <= n_hands -> 1 <= n_simulations ->
  In T thresholds -> is_nan T = false ->
  exists paths s' d,
    simulate_bankroll_paths mu sigma initial_bankroll n_hands n_simulations s
      = (Ok paths, s') /\
    calculate_risk_of_ruin paths zero = Ok (PVal 0) /\
    calculate_drawdown_probabilities paths thresholds = Ok d /\
    dict_get threshold_key_eqb T d = Some (PVal 0).
Proof.
  intros Hnan Hs Hh Hn Hin HT.
  rewrite simulate_bankroll_paths_spec by (auto; lia).
  set (paths := mk_ndarray _ _ _).
  assert (Hc : (1 <= ncols paths)%nat) by (cbn; lia).
  assert (Hrows : forall row, In row (rows paths) ->
            exists t, row = initial_bankroll :: nan :: t).
  { intros row Hrow. cbn [rows paths] in Hrow. apply in_map_iff in Hrow.
    destruct Hrow as (i & <- & _).
    destruct (Z.to_nat n_hands) as [|m] eqn:Hm; [lia|].
    rewrite path_row_nan by auto. eauto. }
  destruct (calculate_drawdown_probabilities_get paths thresholds T Hc Hin HT)
    as (d & Hd & Hget).
  exists paths, (advance (Z.to_nat n_simulations * Z.to_nat n_hands)
                   (seed_state 42)), d.
  split; [reflexivity|]. split; [|split; [exact Hd|]].
  - rewrite calculate_risk_of_ruin_eq by auto. f_equal.
    rewrite filter_none; [apply true_divide_zero; cbn; lia|].
    intros row Hrow. destruct (Hrows row Hrow) as [t ->].
    apply nan_path_not_ruined.
  - rewrite Hget. f_equal. unfold drawdown_ratio.
    rewrite filter_none; [apply true_divide_zero; cbn; lia|].
    intros row Hrow. destruct (Hrows row Hrow) as [t ->].
    apply nan_path_no_drawdown.
Qed.

End Simulator.

(** ** [calculate_bankroll_requirements] *)

Lemma sqrt_gtb_zero (x : float) :
  gtb (sqrt x) zero = true -> ltb zero x = true.
Proof.
  unfold gtb. intros H. apply pos_iff in H. apply pos_iff.
  destruct x as [[|]|[|]| |[|] m e]; cbn in *; auto.
Qed.

Lemma requirements_loop_returns (estimates_df : list Estimate.estimate) :
  Forall (fun e => ltb zero (Estimate.mu_bb_per_hand e) = false \/
                   ltb zero (Estimate.sigma2_bb_per_hand e) = false)
         estimates_df ->
  forall acc,
    requirements_loop estimates_df acc =
    Returns (acc ++
             map (fun e =>
                    mk_requirement (Estimate.e_stake_text e) 5000 (of_Z 50)
                      (Estimate.mu_bb_per_hand e)
                      (sqrt (Estimate.sigma2_bb_per_hand e)))
                 estimates_df).
Proof.
  induction 1 as [|e rest He _ IH]; intros acc; cbn [requirements_loop map].
  - now rewrite app_nil_r.
  - unfold requirement_body.
    assert (Hc : gtb (Estimate.mu_bb_per_hand e) zero &&
                 gtb (sqrt (Estimate.sigma2_bb_per_hand e)) zero = false).
    { destruct He as [He|He].
      - unfold gtb at 1. now rewrite He.
      - apply andb_false_iff. right.
        destruct (gtb (sqrt _) zero) eqn:Hs; [|reflexivity].
        apply sqrt_gtb_zero in Hs. congruence. }
    rewrite Hc. cbn [abind]. rewrite IH, <- app_assoc. reflexivity.
Qed.

Lemma requirements_loop_raises (estimates_df : list Estimate.estimate) :
  Exists (fun e => ltb zero (Estimate.mu_bb_per_hand e) = true /\
                   ltb zero (Estimate.sigma2_bb_per_hand e) = true /\
                   valid (Estimate.sigma2_bb_per_hand e) = true)
         estimates_df ->
  forall acc, requirements_loop estimates_df acc = Raises (NameError "stats").
Proof.
  induction estimates_df as [|e rest IH]; intros Hex acc;
    [inversion Hex|].
  cbn [requirements_loop]. unfold requirement_body.
  destruct (gtb (Estimate.mu_bb_per_hand e) zero &&
            gtb (sqrt (Estimate.sigma2_bb_per_hand e)) zero) eqn:Hc;
    [reflexivity|].
  cbn [abind]. apply IH.
  inversion_clear Hex as [? ? (Hmu & Hs2 & Hv)|? ? Hrest]; [|exact Hrest].
  exfalso. unfold gtb in Hc. rewrite Hmu in Hc. cbn [andb] in Hc.
  apply pos_iff in Hs2.
  pose proof (sqrt_pos _ Hs2 (valid_exp_ok _ Hv)) as Hp.
  apply pos_iff in Hp. congruence.
Qed.

(** X8. [calculate_bankroll_requirements] cannot size a bankroll: as soon
    as one stake of the table is a winning one (mean and variance both
    above zero) the call raises [NameError], since the name [stats] its
    formula starts from is not bound in the module; and a table without
    such a stake gets the default of 5000 big blinds, 50 buy-ins, in every
    row, in the order of the estimates. The risk tolerance is never
    read. *)
Theorem bankroll_requirements_outcome (estimates_df : list Estimate.estimate)
  (risk_tolerance : float) :
  (Exists (fun e => ltb zero (Estimate.mu_bb_per_hand e) = true /\
                    ltb zero (Estimate.sigma2_bb_per_hand e) = true /\
                    valid (Estimate.sigma2_bb_per_hand e) = true)
          estimates_df ->
   calculate_bankroll_requirements estimates_df risk_tolerance =
   Raises (NameError "stats")) /\
  (Forall (fun e => ltb zero (Estimate.mu_bb_per_hand e) = false \/
                    ltb zero (Estimate.sigma2_bb_per_hand e) = false)
          estimates_df ->
   calculate_bankroll_requirements estimates_df risk_tolerance =
   Returns (map (fun e =>
                   mk_requirement (Estimate.e_stake_text e) 5000 (of_Z 50)
                     (Estimate.mu_bb_per_hand e)
                     (sqrt (Estimate.sigma2_bb_per_hand e)))
                estimates_df)).
Proof.
  unfold calculate_bankroll_requirements. split; intros H.
  - now apply requirements_loop_raises.
  - now rewrite requirements_loop_returns.
Qed.

End Simulate.

(* ================================================================== *)
(** * recommend.py *)
(* ================================================================== *)

Module Recommend.
Import F64.

Local Open Scope string_scope.

(** One row of the simulation table as [generate_stake_recommendations]
    reads it: the stake, its mean, and the two cells of the 10,000-hand
    horizon, which the table of [run_stake_simulations] has only when that
    horizon was among the simulated ones. *)
Record simulation_row : Type := mk_simulation_row {
  stake_text : string;
  mu : float;
  ror_10000h : option float;
  final_mean_10000h : option float
}.

(** One row of the recommendations table, column for column. *)
Record recommendation_row : Type := mk_recommendation_row {
  r_stake_text : string;
  recommendation : string;
  reason : string;
  ror_10k_hands : float;
  expected_return_bb_per_hand : float;
  min_bankroll_bb : Z;
  current_bankroll_sufficient : bool;
  expected_bb_after_10k : float
}.

(** [Series.get(key, default)]. *)
Definition get {A : Type} (cell : option A) (default : A) : A :=
  match cell with
  | Some v => v
  | None => default
  end.

Section Recommender.

(** The format specifications [.1%], [.4f] and [.0f] of the reasons. *)
Variable format_percent_1 : float -> string.
Variable format_fixed_4 : float -> string.
Variable format_fixed_0 : float -> string.

(** [DataFrame.sort_values("ror_10k_hands")]: the rows in ascending order
    of that column, NaN last. The default sort is not stable, so the order
    of rows with equal keys is the library's affair; the rows themselves
    are those of the frame. *)
Variable sort_values : list recommendation_row -> list recommendation_row.
Hypothesis sort_values_permutation :
  forall rows, Permutation (sort_values rows) rows.

(** The body of the loop for one row of the simulation table. *)
Definition recommend_row (row : simulation_row)
  (current_bankroll_bb risk_tolerance : float) : recommendation_row :=
  let stake := stake_text row in
  let ror_10k := get (ror_10000h row) inf in
  let expected_final := get (final_mean_10000h row) current_bankroll_bb in
  let min_bankroll_buyins := 25 in
  let min_bankroll_bb := min_bankroll_buyins * 100 in
  let '(recommendation, reason) :=
    if leb ror_10k risk_tolerance &&
       geb current_bankroll_bb (of_Z min_bankroll_bb)
    then
      if gtb (mu row) zero
      then ("RECOMMENDED",
            "Low risk (" ++ format_percent_1 ror_10k ++
            "), positive expectation (+" ++ format_fixed_4 (mu row) ++
            " BB/hand)")
      else ("MARGINAL",
            "Low risk but negative expectation (" ++
            format_fixed_4 (mu row) ++ " BB/hand)")
    else if leb ror_10k (mul risk_tolerance (of_Z 2))
    then ("ACCEPTABLE",
          "Moderate risk (" ++ format_percent_1 ror_10k ++
          "), monitor closely")
    else ("NOT RECOMMENDED",
          "High risk of ruin (" ++ format_percent_1 ror_10k ++ ")") in
  let '(recommendation, reason) :=
    if ltb current_bankroll_bb (of_Z min_bankroll_bb)
    then ("UNDERFUNDED",
          "Insufficient bankroll (need " ++
          format_fixed_0 (of_Z min_bankroll_bb) ++ "BB, have " ++
          format_fixed_0 current_bankroll_bb ++ "BB)")
    else (recommendation, reason) in
  {| r_stake_text := stake;
     recommendation := recommendation;
     reason := reason;
     ror_10k_hands := ror_10k;
     expected_return_bb_per_hand := mu row;
     min_bankroll_bb := min_bankroll_bb;
     current_bankroll_sufficient :=
       geb current_bankroll_bb (of_Z min_bankroll_bb);
     expected_bb_after_10k := expected_final |}.

(** [generate_stake_recommendations]. The frame built from an empty list
    of rows has no column, and sorting it by one raises [KeyError]. *)
Definition generate_stake_recommendations (simulation_df : list simulation_row)
  (current_bankroll_bb risk_tolerance : float)
  : outcome (list recommendation_row) :=
  let recommendations :=
    map (fun row => recommend_row row current_bankroll_bb risk_tolerance)
        simulation_df in
  match recommendations with
  | [] => Raise (KeyError "ror_10k_hands")
  | _ => Ok (sort_values recommendations)
  end.

(** ** The rows of the table *)

(** A table that is returned holds the rows of the loop, in some order. *)
Lemma recommendations_rows (simulation_df : list simulation_row)
  (current_bankroll_bb risk_tolerance : float) :
  simulation_df <> [] ->
  exists rows,
    generate_stake_recommendations simulation_df current_bankroll_bb
      risk_tolerance = Ok rows /\
    length rows = length simulation_df /\
    forall P : recommendation_row -> Prop,
      Forall (fun row =>
                P (recommend_row row current_bankroll_bb risk_tolerance))
             simulation_df ->
      Forall P rows.
Proof.
  intros Hne. unfold generate_stake_recommendations.
  destruct simulation_df as [|row rest]; [congruence|].
  cbn [map]. eexists. split; [reflexivity|].
  split.
  - rewrite (Permutation_length (sort_values_permutation _)).
    cbn [length]. now rewrite length_map.
  - intros P HP.
    apply (Permutation_Forall (Permutation_sym (sort_values_permutation _))).
    change (Forall P (map (fun r => recommend_row r current_bankroll_bb
                                      risk_tolerance) (row :: rest))).
    now apply Forall_map.
Qed.

(** X16. [generate_stake_recommendations] raises [KeyError] on a
    simulation table without rows, and otherwise returns a table with as
    many rows. In that table a stake is RECOMMENDED exactly when its risk
    of ruin is at most the tolerance, the bankroll is at least 2500 big
    blinds and its mean is above zero. *)
Theorem recommended_iff (simulation_df : list simulation_row)
  (current_bankroll_bb risk_tolerance : float) :
  generate_stake_recommendations [] current_bankroll_bb risk_tolerance =
  Raise (KeyError "ror_10k_hands") /\
  (simulation_df <> [] ->
   exists rows,
     generate_stake_recommendations simulation_df current_bankroll_bb
       risk_tolerance = Ok rows /\
     length rows = length simulation_df /\
     Forall (fun r =>
               current_bankroll_sufficient r =
                 geb current_bankroll_bb (of_Z 2500) /\
               (recommendation r = "RECOMMENDED" <->
                leb (ror_10k_hands r) risk_tolerance = true /\
                current_bankroll_sufficient r = true /\
                gtb (expected_return_bb_per_hand r) zero = true))
            rows).
Proof.
  split; [reflexivity|]. intros Hne.
  destruct (recommendations_rows simulation_df current_bankroll_bb
              risk_tolerance Hne) as (rows & Hrun & Hlen & Hall).
  exists rows. split; [exact Hrun|]. split; [exact Hlen|].
  apply Hall. apply Forall_forall. intros row _.
  unfold recommend_row. change (25 * 100) with 2500.
  destruct (leb (get (ror_10000h row) inf) risk_tolerance) eqn:Hror;
    destruct (geb current_bankroll_bb (of_Z 2500)) eqn:Hfund;
    destruct (gtb (mu row) zero) eqn:Hmu;
    destruct (leb (get (ror_10000h row) inf)
                  (mul risk_tolerance (of_Z 2)));
    destruct (ltb current_bankroll_bb (of_Z 2500)) eqn:Hlow;
    cbn [andb recommendation current_bankroll_sufficient ror_10k_hands
         expected_return_bb_per_hand];
    rewrite ?Hror, ?Hmu;
    try (apply ltb_not_leb in Hlow; unfold geb in Hfund; congruence);
    (split; [reflexivity|]);
    split; try discriminate; try tauto; intros (? & ? & ?); discriminate.
Qed.

(** X17. Below 2500 big blinds every stake is UNDERFUNDED, whatever its
    risk of ruin and its mean, and the row says the bankroll does not
    suffice; with a bankroll that is not below 2500 no row is
    UNDERFUNDED. *)
Theorem underfunded_iff (simulation_df : list simulation_row)
  (current_bankroll_bb risk_tolerance : float) :
  simulation_df <> [] ->
  exists rows,
    generate_stake_recommendations simulation_df current_bankroll_bb
      risk_tolerance = Ok rows /\
    Forall (fun r =>
              (recommendation r = "UNDERFUNDED" <->
               ltb current_bankroll_bb (of_Z 2500) = true) /\
              (ltb current_bankroll_bb (of_Z 2500) = true ->
               current_bankroll_sufficient r = false))
           rows.
Proof.
  intros Hne.
  destruct (recommendations_rows simulation_df current_bankroll_bb
              risk_tolerance Hne) as (rows & Hrun & _ & Hall).
  exists rows. split; [exact Hrun|].
  apply Hall. apply Forall_forall. intros row _.
  unfold recommend_row. change (25 * 100) with 2500.
  destruct (ltb current_bankroll_bb (of_Z 2500)) eqn:Hlow.
  - apply ltb_not_leb in Hlow. unfold geb. rewrite Hlow, andb_false_r.
    destruct (leb _ (mul risk_tolerance (of_Z 2)));
      cbn [recommendation current_bankroll_sufficient]; tauto.
  - destruct (leb (get (ror_10000h row) inf) risk_tolerance &&
              geb current_bankroll_bb (of_Z 2500));
      [destruct (gtb (mu row) zero)|
       destruct (leb _ (mul risk_tolerance (of_Z 2)))];
      cbn [recommendation current_bankroll_sufficient];
      (split; [split; discriminate|discriminate]).
Qed.

(** X18. A stake without a usable risk of ruin is never endorsed. When the
    simulation table has no cells for the 10,000-hand horizon, the risk of
    ruin is taken as infinite and the expected bankroll as the current one;
    then, and for a risk of ruin that is NaN, the stake is NOT RECOMMENDED
    or UNDERFUNDED, provided twice the tolerance is not infinite. *)
Theorem no_horizon_no_recommendation (simulation_df : list simulation_row)
  (current_bankroll_bb risk_tolerance : float) :
  simulation_df <> [] ->
  eqb (mul risk_tolerance (of_Z 2)) inf = false ->
  Forall (fun row =>
            (ror_10000h row = None /\ final_mean_10000h row = None) \/
            ror_10000h row = Some nan)
         simulation_df ->
  exists rows,
    generate_stake_recommendations simulation_df current_bankroll_bb
      risk_tolerance = Ok rows /\
    Forall (fun r =>
              (recommendation r = "NOT RECOMMENDED" \/
               recommendation r = "UNDERFUNDED") /\
              (ror_10k_hands r = inf /\
               expected_bb_after_10k r = current_bankroll_bb
               \/ ror_10k_hands r = nan))
           rows.
Proof.
  intros Hne Htol Hdf.
  destruct (recommendations_rows simulation_df current_bankroll_bb
              risk_tolerance Hne) as (rows & Hrun & _ & Hall).
  exists rows. split; [exact Hrun|].
  apply Hall. eapply Forall_impl; [|exact Hdf].
  intros row Hrow. unfold recommend_row. change (25 * 100) with 2500.
  assert (H1 : leb (get (ror_10000h row) inf) risk_tolerance = false).
  { destruct Hrow as [[-> _]| ->]; cbn [get]; [|reflexivity].
    destruct risk_tolerance as [[|]|[|]| |[|] m e]; try reflexivity.
    vm_compute in Htol. discriminate. }
  assert (H2 : leb (get (ror_10000h row) inf)
                   (mul risk_tolerance (of_Z 2)) = false).
  { destruct Hrow as [[-> _]| ->]; cbn [get]; [|reflexivity].
    destruct (mul risk_tolerance (of_Z 2)) as [[|]|[|]| |[|] m e];
      try reflexivity.
    vm_compute in Htol. discriminate. }
  rewrite H1, H2. cbn [andb].
  destruct (ltb current_bankroll_bb (of_Z 2500));
    cbn [recommendation ror_10k_hands expected_bb_after_10k];
    (split; [auto|]);
    destruct Hrow as [[-> ->]| ->]; cbn [get]; auto.
Qed.

(** X22. The other three labels. A stake is MARGINAL exactly when its
    risk of ruin is at most the tolerance, the bankroll is at least 2500
    big blinds and its mean is not above zero (a NaN mean included). With
    a bankroll that is not below 2500, a stake that is not of low risk in
    this sense is ACCEPTABLE when its risk of ruin is at most twice the
    tolerance, whatever the sign of its mean, and NOT RECOMMENDED
    otherwise. *)
Theorem other_labels (simulation_df : list simulation_row)
  (current_bankroll_bb risk_tolerance : float) :
  simulation_df <> [] ->
  exists rows,
    generate_stake_recommendations simulation_df current_bankroll_bb
      risk_tolerance = Ok rows /\
    Forall (fun r =>
              let low_risk :=
                leb (ror_10k_hands r) risk_tolerance &&
                current_bankroll_sufficient r in
              let funded := negb (ltb current_bankroll_bb (of_Z 2500)) in
              let moderate_risk :=
                leb (ror_10k_hands r) (mul risk_tolerance (of_Z 2)) in
              (recommendation r = "MARGINAL" <->
               low_risk = true /\
               gtb (expected_return_bb_per_hand r) zero = false) /\
              (recommendation r = "ACCEPTABLE" <->
               funded = true /\ low_risk = false /\ moderate_risk = true) /\
              (recommendation r = "NOT RECOMMENDED" <->
               funded = true /\ low_risk = false /\ moderate_risk = false))
           rows.
Proof.
  intros Hne.
  destruct (recommendations_rows simulation_df current_bankroll_bb
              risk_tolerance Hne) as (rows & Hrun & _ & Hall).
  exists rows. split; [exact Hrun|].
  apply Hall. apply Forall_forall. intros row _.
  unfold recommend_row. change (25 * 100) with 2500.
  destruct (leb (get (ror_10000h row) inf) risk_tolerance) eqn:Hror;
    destruct (geb current_bankroll_bb (of_Z 2500)) eqn:Hfund;
    destruct (gtb (mu row) zero) eqn:Hmu;
    destruct (leb (get (ror_10000h row) inf)
                  (mul risk_tolerance (of_Z 2))) eqn:Hmod;
    destruct (ltb current_bankroll_bb (of_Z 2500)) eqn:Hlow;
    cbn [andb negb recommendation current_bankroll_sufficient ror_10k_hands
         expected_return_bb_per_hand];
    rewrite ?Hror, ?Hmu, ?Hmod, ?Hfund; cbn [andb];
    try (apply ltb_not_leb in Hlow; unfold geb in Hfund; congruence);
    repeat split; try discriminate; try tauto;
    intros H; decompose [and] H; discriminate.
Qed.

End Recommender.

End Recommend.

(* ================================================================== *)
(** * Runs on concrete data *)
(* ================================================================== *)

Module Demo.
Import F64 Np Prob.

(** ** A generator and reductions to run with

    Stand-ins for the library parts the embedding takes as parameters:
    a generator whose state counts the draws and whose draws cycle through
    0.5, -1.0 and 0.25; mean and population standard deviation by their
    textbook formulas; the lower of the values as a percentile; Student's
    t quantile at 0.975 for two and three degrees of freedom, and the
    normal one beyond. *)
Definition rng : Type := nat.

Definition seed_state (v : Z) : rng := O.

Definition legacy_gauss (s : rng) : float * rng :=
  (match (s mod 3)%nat with
   | O => dec 1 2
   | S O => SFopp (of_Z 1)
   | _ => dec 1 4
   end, S s).

Definition np_mean (xs : list float) : float :=
  div (fold_left add xs zero) (of_Z (Z.of_nat (length xs))).

Definition np_std (xs : list float) : float :=
  sqrt (np_mean (map (fun x => let d := sub x (np_mean xs) in mul d d) xs)).

Definition np_percentile (xs : list float) (q : float) : float :=
  reduce minimum xs.

Definition t_ppf (q : float) (df : Z) : float :=
  if df =? 2 then dec 4302652729911275 1000000000000000
  else if df =? 3 then dec 3182446305284263 1000000000000000
  else dec 196 100.

Definition simulate_bankroll_paths :=
  Simulate.simulate_bankroll_paths rng seed_state legacy_gauss.

Definition simulated_risk_of_ruin :=
  Simulate.simulated_risk_of_ruin rng seed_state legacy_gauss.

Definition run_stake_simulations :=
  Simulate.run_stake_simulations rng seed_state legacy_gauss
    np_mean np_std np_percentile.

(** A NumPy that starts its sums from [-0.0]. *)
Definition start_sign : bool := true.

Definition estimate_mu_sigma_by_stake :=
  Estimate.estimate_mu_sigma_by_stake start_sign t_ppf.

(** ** Data *)

Definition session_of (stake : string) (bb usd : float) : Estimate.session :=
  Estimate.mk_session stake 150 (of_Z 5) (of_Z 30)
    (mul usd (of_Z 150)) (mul bb (of_Z 150)) bb usd.

(** Three sessions at one stake, each winning 0.1 big blinds a hand. *)
Definition three_tenths : list Estimate.session :=
  [ session_of "2-5" (dec 1 10) (dec 1 2);
    session_of "2-5" (dec 1 10) (dec 1 2);
    session_of "2-5" (dec 1 10) (dec 1 2) ].

(** Ten sessions at one stake, each winning 1.9 big blinds a hand. *)
Definition ten_sessions : list Estimate.session :=
  repeat (session_of "2-5" (dec 19 10) (dec 19 10)) 10.

(** Three sessions at one stake, each winning 1.0 big blind a hand, and a
    lone session at another stake. *)
Definition three_ones : list Estimate.session :=
  [ session_of "2-5" (of_Z 1) (of_Z 5);
    session_of "1-2" (of_Z 3) (of_Z 6);
    session_of "2-5" (of_Z 1) (of_Z 5);
    session_of "2-5" (of_Z 1) (of_Z 5) ].

(** Two trials of three steps: the first dips below zero. *)
Definition two_paths : ndarray :=
  mk_ndarray 2 3
    [ [of_Z 1; SFopp (of_Z 1); of_Z 2];
      [of_Z 1; of_Z 2; of_Z 3] ].

(** An array with no trial. *)
Definition no_paths : ndarray := mk_ndarray 0 1 [].

(** An estimate whose mean and variance are NaN. *)
Definition nan_estimate : Estimate.estimate :=
  Estimate.mk_estimate "2-5" 3 450 (of_Z 15) (of_Z 5)
    nan nan nan nan nan nan nan nan nan nan nan nan.

Definition good_estimate : Estimate.estimate :=
  Estimate.mk_estimate "1-2" 3 450 (of_Z 15) (of_Z 5)
    (dec 5 100) zero (dec 1 10) (dec 1 10) zero (dec 2 10)
    (of_Z 100) (of_Z 400) (dec 15 10) (of_Z 3) (dec 225 10) (of_Z 45).

Definition minus_tenth : float := SFopp (dec 1 10).

(** ** More stand-ins

    A power that squares by one multiplication and is out of range when
    the square of a finite number is not finite; a resample that takes the
    values as they stand; formats that only tell NaN from a number; and a
    sort of the recommendations by insertion, NaN last. *)
Definition float_pow (x y : float) : attempt float :=
  let r := mul x x in
  if is_finite x && negb (is_finite r)
  then Raises (OverflowError "Numerical result out of range")
  else Returns r.

Definition random_choice (a : list float) (n : nat) (s : rng)
  : list float * rng :=
  (map (fun i => nth ((s + i * i) mod length a) a nan) (seq 0 n), S s).

Definition format_number (x : float) : string :=
  if is_nan x then "nan" else "#".

Fixpoint insert_row (r : Recommend.recommendation_row)
  (l : list Recommend.recommendation_row)
  : list Recommend.recommendation_row :=
  match l with
  | [] => [r]
  | x :: t =>
      if leb (Recommend.ror_10k_hands r) (Recommend.ror_10k_hands x) ||
         is_nan (Recommend.ror_10k_hands x)
      then r :: x :: t
      else x :: insert_row r t
  end.

Definition sort_values (l : list Recommend.recommendation_row)
  : list Recommend.recommendation_row :=
  fold_right insert_row [] l.

Definition estimate_kelly_criterion :=
  Estimate.estimate_kelly_criterion float_pow.

Definition bootstrap_confidence_intervals :=
  Estimate.bootstrap_confidence_intervals rng seed_state random_choice
    np_mean np_std np_percentile.

Definition generate_stake_recommendations :=
  Recommend.generate_stake_recommendations format_number format_number
    format_number sort_values.

(** ** More data *)

(** Two trials that never fall. *)
Definition rising_paths : ndarray :=
  mk_ndarray 2 3
    [ [of_Z 1; of_Z 2; of_Z 3];
      [of_Z 1; of_Z 1; of_Z 2] ].

(** An array of two trials without a column. *)
Definition no_columns : ndarray := mk_ndarray 2 0 [ []; [] ].

(** Five sessions at one stake, three at another, one at a third. *)
Definition nine_sessions : list Estimate.session :=
  [ session_of "2-5" (of_Z 1) (of_Z 5);
    session_of "1-2" (of_Z 3) (of_Z 6);
    session_of "2-5" (of_Z 2) (of_Z 10);
    session_of "5-10" (of_Z 1) (of_Z 10);
    session_of "2-5" (of_Z 1) (of_Z 5);
    session_of "1-2" (of_Z 1) (of_Z 2);
    session_of "2-5" (of_Z 3) (of_Z 15);
    session_of "1-2" (of_Z 2) (of_Z 4);
    session_of "2-5" (of_Z 1) (of_Z 5) ].

(** Three sessions whose per-hand results are missing. *)
Definition missing_sessions : list Estimate.session :=
  [ session_of "2-5" nan nan;
    session_of "2-5" nan nan;
    session_of "2-5" nan nan ].

(** A losing stake, and a stake whose results never varied. *)
Definition losing_estimate : Estimate.estimate :=
  Estimate.mk_estimate "5-10" 3 450 (of_Z 15) (of_Z 5)
    (SFopp (dec 5 100)) (SFopp (dec 2 10)) (dec 1 10) (SFopp (dec 1 2))
    (SFopp (of_Z 1)) zero
    (of_Z 100) (of_Z 400) (SFopp (dec 15 10)) (SFopp (of_Z 15))
    (SFopp (dec 225 10)) (SFopp (of_Z 225)).

Definition flat_estimate : Estimate.estimate :=
  Estimate.mk_estimate "2-5" 3 450 (of_Z 15) (of_Z 5)
    (dec 5 100) (dec 5 100) (dec 5 100) (dec 1 10) (dec 1 10) (dec 1 10)
    zero zero (dec 15 10) (of_Z 3) (dec 225 10) (of_Z 45).

(** A simulation table with the 10,000-hand horizon, and one without. *)
Definition simulation_table : list Recommend.simulation_row :=
  [ Recommend.mk_simulation_row "2-5" (SFopp (dec 2 100))
      (Some (dec 20 100)) (Some (of_Z 4800));
    Recommend.mk_simulation_row "1-2" (dec 5 100)
      (Some (dec 1 100)) (Some (of_Z 5500)) ].

Definition short_table : list Recommend.simulation_row :=
  [ Recommend.mk_simulation_row "1-2" (dec 5 100) None None;
    Recommend.mk_simulation_row "2-5" (dec 2 100) (Some nan) (Some nan) ].

Lemma legacy_gauss_finite (s : rng) : is_finite (fst (legacy_gauss s)) = true.
Proof.
  unfold legacy_gauss. cbn [fst].
  destruct (s mod 3)%nat as [|[|n]]; reflexivity.
Defined.

(** ** The theorems at work *)

Lemma two_paths_well_shaped : well_shaped two_paths.
Proof. split; [reflexivity|]. repeat constructor. Defined.

(** C1 on two trials of three hands. *)
Lemma C1_witness :
  exists paths s',
    simulate_bankroll_paths (dec 5 100) (of_Z 10) (of_Z 100) 3 2 O
      = (Ok paths, s') /\
    nrows paths = 2%nat /\ ncols paths = 4%nat /\ well_shaped paths /\
    forall row, In row (rows paths) -> nth_error row 0 = Some (of_Z 100).
Proof.
  destruct (simulate_bankroll_paths (dec 5 100) (of_Z 10) (of_Z 100) 3 2 O)
    as [[paths|e] s'] eqn:Hrun; [|discriminate Hrun].
  destruct (Simulate.C1_simulated_paths rng seed_state legacy_gauss
              (dec 5 100) (of_Z 10) (of_Z 100) 3 2 O)
    as (_ & H).
  destruct (H paths s' Hrun) as (Hr & Hc & Hw & Hrows).
  exists paths, s'. repeat split; try assumption; try apply Hw.
  intros row Hrow. apply In_nth_error in Hrow. destruct Hrow as [i Hi].
  assert (Hlt : (i < Z.to_nat 2)%nat).
  { rewrite <- Hr, <- (proj1 Hw). apply nth_error_Some. congruence. }
  destruct (Hrows i Hlt) as (row' & Hrow' & H0 & _). congruence.
Defined.

(** C2 on [two_paths]: one trial of two is ruined. *)
Lemma C2_witness :
  Simulate.calculate_risk_of_ruin two_paths zero = Ok (PVal (1 # 2)) /\
  in_unit_interval (PVal (1 # 2)).
Proof.
  destruct (Simulate.C2_risk_of_ruin two_paths two_paths_well_shaped)
    as (H & Hb & _); [cbn; lia|cbn; lia|].
  split; [exact H|exact Hb].
Defined.

(** C3 on three sessions of exactly 1.0 big blind a hand. *)
Lemma C3_witness :
  exists row,
    filter (Estimate.has_stake "2-5") (estimate_mu_sigma_by_stake three_ones)
      = [row] /\
    Estimate.sigma2_bb_per_hand row = zero /\
    eqb (Estimate.mu_bb_ci_lower row) (Estimate.mu_bb_per_hand row) = true /\
    eqb (Estimate.mu_bb_ci_upper row) (Estimate.mu_bb_per_hand row) = true.
Proof.
  destruct (Estimate.C3_estimates_of_stake start_sign t_ppf three_ones "2-5")
    as (row & Hrow & _ & _ & _ & _ & _ & _ & _ & _ & _ & Hid); [cbn; lia|].
  destruct Hid as [Hbb _]; [reflexivity|].
  destruct (Hbb (of_Z 1)) as (Hs & Hl & Hu);
    [reflexivity|repeat constructor|reflexivity|].
  exists row. repeat split; assumption.
Defined.

(** C6 with a drift of plus and of minus one half from a bankroll of 1. *)
Lemma C6_witness :
  fst (simulated_risk_of_ruin (dec 1 2) zero (of_Z 1) 10 3 O)
    = Ok (PVal 0) /\
  fst (simulated_risk_of_ruin (SFopp (dec 1 2)) zero (of_Z 1) 10 3 O)
    = Ok (PVal 1).
Proof.
  split.
  - destruct (Simulate.C6_zero_sigma rng seed_state legacy_gauss
                legacy_gauss_finite (dec 1 2) (of_Z 1) 10 3 O)
      as [H _]; [lia|lia|reflexivity|].
    apply H; reflexivity.
  - destruct (Simulate.C6_zero_sigma rng seed_state legacy_gauss
                legacy_gauss_finite (SFopp (dec 1 2)) (of_Z 1) 10 3 O)
      as [_ H]; [lia|lia|reflexivity|].
    apply H; [reflexivity|reflexivity|reflexivity|lia|].
    vm_compute. reflexivity.
Defined.

(** C7 on [two_paths] with the thresholds 1 and 2. *)
Lemma C7_witness :
  exists d p1 p2,
    Simulate.calculate_drawdown_probabilities two_paths [of_Z 1; of_Z 2]
      = Ok d /\
    dict_get Simulate.threshold_key_eqb (of_Z 1) d = Some p1 /\
    dict_get Simulate.threshold_key_eqb (of_Z 2) d = Some p2 /\
    pgeb p1 p2 = true.
Proof.
  destruct (Simulate.C7_drawdown_monotone two_paths [of_Z 1; of_Z 2]
              (of_Z 1) (of_Z 2))
    as [_ H]; [cbn; lia|now left|right; now left|reflexivity|].
  destruct (H _ eq_refl) as (p1 & p2 & H1 & H2 & Hge).
  eexists. exists p1, p2. split; [reflexivity|]. auto.
Defined.

(** C8 on a table whose first row has NaN parameters. *)
Lemma C8_witness :
  exists rows s',
    run_stake_simulations [nan_estimate; good_estimate]
      (Simulate.mk_config (Some 2) (Some [3; 5]) (Some (of_Z 100))
                          (Some [of_Z 10; of_Z 20])) O = (Ok rows, s') /\
    map Simulate.stake_of rows =
    [Some (Simulate.Text "2-5"); Some (Simulate.Text "1-2")].
Proof.
  apply (Simulate.C8_every_stake_simulated rng seed_state legacy_gauss
           np_mean np_std np_percentile [nan_estimate; good_estimate]);
    [lia|repeat constructor; lia|repeat constructor; discriminate].
Defined.

(** C9 on a configuration without thresholds and on one with a negative
    threshold. *)
Lemma C9_witness :
  run_stake_simulations [good_estimate]
    (Simulate.mk_config (Some 2) (Some [3]) (Some (of_Z 100)) None) O =
  (Raise (KeyError "drawdown_thresholds"), 6%nat) /\
  is_ok (fst (run_stake_simulations [good_estimate]
                (Simulate.mk_config (Some 2) (Some [3]) (Some (of_Z 100))
                                    (Some [SFopp (of_Z 5)])) O)) = true.
Proof.
  split.
  - destruct (Simulate.C9_configuration_not_validated rng seed_state
                legacy_gauss np_mean np_std np_percentile good_estimate []
                2 3 [] (of_Z 100) []
                (Simulate.mk_config None None None None) O)
      as (_ & _ & H & _).
    apply H; [discriminate|lia|lia].
  - destruct (Simulate.C9_configuration_not_validated rng seed_state
                legacy_gauss np_mean np_std np_percentile good_estimate []
                2 3 [3] (of_Z 100) [SFopp (of_Z 5)]
                (Simulate.mk_config None None None None) O)
      as (_ & _ & _ & _ & H).
    apply H; [repeat constructor; discriminate|lia|repeat constructor; lia].
Defined.

(** C10 on two simulated trials of three hands, with the thresholds 0
    and -1. *)
Lemma C10_witness :
  exists paths s' d,
    simulate_bankroll_paths (dec 5 100) (of_Z 10) (of_Z 100) 3 2 O
      = (Ok paths, s') /\
    Simulate.calculate_drawdown_probabilities paths
      [zero; SFopp (of_Z 1)] = Ok d /\
    dict_get Simulate.threshold_key_eqb (SFopp (of_Z 1)) d = Some (PVal 1).
Proof.
  destruct (simulate_bankroll_paths (dec 5 100) (of_Z 10) (of_Z 100) 3 2 O)
    as [[paths|e] s'] eqn:Hrun; [|discriminate Hrun].
  destruct (Simulate.C10_nonpositive_threshold rng seed_state legacy_gauss
              (dec 5 100) (of_Z 10) (of_Z 100) 3 2 O s' paths
              [zero; SFopp (of_Z 1)] (SFopp (of_Z 1)) Hrun)
    as (d & Hd & Hget); [lia| |right; now left|reflexivity|].
  - vm_compute in Hrun. injection Hrun as <- _. repeat constructor.
  - exists paths, s', d. auto.
Defined.

(** ** Further runs *)

Lemma insert_row_permutation (r : Recommend.recommendation_row)
  (l : list Recommend.recommendation_row) :
  Permutation (insert_row r l) (r :: l).
Proof.
  induction l as [|x t IH]; cbn [insert_row]; [apply Permutation_refl|].
  destruct (_ || _); [apply Permutation_refl|].
  apply perm_trans with (x :: r :: t); [now apply perm_skip|apply perm_swap].
Defined.

Lemma sort_values_permutation (rows : list Recommend.recommendation_row) :
  Permutation (sort_values rows) rows.
Proof.
  induction rows as [|r t IH]; cbn [sort_values fold_right];
    [apply perm_nil|].
  apply perm_trans with (r :: fold_right insert_row [] t);
    [apply insert_row_permutation|now apply perm_skip].
Defined.

Lemma rising_paths_well_shaped : well_shaped rising_paths.
Proof. split; [reflexivity|]. repeat constructor. Defined.

(** The risk of ruin of [two_paths] for the thresholds 0 and 1. *)
Lemma risk_of_ruin_monotone_witness :
  exists p1 p2,
    Simulate.calculate_risk_of_ruin two_paths zero = Ok p1 /\
    Simulate.calculate_risk_of_ruin two_paths (of_Z 1) = Ok p2 /\
    pgeb p2 p1 = true.
Proof.
  apply (Simulate.risk_of_ruin_monotone two_paths zero (of_Z 1));
    [cbn; lia|cbn; lia|reflexivity].
Defined.

(** The drawdown probabilities of [two_paths]. *)
Lemma drawdown_probabilities_in_unit_interval_witness :
  exists d,
    Simulate.calculate_drawdown_probabilities two_paths [of_Z 1; of_Z 2]
      = Ok d /\
    forall k v, In (k, v) d -> in_unit_interval v.
Proof.
  apply (Simulate.drawdown_probabilities_in_unit_interval two_paths
           [of_Z 1; of_Z 2] two_paths_well_shaped); cbn; lia.
Defined.

(** A threshold given for an array without columns, and a threshold
    listed twice. *)
Lemma drawdown_probabilities_keys_witness :
  Simulate.calculate_drawdown_probabilities no_columns [of_Z 1]
    = Raise (zero_size "maximum") /\
  exists d,
    Simulate.calculate_drawdown_probabilities two_paths
      [of_Z 1; of_Z 2; of_Z 1] = Ok d /\
    Simulate.distinct_keys (map fst d) /\
    (length d <= 3)%nat.
Proof.
  split.
  - destruct (Simulate.drawdown_probabilities_keys no_columns [of_Z 1])
      as [H _].
    apply H; [reflexivity|discriminate].
  - destruct (Simulate.drawdown_probabilities_keys two_paths
                [of_Z 1; of_Z 2; of_Z 1]) as [_ H].
    destruct H as (d & Hd & Hdist & _ & _ & Hlen); [left; cbn; lia|].
    exists d. auto.
Defined.

(** [rising_paths] and the threshold 1. *)
Lemma no_drawdown_on_rising_paths_witness :
  exists d,
    Simulate.calculate_drawdown_probabilities rising_paths [of_Z 1] = Ok d /\
    dict_get Simulate.threshold_key_eqb (of_Z 1) d = Some (PVal 0).
Proof.
  apply (Simulate.no_drawdown_on_rising_paths rising_paths [of_Z 1] (of_Z 1)
           rising_paths_well_shaped);
    [cbn; lia|cbn; lia| |now left|reflexivity].
  repeat constructor.
Defined.

(** Two trials over no hand, from a bankroll of 100. *)
Lemma zero_horizon_witness :
  simulate_bankroll_paths (dec 5 100) (of_Z 10) (of_Z 100) 0 2 5%nat =
  (Ok (mk_ndarray 2 1 [[of_Z 100]; [of_Z 100]]), O) /\
  simulated_risk_of_ruin (dec 5 100) (of_Z 10) (of_Z 100) 0 2 5%nat =
  (Ok (PVal 0), O).
Proof.
  apply (Simulate.zero_horizon rng seed_state legacy_gauss
           (dec 5 100) (of_Z 10) (of_Z 100) 2 5%nat); [reflexivity|lia].
Defined.

(** The cells of the row of [good_estimate]. *)
Lemma result_row_cells_witness :
  exists rows s',
    run_stake_simulations [good_estimate]
      (Simulate.mk_config (Some 2) (Some [3; 5]) (Some (of_Z 100))
                          (Some [of_Z 10])) O = (Ok rows, s') /\
    Forall2
      (fun e row =>
         dict_get Simulate.column_eqb Simulate.c_mu row =
           Some (Simulate.Num (Estimate.mu_bb_per_hand e)) /\
         exists p,
           fst (simulated_risk_of_ruin (Estimate.mu_bb_per_hand e)
                  (sqrt (Estimate.sigma2_bb_per_hand e)) (of_Z 100) 5 2 O)
             = Ok p /\
           dict_get Simulate.column_eqb (Simulate.c_ror 5) row =
             Some (Simulate.Ratio p))
      [good_estimate] rows.
Proof.
  destruct (Simulate.result_row_cells rng seed_state legacy_gauss
              np_mean np_std np_percentile [good_estimate] 2 [3; 5]
              (of_Z 100) [of_Z 10] O)
    as (rows & s' & Hrun & Hcells);
    [lia|repeat constructor; lia|repeat constructor; discriminate|].
  exists rows, s'. split; [exact Hrun|].
  eapply Forall2_impl; [|exact Hcells].
  intros e row (Hmu & _ & _ & Hror). split; [exact Hmu|].
  apply Hror. right. now left.
Defined.

(** The columns of the rows of two stakes, for two horizons and one
    threshold. *)
Lemma result_row_columns_witness :
  exists rows s',
    run_stake_simulations [nan_estimate; good_estimate]
      (Simulate.mk_config (Some 2) (Some [3; 5]) (Some (of_Z 100))
                          (Some [of_Z 10])) O = (Ok rows, s') /\
    Forall (fun row => length row = 16%nat) rows.
Proof.
  destruct (Simulate.result_row_columns rng seed_state legacy_gauss
              np_mean np_std np_percentile [nan_estimate; good_estimate]
              2 [3; 5] (of_Z 100) [of_Z 10] O)
    as (rows & s' & Hrun & Hcols);
    [lia|repeat constructor; lia| |repeat constructor|
     repeat constructor|repeat constructor; discriminate|].
  - repeat constructor; cbn; intuition discriminate.
  - exists rows, s'. split; [exact Hrun|].
    eapply Forall_impl; [|exact Hcols]. intros row [_ Hlen]. exact Hlen.
Defined.

(** The estimates of [nine_sessions], simulated. *)
Lemma estimates_are_simulated_witness :
  exists rows s',
    run_stake_simulations (estimate_mu_sigma_by_stake nine_sessions)
      (Simulate.mk_config (Some 2) (Some [3]) (Some (of_Z 100))
                          (Some [of_Z 10])) O = (Ok rows, s') /\
    map Simulate.stake_of rows =
    [Some (Simulate.Text "2-5"); Some (Simulate.Text "1-2")].
Proof.
  apply (Simulate.estimates_are_simulated rng seed_state legacy_gauss
           np_mean np_std np_percentile start_sign t_ppf nine_sessions 2 [3]
           (of_Z 100) [of_Z 10] O); [lia|repeat constructor; lia].
Defined.

(** A table with a winning stake, and a table without one. *)
Lemma bankroll_requirements_outcome_witness :
  Simulate.calculate_bankroll_requirements [losing_estimate; good_estimate]
    (dec 5 100) = Raises (NameError "stats") /\
  Simulate.calculate_bankroll_requirements [losing_estimate; flat_estimate]
    (dec 5 100) =
  Returns [ Simulate.mk_requirement "5-10" 5000 (of_Z 50)
              (SFopp (dec 5 100)) (of_Z 10);
            Simulate.mk_requirement "2-5" 5000 (of_Z 50) (dec 5 100) zero ].
Proof.
  split.
  - destruct (Simulate.bankroll_requirements_outcome
                [losing_estimate; good_estimate] (dec 5 100)) as [H _].
    apply H. right. left. repeat split.
  - destruct (Simulate.bankroll_requirements_outcome
                [losing_estimate; flat_estimate] (dec 5 100)) as [_ H].
    apply H.
    constructor; [left; reflexivity|].
    constructor; [right; reflexivity|constructor].
Defined.

(** A stake whose three sessions have no per-hand result. *)
Lemma estimates_of_missing_values_witness :
  exists row,
    filter (Estimate.has_stake "2-5")
           (estimate_mu_sigma_by_stake missing_sessions) = [row] /\
    Estimate.n_sessions row = 3%nat /\
    is_nan (Estimate.sigma2_bb_per_hand row) = true /\
    is_nan (Estimate.mu_bb_per_hand row) = true.
Proof.
  destruct (Estimate.estimates_of_missing_values start_sign t_ppf
              missing_sessions "2-5")
    as (row & Hrow & Hn & Hvar & Hmean); [cbn; lia|].
  exists row. split; [exact Hrow|]. split; [exact Hn|].
  split; [apply Hvar; cbn; lia|apply Hmean; reflexivity].
Defined.

(** The Sharpe ratios of a stake without spread and of one with. *)
Lemma sharpe_ratios_never_infinite_witness :
  exists rows,
    Estimate.calculate_sharpe_ratios
      (Estimate.DataFrame [flat_estimate; good_estimate]) = Ok rows /\
    map Estimate.estimate_of rows = [flat_estimate; good_estimate] /\
    Forall (fun r => is_finite (Estimate.sharpe_ratio r) = true \/
                     is_nan (Estimate.sharpe_ratio r) = true) rows.
Proof.
  destruct (Estimate.sharpe_ratios_never_infinite start_sign t_ppf three_ones
              (Estimate.DataFrame [flat_estimate; good_estimate]))
    as (_ & _ & H).
  destruct H as (rows & Hrun & Hmap & Hall); [reflexivity|].
  exists rows. split; [exact Hrun|]. split; [exact Hmap|].
  eapply Forall_impl; [|exact Hall]. intros r (_ & H & _). exact H.
Defined.

(** The Kelly fraction for a mean of 0.05 and a standard deviation of
    0.1, which the cap brings down from 5 to 0.25. *)
Lemma kelly_fraction_clamped_witness :
  estimate_kelly_criterion (dec 5 100) zero (of_Z 5000)
    = Returns (zero, zero) /\
  exists k bet,
    estimate_kelly_criterion (dec 5 100) (dec 1 10) (of_Z 5000)
      = Returns (k, bet) /\
    (is_nan k = true \/ (leb zero k = true /\ leb k (dec 25 100) = true)) /\
    bet = mul k (of_Z 5000).
Proof.
  split.
  - destruct (Estimate.kelly_fraction_clamped float_pow
                (dec 5 100) zero (of_Z 5000)) as [H _].
    apply H. reflexivity.
  - destruct (Estimate.kelly_fraction_clamped float_pow
                (dec 5 100) (dec 1 10) (of_Z 5000)) as (_ & H & _).
    destruct (estimate_kelly_criterion (dec 5 100) (dec 1 10) (of_Z 5000))
      as [[k bet]|e] eqn:Hrun; [|vm_compute in Hrun; discriminate].
    destruct (H k bet Hrun) as [Hk Hbet].
    exists k, bet. split; [reflexivity|]. split; [exact Hk|].
    apply Hbet. reflexivity.
Defined.

(** The bootstrap of [nine_sessions] with two rounds: the one stake with
    five sessions has the means 1.4 and 1.2 of its two resamples. *)
Lemma bootstrap_stakes_witness :
  bootstrap_confidence_intervals nine_sessions 2 O =
  ([("2-5"%string,
     Estimate.summary np_mean np_std np_percentile [dec 14 10; dec 12 10])],
   2%nat) /\
  In "1-2"%string (map Estimate.e_stake_text
              (estimate_mu_sigma_by_stake nine_sessions)).
Proof.
  destruct (Estimate.bootstrap_stakes rng seed_state random_choice
              np_mean np_std np_percentile start_sign t_ppf
              nine_sessions 2 O)
    as (_ & Hentries & Hstate & _ & Hsmall); [lia|].
  split.
  - apply injective_projections; [exact Hentries|exact Hstate].
  - apply (Hsmall "1-2"%string). cbn. lia.
Defined.

(** The recommendations for [simulation_table] with a bankroll of 5000
    big blinds and a tolerance of 5%. *)
Lemma recommended_iff_witness :
  exists rows,
    generate_stake_recommendations simulation_table (of_Z 5000) (dec 5 100)
      = Ok rows /\
    length rows = 2%nat /\
    Forall (fun r =>
              Recommend.recommendation r = "RECOMMENDED"%string <->
              leb (Recommend.ror_10k_hands r) (dec 5 100) = true /\
              Recommend.current_bankroll_sufficient r = true /\
              gtb (Recommend.expected_return_bb_per_hand r) zero = true)
           rows.
Proof.
  destruct (Recommend.recommended_iff format_number format_number
              format_number sort_values sort_values_permutation
              simulation_table (of_Z 5000) (dec 5 100)) as [_ H].
  destruct H as (rows & Hrun & Hlen & Hall); [discriminate|].
  exists rows. split; [exact Hrun|]. split; [exact Hlen|].
  eapply Forall_impl; [|exact Hall]. intros r [_ H]. exact H.
Defined.

(** The same table with a bankroll of 1000 big blinds. *)
Lemma underfunded_iff_witness :
  exists rows,
    generate_stake_recommendations simulation_table (of_Z 1000) (dec 5 100)
      = Ok rows /\
    Forall (fun r =>
              Recommend.recommendation r = "UNDERFUNDED"%string /\
              Recommend.current_bankroll_sufficient r = false)
           rows.
Proof.
  destruct (Recommend.underfunded_iff format_number format_number
              format_number sort_values sort_values_permutation
              simulation_table (of_Z 1000) (dec 5 100))
    as (rows & Hrun & Hall); [discriminate|].
  exists rows. split; [exact Hrun|].
  eapply Forall_impl; [|exact Hall]. intros r [Hiff Hsuff].
  split; [apply Hiff; reflexivity|apply Hsuff; reflexivity].
Defined.

(** A table without the 10,000-hand horizon. *)
Lemma no_horizon_no_recommendation_witness :
  exists rows,
    generate_stake_recommendations short_table (of_Z 5000) (dec 5 100)
      = Ok rows /\
    Forall (fun r =>
              Recommend.recommendation r = "NOT RECOMMENDED"%string \/
              Recommend.recommendation r = "UNDERFUNDED"%string)
           rows.
Proof.
  destruct (Recommend.no_horizon_no_recommendation format_number
              format_number format_number sort_values
              sort_values_permutation short_table (of_Z 5000) (dec 5 100))
    as (rows & Hrun & Hall); [discriminate|reflexivity| |].
  - constructor; [left; split; reflexivity|].
    constructor; [right; reflexivity|constructor].
  - exists rows. split; [exact Hrun|].
    eapply Forall_impl; [|exact Hall]. intros r [H _]. exact H.
Defined.

(** Two trials of three hands with a NaN mean. *)
Lemma nan_parameters_look_safe_witness :
  exists paths s' d,
    simulate_bankroll_paths nan (of_Z 10) (of_Z 100) 3 2 O
      = (Ok paths, s') /\
    Simulate.calculate_risk_of_ruin paths zero = Ok (PVal 0) /\
    Simulate.calculate_drawdown_probabilities paths [zero; of_Z 10]
      = Ok d /\
    dict_get Simulate.threshold_key_eqb zero d = Some (PVal 0).
Proof.
  apply (Simulate.nan_parameters_look_safe rng seed_state legacy_gauss
           nan (of_Z 10) (of_Z 100) 3 2 [zero; of_Z 10] zero O);
    [now left|reflexivity|lia|lia|now left|reflexivity].
Defined.

(** The labels of [simulation_table] other than RECOMMENDED. *)
Lemma other_labels_witness :
  exists rows,
    generate_stake_recommendations simulation_table (of_Z 5000) (dec 5 100)
      = Ok rows /\
    Forall (fun r =>
              Recommend.recommendation r = "MARGINAL"%string <->
              leb (Recommend.ror_10k_hands r) (dec 5 100) &&
              Recommend.current_bankroll_sufficient r = true /\
              gtb (Recommend.expected_return_bb_per_hand r) zero = false)
           rows.
Proof.
  destruct (Recommend.other_labels format_number format_number
              format_number sort_values sort_values_permutation
              simulation_table (of_Z 5000) (dec 5 100))
    as (rows & Hrun & Hall); [discriminate|].
  exists rows. split; [exact Hrun|].
  eapply Forall_impl; [|exact Hall]. intros r [H _]. exact H.
Defined.

(** ** Where the specification and the program part *)

(** C3. Three sessions of 0.1 big blinds a hand are identical samples, yet
    their sum is 0.30000000000000004 and their mean 0.10000000000000002:
    the variance comes out as 1.5 * 2^-112 (about 2.9e-34), not zero,
    whatever the quantile function; with the quantile 4.30 for two degrees
    of freedom the confidence bounds differ from the mean. *)
Lemma C3_counterexample :
  Forall (fun r => Estimate.bb_per_hand r = dec 1 10) three_tenths /\
  (forall start quantile,
     map Estimate.sigma2_bb_per_hand
         (Estimate.estimate_mu_sigma_by_stake start quantile three_tenths) =
     [S754_finite false 6755399441055744 (-164)]) /\
  map (fun r => eqb (Estimate.sigma2_bb_per_hand r) zero)
      (estimate_mu_sigma_by_stake three_tenths) = [false] /\
  map (fun r => eqb (Estimate.mu_bb_ci_lower r) (Estimate.mu_bb_per_hand r))
      (estimate_mu_sigma_by_stake three_tenths) = [false] /\
  map (fun r => eqb (Estimate.mu_bb_ci_upper r) (Estimate.mu_bb_per_hand r))
      (estimate_mu_sigma_by_stake three_tenths) = [false].
Proof.
  split; [repeat constructor|].
  split; [intros start quantile; vm_compute; reflexivity|].
  repeat split; vm_compute; reflexivity.
Qed.

(** Ten sessions of 1.9 big blinds a hand are added pairwise: their mean
    comes out as 1.8999999999999997, one unit in the last place below 1.9,
    and their variance as about 5.5e-32, whatever the start of the sums and
    the quantile function. *)
Lemma ten_sessions_estimates :
  dec 19 10 = S754_finite false 8556839292003942 (-52) /\
  forall start quantile,
    map (fun r => (Estimate.mu_bb_per_hand r, Estimate.sigma2_bb_per_hand r))
        (Estimate.estimate_mu_sigma_by_stake start quantile ten_sessions) =
    [(S754_finite false 8556839292003941 (-52),
      S754_finite false 5003999585967218 (-156))].
Proof.
  split; [reflexivity|]. intros start quantile. vm_compute. reflexivity.
Qed.

(** C6. [mu = -0.1], [sigma = 0], a bankroll of 1 and ten hands:
    [1 + mu * 10] is [0.0], yet the running sum of ten times -0.1 is
    -0.9999999999999999 and the path ends at 2^-53 > 0, so no trial is
    ruined, with any generator whose draws are finite. *)
Lemma C6_counterexample :
  ltb minus_tenth zero = true /\
  ltb zero one = true /\
  leb (add one (mul minus_tenth (of_Z 10))) zero = true /\
  (forall (g : Type) (seed : Z -> g) (gauss : g -> float * g),
     (forall s, is_finite (fst (gauss s)) = true) ->
     forall s,
       fst (Simulate.simulated_risk_of_ruin g seed gauss
              minus_tenth zero one 10 1 s) = Ok (PVal 0)).
Proof.
  repeat split; try reflexivity.
  intros g seed gauss Hfin s.
  rewrite Simulate.simulated_risk_zero_sigma; auto; try lia.
  right. exact I.
Qed.

(** C7. On an array without trials both probabilities are [0 / 0], NaN,
    and NaN is not at least NaN. *)
Lemma C7_counterexample :
  ltb (of_Z 1) (of_Z 2) = true /\
  Simulate.calculate_drawdown_probabilities no_paths [of_Z 1; of_Z 2] =
  Ok [(of_Z 1, PNaN); (of_Z 2, PNaN)] /\
  pgeb PNaN PNaN = false.
Proof. repeat split. Qed.

(** C8. A row whose mean and variance are NaN is simulated like any
    other and appears in the table, with any generator. *)
Lemma C8_counterexample :
  is_nan (Estimate.mu_bb_per_hand nan_estimate) = true /\
  is_nan (Estimate.sigma2_bb_per_hand nan_estimate) = true /\
  (forall (g : Type) (seed : Z -> g) (gauss : g -> float * g)
          (mean std : list float -> float)
          (percentile : list float -> float -> float) (s : g),
     exists rows s',
       Simulate.run_stake_simulations g seed gauss mean std percentile
         [nan_estimate]
         (Simulate.mk_config (Some 2) (Some [3]) (Some (of_Z 100))
                             (Some [of_Z 10])) s = (Ok rows, s') /\
       map Simulate.stake_of rows = [Some (Simulate.Text "2-5")]).
Proof.
  repeat split. intros g seed gauss mean std percentile s.
  destruct (Simulate.stakes_loop_ok g seed gauss mean std percentile
              2 [3] (of_Z 100) [of_Z 10] [nan_estimate])
    with (acc := @nil Simulate.result_row) (s := s) as (rows & s' & H);
    [lia|repeat constructor; lia|repeat constructor; discriminate|].
  exists rows, s'. split; [exact H|].
  now apply Simulate.stakes_loop_stakes in H.
Qed.

(** C9. A configuration with a negative drawdown threshold is out of its
    domain, yet the run returns a table, with any generator. *)
Lemma C9_counterexample :
  ltb (SFopp (of_Z 5)) zero = true /\
  (forall (g : Type) (seed : Z -> g) (gauss : g -> float * g)
          (mean std : list float -> float)
          (percentile : list float -> float -> float) (s : g),
     is_ok (fst (Simulate.run_stake_simulations g seed gauss mean std
                   percentile [good_estimate]
                   (Simulate.mk_config (Some 2) (Some [3])
                      (Some (of_Z 100)) (Some [SFopp (of_Z 5)])) s))
     = true).
Proof.
  split; [reflexivity|]. intros g seed gauss mean std percentile s.
  destruct (Simulate.stakes_loop_ok g seed gauss mean std percentile
              2 [3] (of_Z 100) [SFopp (of_Z 5)] [good_estimate])
    with (acc := @nil Simulate.result_row) (s := s) as (rows & s' & H);
    [lia|repeat constructor; lia|repeat constructor; discriminate|].
  exact (f_equal (fun x => is_ok (fst x)) H).
Qed.

(** C10. With [mu = NaN] every entry after the first is NaN, so is the
    maximum drawdown, and the probability for the threshold 0 is 0, with
    any generator. *)
Lemma C10_counterexample :
  leb zero zero = true /\
  (forall (g : Type) (seed : Z -> g) (gauss : g -> float * g) (s : g),
     exists paths s',
       Simulate.simulate_bankroll_paths g seed gauss
         nan one (of_Z 100) 2 1 s = (Ok paths, s') /\
       Simulate.calculate_drawdown_probabilities paths [zero] =
       Ok [(zero, PVal 0)]).
Proof.
  split; [reflexivity|]. intros g seed gauss s.
  rewrite Simulate.simulate_bankroll_paths_spec by (try reflexivity; lia).
  eexists. eexists. split; [reflexivity|]. vm_compute. reflexivity.
Qed.

End Demo.
